(** * Skein-SAT: [find_weak_outputs_skein.cpp]

    The search driver, function by function: the candidate generator
    [rand_seq8], the verdict reader [read_solver_result], the instance
    writer [gen_rand_cnf], the solver call [solve_cnf], the command line of
    [main], and the loops of [main] around the shared bound
    [min_total_solving_runtime]; then the pipe reader [exec] and the
    writer of the output files, [write_to_output], each on its own.

    Conventions.
    - [unsigned] values are [Z] in [0, 2^32) with the wrap-around written out
      ([wrap32]); [size_t] arithmetic wraps at 2^64 ([wrap64]).
    - A text file is the list of its lines, as successive [getline] calls
      return them and as [<< ... << endl] writes them; the file system is a
      finite map from file names to such lists.
    - [exit], a failed [assert] (the Makefile does not define NDEBUG) and an
      uncaught exception end the process; they are results of type
      [outcome].
    - The wall clock and the SAT solver are outside the program: what
      [exec] does to the files and how far the clock moves are inputs.
    - A [double] is an IEEE 754 binary64 number, with the addition,
      division and comparisons of the Standard Library's [SpecFloat]
      (53 bits of precision, rounding to nearest, ties to even): a sum of
      run times is the rounded sum the program computes.
    - Of the lines written by [write_to_output] and [cout] only the
      discoveries (lines 284-285) are kept, as data.
    - The workers of the OpenMP loop share one variable, the bound.  One
      evaluation reads it at every stage ([min_at]).  A worker's loop
      ([candidate_turn], [worker_loop]) is the loop of a pool of one worker
      (the program started with the argument 1), which has the variable to
      itself.  Lines 282-285 are modelled for several workers as well, one
      access to the variable at a time ([interleave]).  How OpenMP starts
      the workers is not modelled. *)

From Stdlib Require Import ZArith Lia List Ascii String DecimalString DecimalPos DecimalN SpecFloat.
From stdpp Require Import base option list gmap strings.

Open Scope Z_scope.

(** ** Machine integers *)

Definition wrap32 (z : Z) : Z := z mod 2 ^ 32.
Definition wrap64 (z : Z) : Z := z mod 2 ^ 64.

Definition UINT_MAX : Z := 2 ^ 32 - 1.
Definition INT_MAX : Z := 2 ^ 31 - 1.
Definition INT_MIN : Z := - 2 ^ 31.

Definition EXIT_SUCCESS : Z := 0.
Definition EXIT_FAILURE : Z := 1.

(** ** Doubles *)

(** A [double]: an IEEE 754 binary64 number, 53 bits of precision and
    exponents up to 1024, as the Standard Library specifies it.  The
    numbers the program holds are in canonical form ([valid_binary]), as
    the operations below return them. *)
Definition double : Type := spec_float.

(** The conversion of an integer to [double]; it is exact below 2^53. *)
Definition double_of_Z (z : Z) : double := binary_normalize 53 1024 z 0 false.

(** [x + y] and [x / y], rounded to nearest, ties to even. *)
Definition double_add (x y : double) : double := SFadd 53 1024 x y.
Definition double_div (x y : double) : double := SFdiv 53 1024 x y.

(** [x < y], [x <= y] and [x == y]; each is false when a side is no number,
    and the two zeros are equal. *)
Definition double_ltb (x y : double) : bool := SFltb x y.
Definition double_leb (x y : double) : bool := SFleb x y.
Definition double_eqb (x y : double) : bool := SFeqb x y.

Declare Scope double_scope.
Delimit Scope double_scope with D.
Notation "x < y" := (double_ltb x y = true) : double_scope.
Notation "x <= y" := (double_leb x y = true) : double_scope.
Notation "x == y" := (double_eqb x y = true) (at level 70, no associativity) : double_scope.

(** ** Process results *)

(** The ways a call does not return. *)
Inductive failure : Type :=
| Exited (status : Z) (err : string)   (* [exit(status)], [err] written to cerr *)
| Aborted                              (* failed [assert] or [std::terminate] *)
| OutOfFuel.                           (* a loop of the model used up its fuel *)

Inductive outcome (A : Type) : Type :=
| Ret (a : A)
| Fail (f : failure).

Arguments Ret {A} a.
Arguments Fail {A} f.

#[global] Instance outcome_ret : MRet outcome := fun A a => Ret a.

#[global] Instance outcome_bind : MBind outcome := fun A B k m =>
  match m with
  | Ret a => k a
  | Fail f => Fail f
  end.

Definition assert (b : bool) : outcome unit := if b then Ret tt else Fail Aborted.

(** ** The pieces of the C++ library the program calls *)

Definition newline : string := String (ascii_of_nat 10) "".

(** [std::isspace] in the "C" locale: space and the controls 9 to 13. *)
Definition isspace (c : ascii) : bool :=
  let n := nat_of_ascii c in
  (n =? 32)%nat || ((9 <=? n)%nat && (n <=? 13)%nat).

Definition isdigit (c : ascii) : bool :=
  let n := nat_of_ascii c in
  (48 <=? n)%nat && (n <=? 57)%nat.

Definition digit_val (c : ascii) : Z := Z.of_nat (nat_of_ascii c) - 48.

(** [std::to_string] and [operator<<] on an unsigned integer. *)
Definition to_string (z : Z) : string :=
  NilZero.string_of_uint (N.to_uint (Z.to_N z)).

(** [operator<<] on an [int]. *)
Definition int_to_string (z : Z) : string :=
  NilZero.string_of_int (Z.to_int z).

(** [str[0]]: the terminating NUL for the empty string. *)
Definition first_char (str : string) : ascii :=
  match str with
  | EmptyString => zero
  | String c _ => c
  end.

Fixpoint starts_with (pat s : string) : bool :=
  match pat, s with
  | EmptyString, _ => true
  | String a pat', String b s' => if Ascii.eqb a b then starts_with pat' s' else false
  | String _ _, EmptyString => false
  end.

(** [s.find(pat)]: the first position where [pat] occurs, [None] for
    [string::npos]. *)
Fixpoint str_find (pat s : string) : option nat :=
  if starts_with pat s then Some 0%nat
  else match s with
       | EmptyString => None
       | String _ s' => S <$> str_find pat s'
       end.

Fixpoint skip_ws (s : string) : string :=
  match s with
  | EmptyString => EmptyString
  | String c s' => if isspace c then skip_ws s' else s
  end.

Fixpoint take_word (s : string) : string * string :=
  match s with
  | EmptyString => (EmptyString, EmptyString)
  | String c s' =>
      if isspace c then (EmptyString, s)
      else let (w, rest) := take_word s' in (String c w, rest)
  end.

(** [stream >> word] on a string stream holding [stream]: the rest of the
    stream and the new value of [word].  When only white space is left the
    extraction fails and [word] keeps its value. *)
Definition extract_word (stream word : string) : string * string :=
  match skip_ws stream with
  | EmptyString => (EmptyString, word)
  | s => let (w, rest) := take_word s in (rest, w)
  end.

Fixpoint read_digits_from (s : string) (acc : Z) : Z :=
  match s with
  | EmptyString => acc
  | String c s' => if isdigit c then read_digits_from s' (10 * acc + digit_val c) else acc
  end.

(** The value of the longest prefix of decimal digits, [None] without one. *)
Definition read_digits (s : string) : option Z :=
  if isdigit (first_char s) then Some (read_digits_from s 0) else None.

Definition read_sign (s : string) : bool * string :=
  match s with
  | String c s' =>
      if Ascii.eqb c "-" then (true, s')
      else if Ascii.eqb c "+" then (false, s')
      else (false, s)
  | EmptyString => (false, s)
  end.

(** [istringstream(word) >> var_num] for an [unsigned]: zero when there is
    no number, [UINT_MAX] when it is too large, negated modulo 2^32 after a
    minus sign. *)
Definition extract_unsigned (word : string) : Z :=
  let (negative, s) := read_sign (skip_ws word) in
  match read_digits s with
  | None => 0
  | Some v =>
      if UINT_MAX <? v then UINT_MAX
      else if negative then wrap32 (- v) else v
  end.

(** [std::stoi]: [None] when it throws ([std::invalid_argument] without a
    number, [std::out_of_range] outside [int]). *)
Definition stoi (str : string) : option Z :=
  let (negative, s) := read_sign (skip_ws str) in
  match read_digits s with
  | None => None
  | Some v =>
      let n := if negative then - v else v in
      if (INT_MIN <=? n) && (n <=? INT_MAX) then Some n else None
  end.

(** ** Constants of the program *)

Inductive result : Type := UNSAT | SAT | INTERR.

Definition MAX_LIMITS_SEC : list Z := [3; 4; 5; 20; 30].
Definition MAX_UNSAT_INST : Z := 3.
Definition SEQ_LEN : nat := 512.
Definition SUBSEQ_LEN_1 : nat := 8.
Definition SUBSEQ_LEN_2 : nat := 16.
Definition CNF_NAME_PART_1 : string := "cbmc_skein_1r_".
Definition CNF_NAME_PART_2 : string := "of12_template_explicit_output".
Definition SOLVER : string := "kissat4.0.1".
Definition version : string := "0.0.2".

(** The file system: names to lines. *)
Abbreviation files := (gmap string (list string)).

(** ** CandidateGenerator: [rand_seq8] (lines 80-95) *)

Section CandidateGenerator.

Context {rng_t : Type}.

(** [dist(rng)] for [uniform_int_distribution<int> dist(0, 1)]: the drawn
    [int] and the advanced generator. *)
Variable dist : rng_t -> Z * rng_t.

(** The [for] loop of lines 85-90: [n] draws left, each printed to
    [sstream8] and its inverse appended to [inverse_bools_str]. *)
Fixpoint draw_bits (n : nat) (rng : rng_t) (sstream8 inverse_bools_str : string)
  : outcome (string * string * rng_t) :=
  match n with
  | O => Ret (sstream8, inverse_bools_str, rng)
  | S n' =>
      let (rand, rng) := dist rng in
      _ ← assert ((rand =? 1) || (rand =? 0));
      draw_bits n' rng
        (sstream8 +:+ int_to_string rand)
        (inverse_bools_str +:+ (if rand =? 1 then "0" else "1"))
  end.

(** The [do ... while (sstream8.str().size() < SEQ_LEN)] loop. *)
Fixpoint rand_seq8_loop (fuel : nat) (rng : rng_t) (sstream8 : string)
  : outcome (string * rng_t) :=
  match fuel with
  | O => Fail OutOfFuel
  | S fuel' =>
      '(sstream8, inverse_bools_str, rng) ← draw_bits SUBSEQ_LEN_1 rng sstream8 "";
      let sstream8 := sstream8 +:+ inverse_bools_str in
      if (String.length sstream8 <? SEQ_LEN)%nat
      then rand_seq8_loop fuel' rng sstream8
      else Ret (sstream8, rng)
  end.

Definition rand_seq8 (rng : rng_t) : outcome (string * rng_t) :=
  '(s, rng) ← rand_seq8_loop SEQ_LEN rng "";
  _ ← assert (String.length s =? SEQ_LEN)%nat;
  Ret (s, rng).

Definition gen_rand_output (rng : rng_t) : outcome (string * rng_t) :=
  rand_seq8 rng.

End CandidateGenerator.

(** A toy generator for examples: the state is a counter, the draw its parity. *)
Definition parity_dist (n : Z) : Z * Z := (n mod 2, n + 1).

(** ** OracleClient: [read_solver_result] (lines 102-122) *)

(** The [while (getline(ifile, str))] loop; [res] starts as [INTERR]. *)
Fixpoint scan_result (lines : list string) : result :=
  match lines with
  | [] => INTERR
  | str :: lines' =>
      match str_find "s SATISFIABLE" str with
      | Some _ => SAT
      | None =>
          match str_find "s UNSATISFIABLE" str with
          | Some _ => UNSAT
          | None => scan_result lines'
          end
      end
  end.

Definition not_opened (fname : string) : string :=
  "solver result file " +:+ fname +:+ " wasn't opened" +:+ newline.

Definition read_solver_result (fname : string) (fs : files) : outcome result :=
  match fs !! fname with
  | None => Fail (Exited EXIT_FAILURE (not_opened fname))
  | Some lines => Ret (scan_result lines)
  end.

(** ** InstanceMaterializer: [gen_rand_cnf] (lines 124-166) *)

(** Lines 136-141: three [>> word], then [istringstream(word) >> var_num]. *)
Definition parse_p_line (str : string) : Z :=
  let '(stream, word) := extract_word str "" in
  let '(stream, word) := extract_word stream word in
  let '(_, word) := extract_word stream word in
  extract_unsigned word.

(** The [while (getline(ifile, str))] loop of lines 133-146. *)
Fixpoint read_template (lines : list string) (var_num : Z) (base_clauses : list string)
  : Z * list string :=
  match lines with
  | [] => (var_num, base_clauses)
  | str :: lines' =>
      if Ascii.eqb (first_char str) "c" then read_template lines' var_num base_clauses
      else if Ascii.eqb (first_char str) "p" then
        read_template lines' (parse_p_line str) base_clauses
      else read_template lines' var_num (base_clauses ++ [str])
  end.

Definition template_name (operat_num : Z) : string :=
  CNF_NAME_PART_1 +:+ to_string operat_num +:+ CNF_NAME_PART_2 +:+ ".cnf".

Definition rand_cnf_name (operat_num seed : Z) : string :=
  CNF_NAME_PART_1 +:+ to_string operat_num +:+ CNF_NAME_PART_2
    +:+ "_hashlen512_seed" +:+ to_string seed +:+ ".cnf".

(** The [for] loop of lines 159-162, at index [i] with [rest] still to
    write; [size] is [rand_output.size()].  The index expression is
    evaluated in [size_t].  The counter [i] is an [unsigned]: the loop is
    the one of the program for a string shorter than 2^32. *)
Fixpoint unit_clauses (var_num size i : Z) (rest : string) : list string :=
  match rest with
  | EmptyString => []
  | String c rest' =>
      ((if Ascii.eqb c "0" then "-" else "")
         +:+ to_string (wrap64 (var_num - size + 1 + i)) +:+ " 0")
        :: unit_clauses var_num size (i + 1) rest'
  end.

(** A template that cannot be opened reads as no line at all.  The two
    sizes added for the header are sizes of objects in memory, whose sum is
    below 2^64. *)
Definition gen_rand_cnf (rand_output : string) (operat_num seed : Z) (fs : files)
  : outcome (string * files) :=
  let cnf_name := template_name operat_num in
  let '(var_num, base_clauses) := read_template (default [] (fs !! cnf_name)) 0 [] in
  _ ← assert (0 <? var_num);
  _ ← assert (0 <? length base_clauses)%nat;
  let size := Z.of_nat (String.length rand_output) in
  let header :=
    "p cnf " +:+ to_string var_num +:+ " "
      +:+ to_string (Z.of_nat (length base_clauses) + size) in
  let name := rand_cnf_name operat_num seed in
  Ret (name,
       <[name := header :: base_clauses ++ unit_clauses var_num size 0 rand_output]> fs).

(** ** The solver call: [solve_cnf] (lines 170-185) and the clock *)

(** What the program sees of the outside: the files, and
    [chrono::system_clock::now()] in nanoseconds. *)
Record world : Type := World { w_files : files; w_now : Z }.

Section Solver.

(** [exec(cmd)]: the shell runs [cmd] while the clock moves. *)
Variable exec : string -> world -> world.

(** The fourth parameter of [solve_cnf], [cur_total_runtime], is not used
    by it and is left out. *)
Definition solve_cnf (cnf_name : string) (operat_num seed : Z) (w : world)
  : outcome (result * world) :=
  _ ← assert ((3 <=? operat_num) && (operat_num <=? 7));
  let time_lim := nth (Z.to_nat (operat_num - 3)) MAX_LIMITS_SEC 0 in
  _ ← assert (0 <? time_lim);
  let out_fname := "log_solver_seed" +:+ to_string seed in
  let system_str :=
    SOLVER +:+ " --time=" +:+ to_string time_lim +:+ " ./" +:+ cnf_name
      +:+ " > " +:+ out_fname in
  let w := exec system_str w in
  res ← read_solver_result out_fname (w_files w);
  Ret (res, w).

(** Lines 252-255 of [main]: the instance is written, the solver runs, and
    [duration_cast<milliseconds>(end_time - start_time).count()] is taken. *)
Definition stage_on_world (seed : Z) (rand_output : string) (operat_num : Z) (w : world)
  : outcome (result * Z * world) :=
  '(cnf_name, fs) ← gen_rand_cnf rand_output operat_num seed (w_files w);
  let w := World fs (w_now w) in
  let start_time := w_now w in
  '(res, w) ← solve_cnf cnf_name operat_num seed w;
  Ret (res, Z.quot (w_now w - start_time) 1000000, w).

End Solver.

(** [elapsed_time_sec], from the millisecond count: the count is stored in
    an [unsigned], and the quotient [(double)time_millisec / (double)1000]
    is returned. *)
Definition elapsed_time_sec (count : Z) : double :=
  let time_millisec := wrap32 count in
  double_div (double_of_Z time_millisec) (double_of_Z 1000).

(** ** The command line of [main] (lines 201-219) *)

Definition print_usage : string :=
  "Usage : find_weak_outputs_skein cpunum" +:+ newline
    +:+ "  cpunum : CPU cores" +:+ newline.

Definition print_version : string := "version: " +:+ version +:+ newline.

(** What [main] does with its arguments: it exits with a status after
    printing [out], it is terminated abnormally, or it gets past the
    assertion of line 219 with [cpu_num] and goes on to line 220.  What
    OpenMP then does with [cpu_num] is not part of this. *)
Inductive startup : Type :=
| Exits (status : Z) (out : string)
| Terminated
| Proceeds (cpu_num : Z).

Definition main_args (argv : list string) : startup :=
  let argc := length argv in
  let arg1 := default "" (argv !! 1%nat) in
  if (argc =? 2)%nat && String.eqb arg1 "-h" then Exits EXIT_SUCCESS print_usage
  else if (argc =? 2)%nat && String.eqb arg1 "-v" then Exits EXIT_SUCCESS print_version
  else if (argc <? 2)%nat then Exits EXIT_FAILURE print_usage
  else match stoi arg1 with
       | None => Terminated
       | Some n =>
           let cpu_num := wrap32 n in
           if 0 <? cpu_num then Proceeds cpu_num else Terminated
       end.

(** ** SearchCoordinator: the loops of [main] (lines 222-291) *)

(** Which [break] left the stage loop. *)
Inductive stop_reason : Type :=
| Pruned          (* line 250 *)
| Inconclusive    (* line 259 *)
| TooManyUnsat.   (* line 269 *)

Inductive ending : Type :=
| Completed                                      (* the loop ran to [operat_num > 7] *)
| Abandoned (why : stop_reason) (operat_num : Z) (* [is_break] is set *)
| Crashed (f : failure) (operat_num : Z).        (* the process ended inside the stage *)

(** One pass over lines 252-256: the stage whose instance was written and
    solved, the verdict, and the measured run time. *)
Record stage_run : Type :=
  StageRun { sr_operat_num : Z; sr_res : result; sr_runtime : double }.

(** Line 245: [min > 0 and cur >= min]. *)
Definition prune_check (min_total_solving_runtime cur_total_runtime : double) : bool :=
  double_ltb (double_of_Z 0) min_total_solving_runtime
    && double_leb min_total_solving_runtime cur_total_runtime.

(** Line 282: [min < 0 or cur < min]. *)
Definition improves (min_total_solving_runtime cur_total_runtime : double) : bool :=
  double_ltb min_total_solving_runtime (double_of_Z 0)
    || double_ltb cur_total_runtime min_total_solving_runtime.

Definition is_unsat (res : result) : bool :=
  match res with UNSAT => true | _ => false end.

Section SearchCoordinator.

(** [S] is the state of everything outside the worker (files, clock,
    solver); [rng_t] the state of its [mt19937]. *)
Context {S rng_t : Type}.

(** Lines 252-255 for one stage of one candidate: the verdict and the
    millisecond count, or the failure that ends the process. *)
Variable run_stage : string -> Z -> S -> outcome (result * Z * S).

Variable dist : rng_t -> Z * rng_t.

(** The variables of one candidate's evaluation, with the stages run so far. *)
Record locals : Type := Locals {
  cur_total_runtime : double;
  unsat_inst : Z;
  ran : list stage_run;
  outside : S
}.

Inductive config : Type :=
| AtStage (operat_num : Z) (l : locals)   (* at the loop test of line 243 *)
| Stopped (e : ending) (l : locals).      (* past the loop *)

Section Candidate.

(** [min_at n]: the value of the shared [min_total_solving_runtime] read
    by the test of line 245 at stage [n]. *)
Variable min_at : Z -> double.
Variable rand_output : string.

(** One turn of the [for] loop of lines 243-275. *)
Definition step (c : config) : config :=
  match c with
  | Stopped _ _ => c
  | AtStage operat_num l =>
      if negb (operat_num <=? 7) then Stopped Completed l
      else if prune_check (min_at operat_num) (cur_total_runtime l)
      then Stopped (Abandoned Pruned operat_num) l
      else
        match run_stage rand_output operat_num (outside l) with
        | Fail f => Stopped (Crashed f operat_num) l
        | Ret (res, count, s) =>
            let runtime := elapsed_time_sec count in
            let cur := double_add (cur_total_runtime l) runtime in
            let ran := ran l ++ [StageRun operat_num res runtime] in
            match res with
            | INTERR =>
                Stopped (Abandoned Inconclusive operat_num)
                  (Locals cur (unsat_inst l) ran s)
            | _ =>
                let unsat :=
                  if is_unsat res then wrap32 (unsat_inst l + 1) else unsat_inst l in
                if MAX_UNSAT_INST <? unsat
                then Stopped (Abandoned TooManyUnsat operat_num) (Locals cur unsat ran s)
                else AtStage (wrap32 (operat_num + 1)) (Locals cur unsat ran s)
            end
        end
  end.

(** Lines 239-242: the state on entry to the loop. *)
Definition start (s : S) : config := AtStage 3 (Locals (double_of_Z 0) 0 [] s).

(** The loop test is passed at most six times. *)
Definition evaluate (s : S) : config := Nat.iter 6 step (start s).

(** The configurations an evaluation goes through. *)
Definition reaches (s : S) (c : config) : Prop :=
  exists k : nat, Nat.iter k step (start s) = c.

End Candidate.

(** The variables of a worker that outlive a candidate, and the variable
    of line 222, which a pool of one worker leaves to that worker;
    [discoveries] are the lines 284-285 it has printed, latest first. *)
Record worker : Type := Worker {
  min_total_solving_runtime : double;
  checked_outputs : Z;
  rng : rng_t;
  surroundings : S;
  discoveries : list (string * double)
}.

(** What one turn of the [for (;;)] loop did. *)
Record report : Type := Report {
  candidate : string;
  bound_before : double;
  how : ending;
  final : locals;
  bound_after : double
}.

(** One turn of the [for (;;)] loop (lines 238-290) in a pool of one
    worker: no one else writes the bound, so every read of it during the
    turn gives the value the worker has left there. *)
Definition candidate_turn (w : worker) : outcome (worker * report) :=
  let checked := wrap32 (checked_outputs w + 1) in
  '(rand_output, rng) ← gen_rand_output dist (rng w);
  let bound := min_total_solving_runtime w in
  match evaluate (fun _ => bound) rand_output (surroundings w) with
  | AtStage _ _ => Fail OutOfFuel
  | Stopped (Crashed f _) _ => Fail f
  | Stopped (Abandoned why n) l =>
      Ret (Worker bound checked rng (outside l) (discoveries w),
           Report rand_output bound (Abandoned why n) l bound)
  | Stopped Completed l =>
      if improves bound (cur_total_runtime l)
      then
        let bound' := cur_total_runtime l in
        Ret (Worker bound' checked rng (outside l)
               ((rand_output, bound') :: discoveries w),
             Report rand_output bound Completed l bound')
      else
        Ret (Worker bound checked rng (outside l) (discoveries w),
             Report rand_output bound Completed l bound)
  end.

(** The first [k] turns of the [for (;;)] loop; a failure ends the process. *)
Fixpoint worker_loop (k : nat) (w : worker) : list report :=
  match k with
  | O => []
  | Datatypes.S k' =>
      match candidate_turn w with
      | Ret (w', r) => r :: worker_loop k' w'
      | Fail _ => []
      end
  end.

(** Lines 222-236: the worker with seed [i], [seeded] being its generator
    after [rng.seed(i)]. *)
Definition start_worker (seeded : rng_t) (s : S) : worker :=
  Worker (double_of_Z (-1)) 0 seeded s [].

End SearchCoordinator.

Arguments locals : clear implicits.
Arguments config : clear implicits.
Arguments worker : clear implicits.
Arguments report : clear implicits.

(** Toy surroundings for examples: nothing outside, and every stage of every
    candidate gets the verdict [res] after [count] milliseconds. *)
Definition constant_oracle (res : result) (count : Z)
  : string -> Z -> unit -> outcome (result * Z * unit) :=
  fun _ _ _ => Ret (res, count, tt).

(** Toy surroundings with run times that differ: what is outside is the
    list of the millisecond counts still to come, each stage is
    Satisfiable and takes the next one. *)
Definition scripted_oracle : string -> Z -> list Z -> outcome (result * Z * list Z) :=
  fun _ _ counts => Ret (SAT, hd 0 counts, tl counts).

(** ** The shell: [exec] (lines 62-78) *)

(** A [char] array read as a C string: the characters before the first NUL. *)
Fixpoint c_str (s : string) : string :=
  match s with
  | EmptyString => EmptyString
  | String c s' => if Ascii.eqb c zero then EmptyString else String c (c_str s')
  end.

(** [fgets(buffer, n + 1, pipe)] on a pipe that still holds [pipe]: the
    characters stored (at most [n], up to and including the first newline),
    what is left in the pipe, and whether the end of the pipe was hit.
    Nothing stored is the result NULL. *)
Fixpoint fgets (n : nat) (pipe : string) : string * string * bool :=
  match n with
  | O => (EmptyString, pipe, false)
  | Datatypes.S n' =>
      match pipe with
      | EmptyString => (EmptyString, EmptyString, true)
      | String c pipe' =>
          if Ascii.eqb c (ascii_of_nat 10) then (String c EmptyString, pipe', false)
          else let '(buffer, rest, eof) := fgets n' pipe' in (String c buffer, rest, eof)
      end
  end.

(** The loop of lines 72-75; [feof] is the end-of-file indicator of the
    pipe, which [fgets] sets, and [result += buffer] appends the buffer as
    a C string. *)
Fixpoint exec_loop (fuel : nat) (pipe : string) (feof : bool) (result : string)
  : outcome string :=
  if feof then Ret result
  else match fuel with
       | O => Fail OutOfFuel
       | Datatypes.S fuel' =>
           let '(buffer, pipe, feof) := fgets 127 pipe in
           exec_loop fuel' pipe feof
             (match buffer with
              | EmptyString => result
              | _ => result +:+ c_str buffer
              end)
       end.

(** [exec], as a function of the pipe: [popen cmd] is what the command
    [cmd] writes to its standard output, [None] when the pipe cannot be
    opened; reads from the pipe do not fail.  What running the command
    does to the files and the clock is the variable [exec] of the section
    [Solver]. *)
Definition exec (popen : string -> option string) (cmd_str : string)
  : outcome string :=
  match popen (c_str cmd_str) with
  | None => Ret "ERROR"
  | Some pipe => exec_loop (Datatypes.S (String.length pipe)) pipe false ""
  end.

(** ** Output files: [write_to_output] (lines 193-199) *)

(** The output files, each the text written to it; [ios_base::out]
    truncates the file, [ios_base::app] appends to it and creates it when
    it is missing. *)
Definition write_to_output (output_fname str : string) (is_first : bool)
  (out : gmap string string) : gmap string string :=
  if is_first then <[output_fname := str]> out
  else <[output_fname := default "" (out !! output_fname) +:+ str]> out.

(** ** Several workers: the shared bound (lines 222-223 and 282-285) *)

(** The workers of the OpenMP loop read and write one variable,
    [min_total_solving_runtime], with no lock.  Where a worker stands in
    lines 282-285 once its candidate has completed in [cur], one access to
    the variable at a time and in the order of the program: the read for
    [min < 0], the read for [cur < min] (not made when the first test
    holds), the write of line 283, the read for the message of line 285.
    [Past printed] is a worker past these lines, with the value its
    message has shown. *)
Inductive update_pc : Type :=
| L282_first (cur : double)
| L282_second (cur : double)
| L283 (cur : double)
| L285 (cur : double)
| Past (printed : option double).

(** One access: the shared variable and the worker after it. *)
Definition update_step (shared : double) (pc : update_pc) : double * update_pc :=
  match pc with
  | L282_first cur =>
      (shared, if double_ltb shared (double_of_Z 0) then L283 cur else L282_second cur)
  | L282_second cur => (shared, if double_ltb cur shared then L283 cur else Past None)
  | L283 cur => (cur, L285 cur)
  | L285 cur => (shared, Past (Some shared))
  | Past printed => (shared, Past printed)
  end.

(** The accesses of several workers in the order [schedule] gives: each
    entry names the worker that makes the next access. *)
Fixpoint interleave (schedule : list nat) (shared : double) (workers : list update_pc)
  : double * list update_pc :=
  match schedule with
  | [] => (shared, workers)
  | i :: schedule' =>
      match workers !! i with
      | Some pc =>
          let (shared', pc') := update_step shared pc in
          interleave schedule' shared' (<[i := pc']> workers)
      | None => interleave schedule' shared workers
      end
  end.

(** ** The shell and the files together *)

(** [popen cmd w] for a shell that acts on the world: what the command
    writes to its standard output, [None] when the pipe cannot be opened,
    and the world afterwards.  What [exec] then does to the world, as
    [solve_cnf] needs it. *)
Definition exec_on (popen : string -> world -> option string * world)
  (cmd_str : string) (w : world) : world :=
  (popen (c_str cmd_str) w).2.

(** * Vocabulary of the properties *)

(** ** Doubles *)

(** [x] carries the sign [s]: no rounding changes a sign. *)
Definition signed (s : bool) (x : double) : Prop :=
  match x with
  | S754_zero s' | S754_infinity s' | S754_finite s' _ _ => s' = s
  | S754_nan => False
  end.

(** ** Verdict lines *)

(** [line] holds [pat] somewhere. *)
Definition contains (pat line : string) : Prop :=
  exists before after : string, line = before +:+ pat +:+ after.

Definition has_verdict (line : string) : Prop :=
  contains "s SATISFIABLE" line \/ contains "s UNSATISFIABLE" line.

(** ** Candidates *)

Definition flip_bit (c : ascii) : ascii :=
  if Ascii.eqb c "1" then "0"%char else "1"%char.

(** The bitwise complement of a bit string. *)
Fixpoint complement (s : string) : string :=
  match s with
  | EmptyString => EmptyString
  | String c s' => String (flip_bit c) (complement s')
  end.

Fixpoint all_bits (s : string) : Prop :=
  match s with
  | EmptyString => True
  | String c s' => (c = "0"%char \/ c = "1"%char) /\ all_bits s'
  end.

(** A 16-bit block: eight bits, then their complement. *)
Definition regular_block (b : string) : Prop :=
  exists h : string, String.length h = 8%nat /\ all_bits h /\ b = h +:+ complement h.

Fixpoint concat_blocks (blocks : list string) : string :=
  match blocks with
  | [] => EmptyString
  | b :: blocks' => b +:+ concat_blocks blocks'
  end.

(** [s] is [n] regular blocks one after the other. *)
Definition made_of_blocks (n : nat) (s : string) : Prop :=
  exists blocks : list string,
    length blocks = n /\ Forall regular_block blocks /\ s = concat_blocks blocks.

(** The characters of [n] successive draws, and the generator after them. *)
Fixpoint drawn_bits {rng_t : Type} (dist : rng_t -> Z * rng_t) (n : nat) (rng : rng_t)
  : string * rng_t :=
  match n with
  | O => (EmptyString, rng)
  | Datatypes.S n' =>
      let (rand, rng) := dist rng in
      let (h, rng) := drawn_bits dist n' rng in
      (String (if rand =? 1 then "1"%char else "0"%char) h, rng)
  end.

(** [m] blocks drawn one after the other: eight draws and their complement. *)
Fixpoint drawn_blocks {rng_t : Type} (dist : rng_t -> Z * rng_t) (m : nat) (rng : rng_t)
  : list string * rng_t :=
  match m with
  | O => ([], rng)
  | Datatypes.S m' =>
      let (h, rng) := drawn_bits dist 8 rng in
      let (blocks, rng) := drawn_blocks dist m' rng in
      ((h +:+ complement h) :: blocks, rng)
  end.

(** ** Templates and instances *)

(** The template of stage [operat_num] as [gen_rand_cnf] reads it: the
    declared variable count and the clause lines. *)
Definition template (fs : files) (operat_num : Z) : Z * list string :=
  read_template (default [] (fs !! template_name operat_num)) 0 [].

Definition declared_variables (fs : files) (operat_num : Z) : Z :=
  (template fs operat_num).1.

Definition template_clauses (fs : files) (operat_num : Z) : list string :=
  (template fs operat_num).2.

Definition header_line (variables clauses : Z) : string :=
  "p cnf " +:+ int_to_string variables +:+ " " +:+ int_to_string clauses.

(** The unit clause that pins [variable] to [bit]: negated iff the bit is 0. *)
Definition unit_clause (bit : ascii) (variable : Z) : string :=
  (if Ascii.eqb bit "0" then "-" else "") +:+ int_to_string variable +:+ " 0".

(** C1's description of the instance for variable count [V], template
    clauses [clauses] and candidate [bits]: the header, the template's
    clauses in order, then one unit clause per bit on the variables
    [V - 511], [V - 510], ... *)
Definition instance_as_described
  (V : Z) (clauses : list string) (bits : string) (instance : list string) : Prop :=
  instance !! 0%nat = Some (header_line V (Z.of_nat (length clauses) + 512))
  /\ length instance = (1 + length clauses + 512)%nat
  /\ (forall j : nat, (j < length clauses)%nat -> instance !! (1 + j)%nat = clauses !! j)
  /\ (forall (i : nat) (bit : ascii),
        String.get i bits = Some bit ->
        instance !! (1 + length clauses + i)%nat
        = Some (unit_clause bit (V - 511 + Z.of_nat i))).

(** [gen_rand_cnf] returns, having written an instance as C1 describes it. *)
Definition materialized (fs : files) (rand_output : string) (operat_num seed : Z) : Prop :=
  exists instance : list string,
    gen_rand_cnf rand_output operat_num seed fs
    = Ret (rand_cnf_name operat_num seed,
           <[rand_cnf_name operat_num seed := instance]> fs)
    /\ instance_as_described (declared_variables fs operat_num)
         (template_clauses fs operat_num) rand_output instance.

(** The scenario of C8 for stage 3, with [five] the first five unit clauses. *)
Definition scenario (five : list string) (fs : files) (rand_output : string) (seed : Z)
  : Prop :=
  exists instance : list string,
    gen_rand_cnf rand_output 3 seed fs
    = Ret (rand_cnf_name 3 seed, <[rand_cnf_name 3 seed := instance]> fs)
    /\ instance !! 0%nat = Some "p cnf 600 562"
    /\ take 50 (drop 1 instance) = template_clauses fs 3
    /\ take 5 (drop 51 instance) = five
    /\ length instance = 563%nat
    /\ (forall (i : nat) (bit : ascii),
          String.get i rand_output = Some bit ->
          instance !! (51 + i)%nat = Some (unit_clause bit (89 + Z.of_nat i))).

(** ** Command lines *)

(** A worker count as the usage text asks for it: the decimal numeral of a
    positive integer. *)
Definition positive_numeral (arg : string) : bool :=
  negb (String.eqb arg "")
    && forallb isdigit (list_ascii_of_string arg)
    && (0 <? read_digits_from arg 0).

(** C9's last part, for a command line with one argument: an argument that
    is no worker count gets the usage text and the failure status. *)
Definition rejects_with_usage (argv : list string) : Prop :=
  forall prog arg : string,
    argv = [prog; arg] -> arg <> "-h" -> arg <> "-v" ->
    positive_numeral arg = false ->
    main_args argv = Exits EXIT_FAILURE print_usage.

(** ** Evaluations *)

(** The stages in the order of the loop. *)
Definition stages : list Z := [3; 4; 5; 6; 7].

(** The stages an evaluation has run. *)
Definition stages_run {S : Type} (l : locals S) : list Z := map sr_operat_num (ran l).

(** The number of Unsatisfiable verdicts among stage runs. *)
Fixpoint count_unsat (runs : list stage_run) : Z :=
  match runs with
  | [] => 0
  | r :: runs' => (if is_unsat (sr_res r) then 1 else 0) + count_unsat runs'
  end.

(** The run times of stage runs, added up as line 256 adds them: one
    after the other onto 0, each sum rounded. *)
Definition total_runtime (runs : list stage_run) : double :=
  fold_left double_add (map sr_runtime runs) (double_of_Z 0).

Definition strict_prefix (a b : list Z) : Prop :=
  exists rest : list Z, rest <> [] /\ b = a ++ rest.

(** The bound is unset while it is negative (it starts as -1, and line 282
    tests [min_total_solving_runtime < 0]). *)
Definition bound_set (b : double) : Prop := (double_of_Z 0 <= b)%D.

(** C2, with [applies b] saying when a bound [b] counts: whenever the
    evaluation is at the entry of a stage [n] with a bound that counts and
    is at most the cumulative run time, it ends there as pruned, and the
    stages it ran are a strict prefix of the stages; the cumulative run
    time is the sum of their run times as line 256 has rounded it. *)
Definition prunes_when (applies : double -> Prop) {S : Type}
  (run_stage : string -> Z -> S -> outcome (result * Z * S))
  (min_at : Z -> double) (rand_output : string) (s : S) : Prop :=
  forall (n : Z) (l : locals S),
    reaches run_stage min_at rand_output s (AtStage n l) ->
    3 <= n <= 7 ->
    applies (min_at n) ->
    (min_at n <= cur_total_runtime l)%D ->
    evaluate run_stage min_at rand_output s = Stopped (Abandoned Pruned n) l
    /\ stages_run l = seqZ 3 (n - 3)
    /\ strict_prefix (stages_run l) stages
    /\ cur_total_runtime l = total_runtime (ran l).

Definition ran_of {S : Type} (c : config S) : list stage_run :=
  match c with
  | AtStage _ l => ran l
  | Stopped _ l => ran l
  end.

(** [l] after one more stage run, on top of [l0]. *)
Definition after_stage {S : Type} (l0 : locals S) (n : Z) (res : result) (count : Z)
  (unsat : Z) (s : S) : locals S :=
  Locals (double_add (cur_total_runtime l0) (elapsed_time_sec count)) unsat
    (ran l0 ++ [StageRun n res (elapsed_time_sec count)]) s.

(** What holds of an evaluation's variables whenever it is at the loop test
    with [operat_num = n]: the stages 3 to [n - 1] have run, in order, none
    was inconclusive, and [unsat_inst] counts their Unsatisfiable verdicts. *)
Definition tidy {S : Type} (n : Z) (l : locals S) : Prop :=
  n = 3 + Z.of_nat (length (ran l))
  /\ (length (ran l) <= 5)%nat
  /\ stages_run l = seqZ 3 (Z.of_nat (length (ran l)))
  /\ unsat_inst l = count_unsat (ran l)
  /\ unsat_inst l <= 3
  /\ Forall (fun r => sr_res r <> INTERR) (ran l)
  /\ (double_of_Z 0 <= cur_total_runtime l)%D
  /\ cur_total_runtime l = total_runtime (ran l).

(** What holds past the loop, by the way it was left. *)
Definition settled {S : Type}
  (run_stage : string -> Z -> S -> outcome (result * Z * S))
  (min_at : Z -> double) (rand_output : string) (e : ending) (l : locals S) : Prop :=
  match e with
  | Completed => tidy 8 l
  | Abandoned Pruned n =>
      tidy n l /\ n <= 7 /\ prune_check (min_at n) (cur_total_runtime l) = true
  | Abandoned Inconclusive n =>
      exists (l0 : locals S) (count : Z) (s : S),
        tidy n l0 /\ n <= 7
        /\ run_stage rand_output n (outside l0) = Ret (INTERR, count, s)
        /\ l = after_stage l0 n INTERR count (unsat_inst l0) s
  | Abandoned TooManyUnsat n =>
      exists (l0 : locals S) (count : Z) (s : S),
        tidy n l0 /\ n <= 7
        /\ run_stage rand_output n (outside l0) = Ret (UNSAT, count, s)
        /\ unsat_inst l0 = 3
        /\ l = after_stage l0 n UNSAT count 4 s
  | Crashed f n =>
      tidy n l /\ n <= 7 /\ run_stage rand_output n (outside l) = Fail f
  end.

Definition invariant {S : Type}
  (run_stage : string -> Z -> S -> outcome (result * Z * S))
  (min_at : Z -> double) (rand_output : string) (c : config S) : Prop :=
  match c with
  | AtStage n l => tidy n l
  | Stopped e l => settled run_stage min_at rand_output e l
  end.

(** ** Sample data *)

(** Sample data: a regular candidate that starts with 10110100, and a file
    system holding a stage-3 template with [V] variables and [C] clauses. *)
Definition sample_tail : string :=
  "01001011" +:+ concat_blocks (replicate 31 "1011010001001011").

Definition sample_candidate : string := "10110100" +:+ sample_tail.

Definition sample_template (V : Z) (C : nat) : list string :=
  "c stage 3" :: ("p cnf " +:+ to_string V +:+ " " +:+ to_string (Z.of_nat C))
    :: replicate C "1 -2 3 0".

Definition sample_files (V : Z) (C : nat) : files :=
  {[ template_name 3 := sample_template V C ]}.

(** A file system with a template for each stage. *)
Definition all_templates : files :=
  list_to_map (map (fun n => (template_name n, sample_template 600 50)) stages).

(** Logs as kissat leaves them. *)
Definition unsat_log : list string :=
  ["c ---- [ result ] ----"; "c"; "s UNSATISFIABLE"; "c"; "c exit 20"].

Definition sat_log : list string :=
  ["c ---- [ result ] ----"; "c"; "s SATISFIABLE"; "v 1 -2 3 0"; "c exit 10"].


(** The file a command line redirects its output to. *)
Definition redirect_target (cmd : string) : string :=
  match str_find " > " cmd with
  | Some p => substring (p + 3) (String.length cmd) cmd
  | None => ""
  end.

(** A stand-in for the solver: it leaves [log] in the redirect target and
    takes [ns] nanoseconds. *)
Definition toy_solver (log : list string) (ns : Z) (cmd : string) (w : world) : world :=
  World (<[redirect_target cmd := log]> (w_files w)) (w_now w + ns).

(** The variables of an evaluation after stages 3, 4 and 5 were satisfiable
    in 7 ms each. *)
Definition three_sat_stages : locals unit :=
  after_stage
    (after_stage (after_stage (Locals (double_of_Z 0) 0 [] tt) 3 SAT 7 0 tt) 4 SAT 7 0 tt)
    5 SAT 7 0 tt.

(** ** Numerals and file names *)

(** The value of a decimal numeral read after the digits worth [acc]. *)
Fixpoint uint_val (d : Decimal.uint) (acc : Z) : Z :=
  match d with
  | Decimal.Nil => acc
  | Decimal.D0 d => uint_val d (10 * acc + 0)
  | Decimal.D1 d => uint_val d (10 * acc + 1)
  | Decimal.D2 d => uint_val d (10 * acc + 2)
  | Decimal.D3 d => uint_val d (10 * acc + 3)
  | Decimal.D4 d => uint_val d (10 * acc + 4)
  | Decimal.D5 d => uint_val d (10 * acc + 5)
  | Decimal.D6 d => uint_val d (10 * acc + 6)
  | Decimal.D7 d => uint_val d (10 * acc + 7)
  | Decimal.D8 d => uint_val d (10 * acc + 8)
  | Decimal.D9 d => uint_val d (10 * acc + 9)
  end.

Definition all_digits (s : string) : bool := forallb isdigit (list_ascii_of_string s).

(** Lines 179-180: the solver log of the worker with seed [seed]. *)
Definition log_name (seed : Z) : string := "log_solver_seed" +:+ to_string seed.

(** Lines 227-229: the output file of the worker with seed [i]. *)
Definition output_fname (i : Z) : string := "out_seed" +:+ to_string i.

(** ** Template lines *)

(** A line that [gen_rand_cnf] keeps as a clause: it starts with neither c
    nor p.  The empty line is one ([str[0]] is then the terminating NUL). *)
Definition is_clause_line (str : string) : bool :=
  negb (Ascii.eqb (first_char str) "c") && negb (Ascii.eqb (first_char str) "p").

Definition is_p_line (str : string) : bool :=
  negb (Ascii.eqb (first_char str) "c") && Ascii.eqb (first_char str) "p".

(** ** Solver calls *)

(** Line 176: the time limit of stage [operat_num]. *)
Definition time_limit (operat_num : Z) : Z :=
  nth (Z.to_nat (operat_num - 3)) MAX_LIMITS_SEC 0.

(** Line 181: the command line handed to [exec]. *)
Definition solver_command (operat_num : Z) (cnf_name : string) (seed : Z) : string :=
  SOLVER +:+ " --time=" +:+ to_string (time_limit operat_num) +:+ " ./" +:+ cnf_name
    +:+ " > " +:+ log_name seed.

(** The templates of the five stages pass the assertions of [gen_rand_cnf]. *)
Definition templates_ready (fs : files) : Prop :=
  forall n : Z, 3 <= n <= 7 ->
    0 < declared_variables fs n /\ template_clauses fs n <> [].

(** What the program needs of the shell and the solver, for the worker
    with seed [seed]: each of its command lines leaves a log of that
    worker's name and leaves the templates alone. *)
Definition solver_behaves (exec : string -> world -> world) (seed : Z) : Prop :=
  forall (operat_num : Z) (w : world),
    3 <= operat_num <= 7 ->
    let w' := exec (solver_command operat_num (rand_cnf_name operat_num seed) seed) w in
    is_Some (w_files w' !! log_name seed)
    /\ (forall n : Z, w_files w' !! template_name n = w_files w !! template_name n).

(** ** Solvers without a verdict *)



(** ** Stage 3 on files *)

(** C10's middle part, for a candidate on files: the evaluation has
    written the stage-3 instance and run the solver's command line on the
    files that hold it; its first stage run is stage 3, with the verdict
    read from the log the command has left and the time the command took;
    when there is no log, the process exits at stage 3 instead. *)
Definition solved_at_three (exec : string -> world -> world) (seed : Z)
  (min_at : Z -> double) (rand_output : string) (w : world) : Prop :=
  exists (instance : list string) (e : ending) (l : locals world),
    gen_rand_cnf rand_output 3 seed (w_files w)
    = Ret (rand_cnf_name 3 seed, <[rand_cnf_name 3 seed := instance]> (w_files w))
    /\ evaluate (stage_on_world exec seed) min_at rand_output w = Stopped e l
    /\ (let solved :=
          exec (solver_command 3 (rand_cnf_name 3 seed) seed)
            (World (<[rand_cnf_name 3 seed := instance]> (w_files w)) (w_now w)) in
        match w_files solved !! log_name seed with
        | Some lines =>
            exists later : list stage_run,
              ran l
              = StageRun 3 (scan_result lines)
                  (elapsed_time_sec (Z.quot (w_now solved - w_now w) 1000000))
                :: later
        | None => e = Crashed (Exited EXIT_FAILURE (not_opened (log_name seed))) 3
        end).

(** ** Runs without failure *)

(** No stage has ended the process, and [P] holds of what is outside. *)
Definition safe {S : Type} (P : S -> Prop) (c : config S) : Prop :=
  match c with
  | AtStage _ l => P (outside l)
  | Stopped (Crashed _ _) _ => False
  | Stopped _ l => P (outside l)
  end.
(** ** The worker over its turns *)

(** The worker after its first [k] turns. *)
Fixpoint worker_after {S rng_t : Type}
  (run_stage : string -> Z -> S -> outcome (result * Z * S)) (dist : rng_t -> Z * rng_t)
  (k : nat) (w : worker S rng_t) : outcome (worker S rng_t) :=
  match k with
  | O => Ret w
  | Datatypes.S k' =>
      '(w', _) ← candidate_turn run_stage dist w;
      worker_after run_stage dist k' w'
  end.

(** ** Bookkeeping of an evaluation *)

Definition locals_of {S : Type} (c : config S) : locals S :=
  match c with
  | AtStage _ l => l
  | Stopped _ l => l
  end.

(** The number of Satisfiable verdicts among stage runs. *)
Fixpoint count_sat (runs : list stage_run) : Z :=
  match runs with
  | [] => 0
  | r :: runs' => (match sr_res r with SAT => 1 | _ => 0 end) + count_sat runs'
  end.

(** The variables of an evaluation agree with the stages it has run: these
    are the stages from 3 on, at most five, [unsat_inst] is the number of
    their Unsatisfiable verdicts and [cur_total_runtime] the sum of their
    run times as line 256 rounds it. *)
Definition accounted {S : Type} (l : locals S) : Prop :=
  stages_run l = seqZ 3 (Z.of_nat (length (ran l)))
  /\ (length (ran l) <= 5)%nat
  /\ unsat_inst l = count_unsat (ran l)
  /\ 0 <= unsat_inst l <= 4
  /\ cur_total_runtime l = total_runtime (ran l)
  /\ (double_of_Z 0 <= cur_total_runtime l)%D.

(** ** Discoveries *)

(** Discoveries, latest first: each took strictly less time than the one
    before it, and no time is negative. *)
Fixpoint improving (ds : list (string * double)) : Prop :=
  match ds with
  | [] => True
  | d :: older =>
      (double_of_Z 0 <= d.2)%D
      /\ match older with
         | [] => True
         | d' :: _ => (d.2 < d'.2)%D
         end
      /\ improving older
  end.

(** The bound is the run time of the latest discovery, -1 without one. *)
Definition bound_of (ds : list (string * double)) : double :=
  match ds with
  | [] => double_of_Z (-1)
  | d :: _ => d.2
  end.

(** ** Draws *)

(** The next [n] draws of the generator are all 0 or 1. *)
Fixpoint draws_are_bits {rng_t : Type} (dist : rng_t -> Z * rng_t) (n : nat) (rng : rng_t)
  : bool :=
  match n with
  | O => true
  | Datatypes.S n' =>
      let (rand, rng) := dist rng in
      ((rand =? 1) || (rand =? 0)) && draws_are_bits dist n' rng
  end.

(** How often the character [c] occurs in [s]. *)
Fixpoint count_char (c : ascii) (s : string) : nat :=
  match s with
  | EmptyString => 0
  | String x s' => (if Ascii.eqb x c then 1 else 0) + count_char c s'
  end.

(** ** Pipes and output files *)

(** [s] holds no NUL character. *)
Definition nul_free (s : string) : Prop := c_str s = s.

(** Writes to one output file, one after the other. *)
Definition appended (output_fname : string) (strs : list string)
  (out : gmap string string) : gmap string string :=
  fold_left (fun out str => write_to_output output_fname str false out) strs out.

(** ** Two bounds *)

(** [c1] is where [c2] is, or has been pruned when [c2] had run no less. *)
Definition pruned_before {S : Type} (c1 c2 : config S) : Prop :=
  c1 = c2
  \/ exists (n : Z) (l : locals S),
       c1 = Stopped (Abandoned Pruned n) l /\ ran l `prefix_of` ran_of c2.

(** ** Several workers *)

(** The run times and shown values that [pc] holds. *)
Definition held (pc : update_pc) : list double :=
  match pc with
  | L282_first cur | L282_second cur | L283 cur | L285 cur => [cur]
  | Past (Some printed) => [printed]
  | Past None => []
  end.

(** The shared variable and everything the workers hold are among [values]. *)
Definition within (values : list double) (shared : double) (workers : list update_pc) : Prop :=
  shared ∈ values /\ forall pc, pc ∈ workers -> forall v, v ∈ held pc -> v ∈ values.


(** ** More sample data *)

(** A shell whose pipes cannot be opened; each attempt takes 1 ms. *)
Definition no_pipe : string -> world -> option string * world :=
  fun _ w => (None, World (w_files w) (w_now w + 1000000)).

(** A world with an Unsatisfiable log left by the worker with seed 7. *)
Definition stale_world : world := World {[ log_name 7 := unsat_log ]} 0.

(** * Properties *)

(** ** Strings *)

Lemma string_app_cons (x : ascii) (a b : string) :
  String x a +:+ b = String x (a +:+ b).
Proof. reflexivity. Qed.

Lemma string_app_nil_l (b : string) : "" +:+ b = b.
Proof. reflexivity. Qed.

Lemma string_app_assoc (a b c : string) : (a +:+ b) +:+ c = a +:+ b +:+ c.
Proof.
  induction a as [|x a IH]; [reflexivity|].
  rewrite !string_app_cons. f_equal. exact IH.
Qed.

Lemma string_app_nil_r (a : string) : a +:+ "" = a.
Proof.
  induction a as [|x a IH]; [reflexivity|].
  rewrite string_app_cons. f_equal. exact IH.
Qed.

Lemma string_length_app (a b : string) :
  String.length (a +:+ b) = (String.length a + String.length b)%nat.
Proof.
  induction a as [|x a IH]; [reflexivity|].
  rewrite string_app_cons. simpl. f_equal. exact IH.
Qed.

Lemma starts_with_iff (pat s : string) :
  starts_with pat s = true <-> exists after, s = pat +:+ after.
Proof.
  revert s. induction pat as [|a pat IH]; intros s; simpl.
  - split; [intros _; now exists s | reflexivity].
  - destruct s as [|b s].
    + split; [discriminate | intros [after H]; discriminate].
    + destruct (Ascii.eqb_spec a b) as [->|Hne].
      * rewrite IH. split; intros [after H]; exists after.
        -- rewrite string_app_cons. congruence.
        -- rewrite string_app_cons in H. congruence.
      * split; [discriminate | intros [after H]].
        rewrite string_app_cons in H. congruence.
Qed.

Lemma str_find_contains (pat s : string) :
  is_Some (str_find pat s) <-> contains pat s.
Proof.
  induction s as [|c s IH]; simpl.
  - destruct (starts_with pat "") eqn:E.
    + split; [intros _ | intros _; eauto].
      apply starts_with_iff in E as [after E]. now exists "", after.
    + split; [intros [? H]; discriminate |].
      intros (before & after & H). destruct before; [|discriminate].
      assert (starts_with pat "" = true) by (apply starts_with_iff; eauto).
      congruence.
  - destruct (starts_with pat (String c s)) eqn:E.
    + split; [intros _ | intros _; eauto].
      apply starts_with_iff in E as [after E]. now exists "", after.
    + rewrite fmap_is_Some, IH. split.
      * intros (before & after & ->). now exists (String c before), after.
      * intros (before & after & H). destruct before as [|x before].
        -- assert (starts_with pat (String c s) = true)
             by (apply starts_with_iff; eauto).
           congruence.
        -- exists before, after. rewrite string_app_cons in H. congruence.
Qed.

Lemma str_find_None (pat s : string) : str_find pat s = None <-> ~ contains pat s.
Proof. rewrite <- str_find_contains, <- eq_None_not_Some. reflexivity. Qed.

(** ** OracleClient *)

Lemma scan_result_no_verdict (lines : list string) :
  (forall line, line ∈ lines -> ~ has_verdict line) -> scan_result lines = INTERR.
Proof.
  induction lines as [|str lines IH]; intros H; simpl; [reflexivity|].
  assert (Hstr : ~ has_verdict str) by (apply H; left).
  destruct (str_find "s SATISFIABLE" str) eqn:E1.
  { exfalso. apply Hstr. left. apply str_find_contains. eauto. }
  destruct (str_find "s UNSATISFIABLE" str) eqn:E2.
  { exfalso. apply Hstr. right. apply str_find_contains. eauto. }
  apply IH. intros line Hin. apply H. now right.
Qed.

Lemma scan_result_skip (earlier rest : list string) :
  (forall line, line ∈ earlier -> ~ has_verdict line) ->
  scan_result (earlier ++ rest) = scan_result rest.
Proof.
  induction earlier as [|str earlier IH]; intros H; simpl; [reflexivity|].
  assert (Hstr : ~ has_verdict str) by (apply H; left).
  destruct (str_find "s SATISFIABLE" str) eqn:E1.
  { exfalso. apply Hstr. left. apply str_find_contains. eauto. }
  destruct (str_find "s UNSATISFIABLE" str) eqn:E2.
  { exfalso. apply Hstr. right. apply str_find_contains. eauto. }
  apply IH. intros line Hin. apply H. now right.
Qed.

(** C7.  [read_solver_result] exits with [EXIT_FAILURE] when the log cannot
    be opened.  Otherwise it returns: [INTERR] when no line holds a verdict
    marker; and the verdict of the first line that holds one, which is [SAT]
    when that line holds "s SATISFIABLE" and [UNSAT] when it holds only
    "s UNSATISFIABLE". *)
Theorem read_solver_result_first_verdict (fname : string) (fs : files) :
  (fs !! fname = None ->
   read_solver_result fname fs = Fail (Exited EXIT_FAILURE (not_opened fname))) /\
  (forall lines : list string,
     fs !! fname = Some lines ->
     ((forall line, line ∈ lines -> ~ has_verdict line) ->
      read_solver_result fname fs = Ret INTERR) /\
     (forall (earlier : list string) (line : string) (later : list string),
        lines = earlier ++ line :: later ->
        (forall l, l ∈ earlier -> ~ has_verdict l) ->
        (contains "s SATISFIABLE" line ->
         read_solver_result fname fs = Ret SAT) /\
        (~ contains "s SATISFIABLE" line -> contains "s UNSATISFIABLE" line ->
         read_solver_result fname fs = Ret UNSAT))).
Proof.
  unfold read_solver_result. split.
  - intros ->. reflexivity.
  - intros lines ->. split.
    + intros H. now rewrite scan_result_no_verdict.
    + intros earlier line later -> Hearlier.
      rewrite scan_result_skip by assumption. simpl. split.
      * intros Hsat. apply str_find_contains in Hsat as [n ->]. reflexivity.
      * intros Hsat Hunsat. apply str_find_None in Hsat as ->.
        apply str_find_contains in Hunsat as [n ->]. reflexivity.
Qed.

Lemma read_solver_result_first_verdict_witness :
  read_solver_result "log_solver_seed0" {[ "log_solver_seed0" := unsat_log ]}
  = Ret UNSAT.
Proof.
  pose proof (read_solver_result_first_verdict "log_solver_seed0"
                {[ "log_solver_seed0" := unsat_log ]}) as [_ H].
  destruct (H unsat_log eq_refl) as [_ H'].
  destruct (H' ["c ---- [ result ] ----"; "c"] "s UNSATISFIABLE" ["c"; "c exit 20"]
              eq_refl) as [_ Hunsat].
  - intros l Hl Hv.
    assert (Hnone : str_find "s SATISFIABLE" l = None /\ str_find "s UNSATISFIABLE" l = None).
    { apply elem_of_cons in Hl as [->|Hl]; [split; reflexivity|].
      apply elem_of_cons in Hl as [->|Hl]; [split; reflexivity|].
      inversion Hl. }
    destruct Hnone as [H1 H2]. apply str_find_None in H1, H2.
    destruct Hv; contradiction.
  - apply Hunsat.
    + apply str_find_None. reflexivity.
    + apply str_find_contains. eexists. reflexivity.
Defined.

(** ** CandidateGenerator *)

Lemma complement_length (h : string) : String.length (complement h) = String.length h.
Proof. induction h as [|c h IH]; simpl; [reflexivity | now rewrite IH]. Qed.

Lemma regular_block_length (b : string) : regular_block b -> String.length b = 16%nat.
Proof.
  intros (h & Hlen & _ & ->).
  rewrite string_length_app, complement_length, Hlen. reflexivity.
Qed.

Lemma made_of_blocks_length (n : nat) (s : string) :
  made_of_blocks n s -> String.length s = (16 * n)%nat.
Proof.
  intros (blocks & <- & Hall & ->).
  induction Hall as [|b blocks Hb _ IH]; [reflexivity|].
  cbn [concat_blocks length].
  rewrite string_length_app, (regular_block_length b Hb), IH. lia.
Qed.

Section CandidateGeneratorFacts.

Context {rng_t : Type} (dist : rng_t -> Z * rng_t).

(** What [uniform_int_distribution<int>(0, 1)] promises. *)
Hypothesis dist_bit : forall g : rng_t, (dist g).1 = 0 \/ (dist g).1 = 1.

Lemma drawn_bits_length (n : nat) (rng : rng_t) :
  String.length (drawn_bits dist n rng).1 = n /\ all_bits (drawn_bits dist n rng).1.
Proof.
  revert rng. induction n as [|n IH]; intros rng; [split; [reflexivity | exact I]|].
  cbn [drawn_bits]. destruct (dist rng) as [rand rng1].
  destruct (IH rng1) as [Hlen Hbits]. destruct (drawn_bits dist n rng1) as [h rng2].
  cbn [fst] in *. split; [cbn; now rewrite Hlen|].
  split; [|exact Hbits]. destruct (rand =? 1); auto.
Qed.

Lemma draw_bits_ok (n : nat) (rng : rng_t) (sstream8 inverse : string) :
  draw_bits dist n rng sstream8 inverse
  = Ret (sstream8 +:+ (drawn_bits dist n rng).1,
         inverse +:+ complement (drawn_bits dist n rng).1,
         (drawn_bits dist n rng).2).
Proof.
  revert rng sstream8 inverse.
  induction n as [|n IH]; intros rng sstream8 inverse.
  - cbn [draw_bits drawn_bits fst snd complement]. now rewrite !string_app_nil_r.
  - cbn [draw_bits drawn_bits]. pose proof (dist_bit rng) as Hbit.
    destruct (dist rng) as [rand rng1]. cbn [fst] in Hbit.
    assert (Hprint : int_to_string rand
                     = String (if rand =? 1 then "1"%char else "0"%char) "").
    { destruct Hbit as [-> | ->]; reflexivity. }
    assert (Hassert : assert ((rand =? 1) || (rand =? 0)) = Ret tt).
    { destruct Hbit as [-> | ->]; reflexivity. }
    rewrite Hassert, Hprint. cbn [mbind outcome_bind].
    rewrite IH. destruct (drawn_bits dist n rng1) as [h rng2]. cbn [fst snd complement].
    rewrite !string_app_assoc. destruct (rand =? 1); reflexivity.
Qed.

Lemma drawn_blocks_regular (m : nat) (rng : rng_t) :
  length (drawn_blocks dist m rng).1 = m
  /\ Forall regular_block (drawn_blocks dist m rng).1.
Proof.
  revert rng. induction m as [|m IH]; intros rng; [split; [reflexivity | constructor]|].
  cbn [drawn_blocks]. destruct (drawn_bits_length 8 rng) as [Hlen Hbits].
  destruct (drawn_bits dist 8 rng) as [h rng1]. cbn [fst] in Hlen, Hbits.
  destruct (IH rng1) as [Hm Hall]. destruct (drawn_blocks dist m rng1) as [blocks rng2].
  cbn [fst] in *. split; [cbn; now rewrite Hm|].
  constructor; [exists h; auto | exact Hall].
Qed.

(** The loop with [k] blocks written and enough fuel for the other [32 - k]. *)
Lemma rand_seq8_loop_ok (fuel k : nat) (rng : rng_t) (sstream8 : string) :
  String.length sstream8 = (16 * k)%nat -> (k < 32)%nat -> (32 - k <= fuel)%nat ->
  rand_seq8_loop dist fuel rng sstream8
  = Ret (sstream8 +:+ concat_blocks (drawn_blocks dist (32 - k) rng).1,
         (drawn_blocks dist (32 - k) rng).2).
Proof.
  revert k rng sstream8.
  induction fuel as [|fuel IH]; intros k rng sstream8 Hlen Hk Hfuel; [lia|].
  cbn [rand_seq8_loop]. rewrite draw_bits_ok. cbn [mbind outcome_bind].
  rewrite string_app_nil_l, string_app_assoc.
  replace (32 - k)%nat with (Datatypes.S (32 - (k + 1))) by lia.
  cbn [drawn_blocks]. destruct (drawn_bits_length SUBSEQ_LEN_1 rng) as [Hh Hbits].
  change SUBSEQ_LEN_1 with 8%nat in *.
  destruct (drawn_bits dist 8 rng) as [h rng1]. cbn [fst snd] in *.
  assert (Hlen' : String.length (sstream8 +:+ h +:+ complement h) = (16 * (k + 1))%nat).
  { rewrite !string_length_app, complement_length, Hh, Hlen. lia. }
  destruct (Nat.ltb_spec (String.length (sstream8 +:+ h +:+ complement h)) SEQ_LEN)
    as [Hlt | Hge]; unfold SEQ_LEN in *.
  - rewrite (IH (k + 1)%nat rng1) by (assumption || lia).
    destruct (drawn_blocks dist (32 - (k + 1)) rng1) as [blocks rng2].
    cbn [fst snd concat_blocks]. now rewrite !string_app_assoc.
  - replace (32 - (k + 1))%nat with 0%nat by lia.
    cbn [drawn_blocks fst snd concat_blocks]. now rewrite string_app_nil_r.
Qed.

(** [rand_seq8] returns: the loop ends and the final assertion holds. *)
Lemma rand_seq8_returns (rng : rng_t) :
  rand_seq8 dist rng
  = Ret (concat_blocks (drawn_blocks dist 32 rng).1, (drawn_blocks dist 32 rng).2).
Proof.
  unfold rand_seq8.
  rewrite (rand_seq8_loop_ok SEQ_LEN 0 rng "") by (reflexivity || (unfold SEQ_LEN; lia)).
  rewrite string_app_nil_l. cbn [mbind outcome_bind].
  change (32 - 0)%nat with 32%nat.
  assert (Hsize : String.length (concat_blocks (drawn_blocks dist 32 rng).1) = (16 * 32)%nat).
  { apply made_of_blocks_length. exists (drawn_blocks dist 32 rng).1.
    destruct (drawn_blocks_regular 32 rng). auto. }
  rewrite Hsize. reflexivity.
Qed.

(** C5, amended.  Every call of [rand_seq8] returns a string of exactly 512
    characters made of 32 consecutive 16-bit blocks; the first 8 bits of a
    block are the next eight draws of the generator and the second 8 bits
    are their bitwise complement. *)
Theorem rand_seq8_regular (rng : rng_t) :
  exists (s : string) (rng' : rng_t),
    rand_seq8 dist rng = Ret (s, rng')
    /\ (s, rng') = (concat_blocks (drawn_blocks dist 32 rng).1, (drawn_blocks dist 32 rng).2)
    /\ String.length s = 512%nat
    /\ made_of_blocks 32 s.
Proof.
  exists (concat_blocks (drawn_blocks dist 32 rng).1), (drawn_blocks dist 32 rng).2.
  destruct (drawn_blocks_regular 32 rng) as [Hlen Hall].
  assert (Hmade : made_of_blocks 32 (concat_blocks (drawn_blocks dist 32 rng).1))
    by (exists (drawn_blocks dist 32 rng).1; auto).
  split; [apply rand_seq8_returns|]. split; [reflexivity|]. split; [|exact Hmade].
  now apply made_of_blocks_length in Hmade.
Qed.

End CandidateGeneratorFacts.

Lemma parity_dist_bit (r : Z) : (parity_dist r).1 = 0 \/ (parity_dist r).1 = 1.
Proof. unfold parity_dist. cbn [fst]. pose proof (Z.mod_pos_bound r 2). lia. Qed.

Lemma rand_seq8_regular_witness :
  exists (s : string) (rng' : Z),
    rand_seq8 parity_dist 0 = Ret (s, rng')
    /\ (s, rng')
       = (concat_blocks (drawn_blocks parity_dist 32 0).1, (drawn_blocks parity_dist 32 0).2)
    /\ String.length s = 512%nat
    /\ made_of_blocks 32 s.
Proof. exact (rand_seq8_regular parity_dist parity_dist_bit 0). Defined.

(** C5 as stated asks for 64 blocks of 16 bits in 512 bits: the candidate of
    the parity generator is not of that shape. *)
Lemma rand_seq8_not_64_blocks :
  ~ (forall (s : string) (rng' : Z),
       rand_seq8 parity_dist 0 = Ret (s, rng') ->
       String.length s = 512%nat /\ made_of_blocks 64 s).
Proof.
  intros H.
  destruct (rand_seq8 parity_dist 0) as [[s rng']|f] eqn:E;
    [|vm_compute in E; discriminate].
  destruct (H s rng' eq_refl) as [Hlen H64].
  apply made_of_blocks_length in H64. lia.
Qed.

(** ** InstanceMaterializer *)

Lemma to_string_int (z : Z) : 0 <= z -> int_to_string z = to_string z.
Proof. intros H. destruct z; [reflexivity | reflexivity | lia]. Qed.

Lemma digit_val_nonneg (c : ascii) : isdigit c = true -> 0 <= digit_val c.
Proof.
  unfold isdigit, digit_val. intros H.
  apply andb_prop in H as [H _]. apply Nat.leb_le in H. lia.
Qed.

Lemma read_digits_from_nonneg (s : string) (acc : Z) :
  0 <= acc -> 0 <= read_digits_from s acc.
Proof.
  revert acc. induction s as [|c s IH]; intros acc Hacc; simpl; [assumption|].
  destruct (isdigit c) eqn:E; [|assumption].
  apply IH. pose proof (digit_val_nonneg c E). lia.
Qed.

Lemma extract_unsigned_range (word : string) : 0 <= extract_unsigned word < 2 ^ 32.
Proof.
  unfold extract_unsigned.
  destruct (read_sign (skip_ws word)) as [negative s].
  unfold read_digits. destruct (isdigit (first_char s)); [|lia].
  pose proof (read_digits_from_nonneg s 0 ltac:(lia)) as Hv.
  destruct (Z.ltb_spec UINT_MAX (read_digits_from s 0)) as [Hbig | Hsmall].
  - unfold UINT_MAX. lia.
  - unfold UINT_MAX in Hsmall. destruct negative; [|lia].
    unfold wrap32. apply Z.mod_pos_bound. lia.
Qed.

Lemma read_template_range (lines : list string) (var_num : Z) (base_clauses : list string) :
  0 <= var_num < 2 ^ 32 -> 0 <= (read_template lines var_num base_clauses).1 < 2 ^ 32.
Proof.
  revert var_num base_clauses.
  induction lines as [|str lines IH]; intros var_num base_clauses H; simpl; [assumption|].
  destruct (Ascii.eqb (first_char str) "c"); [now apply IH|].
  destruct (Ascii.eqb (first_char str) "p"); [|now apply IH].
  apply IH. unfold parse_p_line.
  destruct (extract_word str "") as [stream1 word1].
  destruct (extract_word stream1 word1) as [stream2 word2].
  destruct (extract_word stream2 word2) as [stream3 word3].
  apply extract_unsigned_range.
Qed.

Lemma declared_variables_range (fs : files) (operat_num : Z) :
  0 <= declared_variables fs operat_num < 2 ^ 32.
Proof. apply read_template_range. lia. Qed.

Lemma unit_clauses_length (var_num size i : Z) (rest : string) :
  length (unit_clauses var_num size i rest) = String.length rest.
Proof.
  revert i. induction rest as [|c rest IH]; intros i; simpl; [reflexivity|].
  now rewrite IH.
Qed.

Lemma unit_clauses_lookup (var_num size i : Z) (rest : string) (k : nat) (bit : ascii) :
  String.get k rest = Some bit ->
  unit_clauses var_num size i rest !! k
  = Some ((if Ascii.eqb bit "0" then "-" else "")
            +:+ to_string (wrap64 (var_num - size + 1 + (i + Z.of_nat k))) +:+ " 0").
Proof.
  revert i k. induction rest as [|c rest IH]; intros i k Hget; [discriminate|].
  destruct k as [|k]; simpl in Hget |- *.
  - injection Hget as ->. now rewrite Z.add_0_r.
  - rewrite (IH (i + 1) k Hget).
    replace (i + 1 + Z.of_nat k) with (i + Z.of_nat (S k)) by lia. reflexivity.
Qed.

Lemma get_lt (s : string) (i : nat) (c : ascii) :
  String.get i s = Some c -> (i < String.length s)%nat.
Proof.
  revert i. induction s as [|x s IH]; intros i H; [discriminate|].
  destruct i as [|i]; simpl in *; [lia|]. apply IH in H. lia.
Qed.

Lemma lookup_cons_S {A : Type} (x : A) (l : list A) (i : nat) :
  (x :: l) !! S i = l !! i.
Proof. reflexivity. Qed.

(** What [gen_rand_cnf] writes when its two assertions hold. *)
Lemma gen_rand_cnf_returns
  (fs : files) (rand_output : string) (operat_num seed : Z) :
  0 < declared_variables fs operat_num ->
  template_clauses fs operat_num <> [] ->
  gen_rand_cnf rand_output operat_num seed fs
  = Ret (rand_cnf_name operat_num seed,
         <[rand_cnf_name operat_num seed :=
             ("p cnf " +:+ to_string (declared_variables fs operat_num) +:+ " "
                +:+ to_string (Z.of_nat (length (template_clauses fs operat_num))
                               + Z.of_nat (String.length rand_output)))
               :: template_clauses fs operat_num
               ++ unit_clauses (declared_variables fs operat_num)
                    (Z.of_nat (String.length rand_output)) 0 rand_output]> fs).
Proof.
  unfold declared_variables, template_clauses, template, gen_rand_cnf.
  destruct (read_template _ 0 []) as [V clauses]. cbn [fst snd].
  intros HV Hclauses.
  destruct (Z.ltb_spec 0 V); [|lia].
  destruct clauses as [|c clauses]; [contradiction|]. reflexivity.
Qed.

Lemma gen_rand_cnf_aborts_without_variables
  (fs : files) (rand_output : string) (operat_num seed : Z) :
  declared_variables fs operat_num = 0 ->
  gen_rand_cnf rand_output operat_num seed fs = Fail Aborted.
Proof.
  unfold declared_variables, template, gen_rand_cnf.
  destruct (read_template _ 0 []) as [V clauses]. cbn [fst].
  intros ->. reflexivity.
Qed.

Lemma gen_rand_cnf_aborts_without_clauses
  (fs : files) (rand_output : string) (operat_num seed : Z) :
  template_clauses fs operat_num = [] ->
  gen_rand_cnf rand_output operat_num seed fs = Fail Aborted.
Proof.
  unfold template_clauses, template, gen_rand_cnf.
  destruct (read_template _ 0 []) as [V clauses]. cbn [snd].
  intros ->. destruct (0 <? V); reflexivity.
Qed.

(** The lines of the written instance, one by one. *)
Lemma written_instance_described
  (V : Z) (clauses : list string) (rand_output : string) :
  511 <= V < 2 ^ 32 ->
  String.length rand_output = 512%nat ->
  instance_as_described V clauses rand_output
    (("p cnf " +:+ to_string V +:+ " "
        +:+ to_string (Z.of_nat (length clauses) + Z.of_nat (String.length rand_output)))
       :: clauses ++ unit_clauses V (Z.of_nat (String.length rand_output)) 0 rand_output).
Proof.
  intros HV Hlen. rewrite Hlen. repeat split.
  - unfold header_line. rewrite !to_string_int by lia. reflexivity.
  - cbn [length]. rewrite length_app, unit_clauses_length. lia.
  - intros j Hj. change (1 + j)%nat with (S j).
    rewrite lookup_cons_S. now apply lookup_app_l.
  - intros i bit Hget. pose proof (get_lt _ _ _ Hget) as Hi.
    change (1 + length clauses + i)%nat with (S (length clauses + i)).
    rewrite lookup_cons_S, lookup_app_r by lia.
    replace (length clauses + i - length clauses)%nat with i by lia.
    rewrite (unit_clauses_lookup _ _ _ _ _ _ Hget). unfold unit_clause, wrap64.
    rewrite Z.mod_small by lia.
    rewrite to_string_int by lia. do 4 f_equal. lia.
Qed.

(** C1, amended.  For every template whose declared variable count [V] is
    at least 511 and whose clause list, of length [C], is not empty, and for
    every candidate of 512 characters, [gen_rand_cnf] writes an instance
    whose header declares [V] variables and [C + 512] clauses, whose next
    [C] lines are the template's clauses in order, and whose last 512 lines
    are unit clauses on the variables [V - 511] to [V] in ascending order,
    the i-th one negative iff the i-th character of the candidate is 0. *)
Theorem gen_rand_cnf_materializes
  (fs : files) (rand_output : string) (operat_num seed : Z) :
  String.length rand_output = 512%nat ->
  511 <= declared_variables fs operat_num ->
  template_clauses fs operat_num <> [] ->
  materialized fs rand_output operat_num seed.
Proof.
  intros Hlen HV Hclauses.
  pose proof (declared_variables_range fs operat_num) as Hrange.
  eexists. split.
  - apply gen_rand_cnf_returns; [lia | assumption].
  - apply written_instance_described; [lia | assumption].
Qed.

Lemma gen_rand_cnf_materializes_witness :
  materialized (sample_files 600 50) sample_candidate 3 7.
Proof.
  apply gen_rand_cnf_materializes.
  - vm_compute. reflexivity.
  - vm_compute. discriminate.
  - vm_compute. discriminate.
Defined.

(** The instance a successful call wrote. *)
Lemma written_instance
  (fs : files) (rand_output : string) (operat_num seed : Z) (instance : list string) :
  0 < declared_variables fs operat_num ->
  template_clauses fs operat_num <> [] ->
  gen_rand_cnf rand_output operat_num seed fs
  = Ret (rand_cnf_name operat_num seed, <[rand_cnf_name operat_num seed := instance]> fs) ->
  instance
  = ("p cnf " +:+ to_string (declared_variables fs operat_num) +:+ " "
       +:+ to_string (Z.of_nat (length (template_clauses fs operat_num))
                      + Z.of_nat (String.length rand_output)))
      :: template_clauses fs operat_num
      ++ unit_clauses (declared_variables fs operat_num)
           (Z.of_nat (String.length rand_output)) 0 rand_output.
Proof.
  intros HV Hclauses Hgen.
  rewrite gen_rand_cnf_returns in Hgen by assumption.
  injection Hgen as Hmap.
  apply (f_equal (fun m : files => m !! rand_cnf_name operat_num seed)) in Hmap.
  rewrite !lookup_insert_eq in Hmap. congruence.
Qed.

(** C1 as stated covers every template.  With 100 declared variables the
    first unit clause is on variable 2^64 - 411, not on 100 - 511; with no
    clause line the call aborts. *)
Lemma gen_rand_cnf_not_every_template :
  ~ materialized (sample_files 100 1) sample_candidate 3 0
  /\ ~ materialized (sample_files 600 0) sample_candidate 3 0.
Proof.
  split.
  - intros (instance & Hgen & _ & _ & _ & Hunits).
    apply written_instance in Hgen;
      [| vm_compute; reflexivity | vm_compute; discriminate].
    specialize (Hunits 0%nat "1"%char eq_refl).
    subst instance. vm_compute in Hunits. discriminate.
  - intros (instance & Hgen & _).
    rewrite gen_rand_cnf_aborts_without_clauses in Hgen by reflexivity.
    discriminate.
Qed.

(** C8, amended.  For a stage-3 template with 600 variables and 50 clauses
    and a candidate of 512 characters that starts with 10110100, the
    instance written has the header "p cnf 600 562", then the 50 template
    clauses, then the unit clauses "89 0", "-90 0", "91 0", "92 0",
    "-93 0" and so on: character i pins variable 89 + i, with a negative
    literal for 0 and a positive one for 1. *)
Theorem gen_rand_cnf_scenario (fs : files) (rest : string) (seed : Z) :
  declared_variables fs 3 = 600 ->
  length (template_clauses fs 3) = 50%nat ->
  String.length ("10110100" +:+ rest) = 512%nat ->
  scenario ["89 0"; "-90 0"; "91 0"; "92 0"; "-93 0"] fs ("10110100" +:+ rest) seed.
Proof.
  intros HV HC Hlen.
  assert (Hclauses : template_clauses fs 3 <> []).
  { intros E. rewrite E in HC. discriminate. }
  eexists. split; [apply gen_rand_cnf_returns; [lia | assumption]|].
  rewrite HV, HC, Hlen.
  destruct (written_instance_described 600 (template_clauses fs 3) ("10110100" +:+ rest))
    as (_ & Hsize & _ & Hunits); [lia | assumption |].
  rewrite Hlen, HC in Hsize, Hunits.
  repeat split.
  - cbn [drop]. now apply take_app_length'.
  - change 51%nat with (S 50). cbn [drop].
    rewrite drop_app_length' by (symmetry; assumption). reflexivity.
  - exact Hsize.
  - intros i bit Hget. change (51 + i)%nat with (1 + 50 + i)%nat.
    rewrite (Hunits i bit Hget). reflexivity.
Qed.

Lemma gen_rand_cnf_scenario_witness :
  scenario ["89 0"; "-90 0"; "91 0"; "92 0"; "-93 0"]
    (sample_files 600 50) ("10110100" +:+ sample_tail) 0.
Proof.
  apply gen_rand_cnf_scenario.
  - vm_compute. reflexivity.
  - vm_compute. reflexivity.
  - vm_compute. reflexivity.
Defined.

(** C8 as stated lists "-89 0", "90 0" for the bits 1, 0. *)
Lemma gen_rand_cnf_scenario_as_stated_fails :
  ~ scenario ["-89 0"; "90 0"; "91 0"; "92 0"; "-93 0"]
      (sample_files 600 50) sample_candidate 0.
Proof.
  intros (instance & Hgen & _ & _ & Hfive & _).
  apply written_instance in Hgen;
    [| vm_compute; reflexivity | vm_compute; discriminate].
  subst instance. vm_compute in Hfive. discriminate.
Qed.

(** ** The command line *)

Lemma stoi_range (str : string) (n : Z) : stoi str = Some n -> INT_MIN <= n <= INT_MAX.
Proof.
  unfold stoi. destruct (read_sign (skip_ws str)) as [negative s].
  destruct (read_digits s) as [v|]; [|discriminate].
  destruct (Z.leb_spec INT_MIN (if negative then - v else v)) as [Hlo|Hlo];
    destruct (Z.leb_spec (if negative then - v else v) INT_MAX) as [Hhi|Hhi];
    cbn; intros Hn; inversion Hn; subst; lia.
Qed.

Lemma wrap32_int_nonzero (n : Z) : INT_MIN <= n <= INT_MAX -> n <> 0 -> 0 < wrap32 n.
Proof.
  unfold INT_MIN, INT_MAX, wrap32. intros Hrange Hn.
  destruct (Z.lt_ge_cases n 0) as [Hneg | Hpos].
  - rewrite <- (Z_mod_plus_full n 1 (2 ^ 32)). rewrite Z.mod_small; lia.
  - rewrite Z.mod_small; lia.
Qed.

Lemma main_args_past_options (prog arg : string) (others : list string) :
  others <> [] \/ (arg <> "-h" /\ arg <> "-v") ->
  main_args (prog :: arg :: others)
  = match stoi arg with
    | None => Terminated
    | Some n => if 0 <? wrap32 n then Proceeds (wrap32 n) else Terminated
    end.
Proof.
  intros H. unfold main_args.
  change ((prog :: arg :: others) !! 1%nat) with (Some arg).
  change (default "" (Some arg)) with arg.
  destruct others as [|other others].
  - destruct H as [H | [Hh Hv]]; [contradiction|].
    apply String.eqb_neq in Hh, Hv. rewrite Hh, Hv. reflexivity.
  - reflexivity.
Qed.

Lemma isdigit_plain (c : ascii) :
  isdigit c = true ->
  isspace c = false /\ Ascii.eqb c "-" = false /\ Ascii.eqb c "+" = false.
Proof.
  destruct c as [[] [] [] [] [] [] [] []]; cbv; intros H; try discriminate; auto.
Qed.

(** [stoi] on the numeral of a positive integer that fits an [int]. *)
Lemma stoi_numeral (arg : string) :
  positive_numeral arg = true ->
  read_digits_from arg 0 <= INT_MAX ->
  stoi arg = Some (read_digits_from arg 0)
  /\ 0 < read_digits_from arg 0 /\ arg <> "-h" /\ arg <> "-v".
Proof.
  unfold positive_numeral. intros Hnum Hmax.
  apply andb_prop in Hnum as [Hnum Hpos]. apply andb_prop in Hnum as [_ Hdigits].
  apply Z.ltb_lt in Hpos.
  destruct arg as [|c rest]; [cbn in Hpos; lia|].
  cbn [list_ascii_of_string forallb] in Hdigits.
  apply andb_prop in Hdigits as [Hc _].
  destruct (isdigit_plain c Hc) as (Hspace & Hminus & Hplus).
  split; [|split; [exact Hpos | split]].
  - unfold stoi. cbn [skip_ws]. rewrite Hspace. cbn [read_sign]. rewrite Hminus, Hplus.
    unfold read_digits. cbn [first_char]. rewrite Hc.
    unfold INT_MIN, INT_MAX in *.
    destruct (Z.leb_spec (- 2 ^ 31) (read_digits_from (String c rest) 0)); [|lia].
    destruct (Z.leb_spec (read_digits_from (String c rest) 0) (2 ^ 31 - 1)); [|lia].
    reflexivity.
  - intros E. injection E as -> _. discriminate.
  - intros E. injection E as -> _. discriminate.
Qed.

(** C9, amended.  The single argument -h prints the usage text and exits
    with success; the single argument -v prints the version and exits with
    success; with no argument the usage text is printed and the exit status
    is failure.  Any other command line hands its first argument to [stoi]:
    when [stoi] throws (no leading integer, or one outside [int]) or yields
    0, the process is terminated abnormally and prints no usage text;
    otherwise [main] gets past the assertion of line 219, with [cpu_num]
    the integer modulo 2^32.  In particular the numeral of a positive
    integer that fits an [int] gets past it with [cpu_num] that integer. *)
Theorem main_args_cases (argv : list string) :
  (forall prog, argv = [prog; "-h"] -> main_args argv = Exits EXIT_SUCCESS print_usage)
  /\ (forall prog, argv = [prog; "-v"] -> main_args argv = Exits EXIT_SUCCESS print_version)
  /\ ((length argv < 2)%nat -> main_args argv = Exits EXIT_FAILURE print_usage)
  /\ (forall (prog arg : string) (others : list string),
        argv = prog :: arg :: others ->
        others <> [] \/ (arg <> "-h" /\ arg <> "-v") ->
        (stoi arg = None -> main_args argv = Terminated)
        /\ (stoi arg = Some 0 -> main_args argv = Terminated)
        /\ (forall n, stoi arg = Some n -> n <> 0 ->
            main_args argv = Proceeds (wrap32 n) /\ 0 < wrap32 n))
  /\ (forall (prog arg : string) (others : list string),
        argv = prog :: arg :: others ->
        positive_numeral arg = true ->
        read_digits_from arg 0 <= INT_MAX ->
        main_args argv = Proceeds (read_digits_from arg 0)).
Proof.
  split; [|split; [|split; [|split]]].
  - intros prog ->. reflexivity.
  - intros prog ->. reflexivity.
  - intros Hlen. destruct argv as [|prog [|arg others]]; [reflexivity | reflexivity |].
    cbn in Hlen. lia.
  - intros prog arg others -> Hopt.
    rewrite main_args_past_options by assumption.
    split; [|split].
    + intros ->. reflexivity.
    + intros ->. reflexivity.
    + intros n Hn Hnz. rewrite Hn.
      pose proof (wrap32_int_nonzero n (stoi_range _ _ Hn) Hnz) as Hpos.
      destruct (Z.ltb_spec 0 (wrap32 n)); [auto | lia].
  - intros prog arg others -> Hnum Hmax.
    destruct (stoi_numeral arg Hnum Hmax) as (Hstoi & Hpos & Hh & Hv).
    rewrite main_args_past_options by auto. rewrite Hstoi.
    unfold INT_MAX in Hmax.
    assert (Hwrap : wrap32 (read_digits_from arg 0) = read_digits_from arg 0).
    { unfold wrap32. apply Z.mod_small. lia. }
    rewrite Hwrap. destruct (Z.ltb_spec 0 (read_digits_from arg 0)); [reflexivity | lia].
Qed.

Lemma main_args_cases_witness :
  main_args ["find_weak_outputs_skein"; "12"] = Proceeds 12.
Proof.
  destruct (main_args_cases ["find_weak_outputs_skein"; "12"]) as (_ & _ & _ & _ & H).
  apply (H "find_weak_outputs_skein" "12" []).
  - reflexivity.
  - reflexivity.
  - vm_compute. discriminate.
Defined.

(** C9 as stated has every invalid argument answered by the usage text and
    the failure status: "abc" and "0" end the process abnormally instead,
    and "-3" is not rejected at all (it passes the assertion of line 219
    as 2^32 - 3). *)
Lemma main_args_invalid_argument :
  ~ rejects_with_usage ["find_weak_outputs_skein"; "abc"]
  /\ ~ rejects_with_usage ["find_weak_outputs_skein"; "0"]
  /\ ~ rejects_with_usage ["find_weak_outputs_skein"; "-3"].
Proof.
  repeat split; intros H.
  - specialize (H _ _ eq_refl ltac:(discriminate) ltac:(discriminate) eq_refl).
    vm_compute in H. discriminate.
  - specialize (H _ _ eq_refl ltac:(discriminate) ltac:(discriminate) eq_refl).
    vm_compute in H. discriminate.
  - specialize (H _ _ eq_refl ltac:(discriminate) ltac:(discriminate) eq_refl).
    vm_compute in H. discriminate.
Qed.

(** ** Doubles *)

(** The comparison of two doubles, read on one scale: zeros in the middle,
    finite numbers by exponent and then mantissa, infinities at the ends. *)
Lemma SFcompare_sym (x y : double) (c : comparison) :
  SFcompare x y = Some c -> SFcompare y x = Some (CompOpp c).
Proof.
  destruct x as [sx | sx | | sx mx ex], y as [sy | sy | | sy my ey];
    try destruct sx; try destruct sy; cbn; intros H; try discriminate;
    try (injection H as <-; reflexivity).
  - injection H as <-. f_equal.
    rewrite (Z.compare_antisym ex ey). destruct (ex ?= ey); cbn; try reflexivity.
    change (Pos.compare_cont Eq my mx) with (Pos.compare my mx).
    change (Pos.compare_cont Eq mx my) with (Pos.compare mx my).
    rewrite (Pos.compare_antisym mx my). now rewrite !CompOpp_involutive.
  - injection H as <-. f_equal.
    rewrite (Z.compare_antisym ex ey). destruct (ex ?= ey); cbn; try reflexivity.
    change (Pos.compare_cont Eq my mx) with (Pos.compare my mx).
    change (Pos.compare_cont Eq mx my) with (Pos.compare mx my).
    now rewrite (Pos.compare_antisym mx my).
Qed.

Lemma lex_trans (e1 e2 e3 : Z) (m1 m2 m3 : positive) (c1 c2 : comparison) :
  match e1 ?= e2 with Lt => Lt | Gt => Gt | Eq => Pos.compare_cont Eq m1 m2 end = c1 ->
  match e2 ?= e3 with Lt => Lt | Gt => Gt | Eq => Pos.compare_cont Eq m2 m3 end = c2 ->
  c1 <> Gt -> c2 <> Gt ->
  match e1 ?= e3 with Lt => Lt | Gt => Gt | Eq => Pos.compare_cont Eq m1 m3 end
  = match c1 with Lt => Lt | _ => c2 end.
Proof.
  change (Pos.compare_cont Eq m1 m2) with (Pos.compare m1 m2).
  change (Pos.compare_cont Eq m2 m3) with (Pos.compare m2 m3).
  change (Pos.compare_cont Eq m1 m3) with (Pos.compare m1 m3).
  destruct (Z.compare_spec e1 e2), (Z.compare_spec e2 e3), (Z.compare_spec e1 e3);
    try lia;
    destruct (Pos.compare_spec m1 m2), (Pos.compare_spec m2 m3), (Pos.compare_spec m1 m3);
    intros <- <- N1 N2; try reflexivity; try congruence; try lia.
Qed.

Lemma lex_trans_opp (e1 e2 e3 : Z) (m1 m2 m3 : positive) (c1 c2 : comparison) :
  match e1 ?= e2 with Lt => Gt | Gt => Lt | Eq => CompOpp (Pos.compare_cont Eq m1 m2) end = c1 ->
  match e2 ?= e3 with Lt => Gt | Gt => Lt | Eq => CompOpp (Pos.compare_cont Eq m2 m3) end = c2 ->
  c1 <> Gt -> c2 <> Gt ->
  match e1 ?= e3 with Lt => Gt | Gt => Lt | Eq => CompOpp (Pos.compare_cont Eq m1 m3) end
  = match c1 with Lt => Lt | _ => c2 end.
Proof.
  change (Pos.compare_cont Eq m1 m2) with (Pos.compare m1 m2).
  change (Pos.compare_cont Eq m2 m3) with (Pos.compare m2 m3).
  change (Pos.compare_cont Eq m1 m3) with (Pos.compare m1 m3).
  destruct (Z.compare_spec e1 e2), (Z.compare_spec e2 e3), (Z.compare_spec e1 e3);
    try lia;
    destruct (Pos.compare_spec m1 m2), (Pos.compare_spec m2 m3), (Pos.compare_spec m1 m3);
    cbn [CompOpp]; intros <- <- N1 N2; try reflexivity; try congruence; try lia.
Qed.

(** Comparisons chain: the scale is a linear order. *)
Lemma SFcompare_trans (x y z : double) (c1 c2 : comparison) :
  SFcompare x y = Some c1 -> SFcompare y z = Some c2 -> c1 <> Gt -> c2 <> Gt ->
  SFcompare x z = Some match c1 with Lt => Lt | _ => c2 end.
Proof.
  destruct x as [sx | sx | | sx mx ex], y as [sy | sy | | sy my ey],
      z as [sz | sz | | sz mz ez];
    try destruct sx; try destruct sy; try destruct sz; cbn;
    intros E1 E2 N1 N2; try discriminate;
    try (injection E1 as <-; injection E2 as <-; first [reflexivity | congruence]).
  all: injection E1 as E1; injection E2 as E2; f_equal.
  all: try (subst c2; destruct c1; congruence).
  all: try (subst c1; destruct c2; congruence).
  - now apply (lex_trans_opp ex ey ez mx my mz).
  - now apply (lex_trans ex ey ez mx my mz).
Qed.

Lemma double_ltb_lt (x y : double) : (x < y)%D <-> SFcompare x y = Some Lt.
Proof.
  unfold double_ltb, SFltb. destruct (SFcompare x y) as [[| |]|]; split; congruence.
Qed.

Lemma double_leb_le (x y : double) :
  (x <= y)%D <-> SFcompare x y = Some Lt \/ SFcompare x y = Some Eq.
Proof.
  unfold double_leb, SFleb.
  destruct (SFcompare x y) as [[| |]|]; split; try congruence; auto; intros [|]; congruence.
Qed.

Lemma double_lt_le (x y : double) : (x < y)%D -> (x <= y)%D.
Proof. rewrite double_ltb_lt, double_leb_le. auto. Qed.

Lemma double_le_trans (x y z : double) : (x <= y)%D -> (y <= z)%D -> (x <= z)%D.
Proof.
  rewrite !double_leb_le. intros [E1 | E1] [E2 | E2];
    rewrite (SFcompare_trans x y z _ _ E1 E2) by discriminate; auto.
Qed.

Lemma double_lt_le_trans (x y z : double) : (x < y)%D -> (y <= z)%D -> (x < z)%D.
Proof.
  rewrite !double_ltb_lt, double_leb_le. intros E1 [E2 | E2];
    now rewrite (SFcompare_trans x y z _ _ E1 E2) by discriminate.
Qed.

Lemma double_le_lt_trans (x y z : double) : (x <= y)%D -> (y < z)%D -> (x < z)%D.
Proof.
  rewrite !double_ltb_lt, double_leb_le. intros [E1 | E1] E2;
    now rewrite (SFcompare_trans x y z _ _ E1 E2) by discriminate.
Qed.

Lemma double_lt_trans (x y z : double) : (x < y)%D -> (y < z)%D -> (x < z)%D.
Proof. intros H1 H2. apply (double_lt_le_trans x y z H1). now apply double_lt_le. Qed.

(** [x < y] excludes [y <= x]. *)
Lemma double_lt_not_le (x y : double) : (x < y)%D -> double_leb y x = false.
Proof.
  rewrite double_ltb_lt. intros E. apply SFcompare_sym in E.
  unfold double_leb, SFleb. now rewrite E.
Qed.

Lemma double_le_not_lt (x y : double) : (x <= y)%D -> double_ltb y x = false.
Proof.
  rewrite double_leb_le. intros [E | E]; apply SFcompare_sym in E;
    unfold double_ltb, SFltb; now rewrite E.
Qed.

(** Numbers that are equal are not apart. *)
Lemma double_eq_not_lt (x y : double) :
  (x == y)%D -> double_ltb x y = false /\ double_ltb y x = false.
Proof.
  unfold double_eqb, SFeqb, double_ltb, SFltb.
  destruct (SFcompare x y) as [[| |]|] eqn:E; try discriminate.
  intros _. apply SFcompare_sym in E. now rewrite E.
Qed.

Lemma double_eq_le (x y : double) : (x == y)%D -> (x <= y)%D.
Proof.
  unfold double_eqb, SFeqb, double_leb, SFleb.
  destruct (SFcompare x y) as [[| |]|]; congruence.
Qed.

(** Two numbers are comparable: a number is one that compares with itself. *)
Lemma double_le_refl (x y : double) : (x <= y)%D -> (x <= x)%D /\ (y <= y)%D.
Proof.
  rewrite !double_leb_le. intros H.
  destruct x as [sx | sx | | sx mx ex], y as [sy | sy | | sy my ey];
    try destruct sx; try destruct sy; cbn in *; destruct H as [H | H]; try discriminate;
    rewrite ?Z.compare_refl, ?Pos.compare_cont_refl; cbn; auto.
Qed.

Lemma double_not_lt_le (x y : double) :
  (x <= x)%D -> (y <= y)%D -> double_ltb x y = false -> (y <= x)%D.
Proof.
  rewrite !double_leb_le. unfold double_ltb, SFltb.
  intros Hx Hy H.
  destruct (SFcompare x y) as [c|] eqn:E.
  - apply SFcompare_sym in E. rewrite E. destruct c; cbn; auto. discriminate.
  - exfalso.
    destruct x as [sx | sx | | sx mx ex], y as [sy | sy | | sy my ey];
      cbn in *; try discriminate; destruct Hx, Hy; discriminate.
Qed.

Lemma double_not_le_lt (x y : double) :
  (x <= x)%D -> (y <= y)%D -> double_leb x y = false -> (y < x)%D.
Proof.
  rewrite !double_leb_le, double_ltb_lt. unfold double_leb, SFleb.
  intros Hx Hy H.
  destruct (SFcompare x y) as [c|] eqn:E.
  - apply SFcompare_sym in E. rewrite E. destruct c; cbn; auto; discriminate.
  - exfalso.
    destruct x as [sx | sx | | sx mx ex], y as [sy | sy | | sy my ey];
      cbn in *; try discriminate; destruct Hx, Hy; discriminate.
Qed.

Lemma shr_1_nonneg (mrs : shr_record) : 0 <= shr_m mrs -> 0 <= shr_m (shr_1 mrs).
Proof.
  destruct mrs as [m r s]. cbn [shr_m]. intros H.
  destruct m as [|p|p]; [cbn; lia | | lia].
  destruct p; cbn; lia.
Qed.

Lemma iter_pos_shr_1_nonneg (p : positive) (mrs : shr_record) :
  0 <= shr_m mrs -> 0 <= shr_m (SpecFloat.iter_pos shr_1 p mrs).
Proof.
  revert mrs. induction p as [p IH | p IH |]; intros mrs H; cbn [SpecFloat.iter_pos].
  - apply IH, IH, shr_1_nonneg, H.
  - apply IH, IH, H.
  - apply shr_1_nonneg, H.
Qed.

Lemma shr_fexp_nonneg (prec emax m e : Z) (l : location) :
  0 <= m -> 0 <= shr_m (shr_fexp prec emax m e l).1.
Proof.
  intros H. unfold shr_fexp, shr.
  assert (H0 : 0 <= shr_m (shr_record_of_loc m l)) by (destruct l as [|[| |]]; exact H).
  destruct (fexp prec emax (Zdigits2 m + e) - e) as [|p|p]; cbn [fst]; try exact H0.
  now apply iter_pos_shr_1_nonneg.
Qed.

Lemma round_nearest_even_nonneg (m : Z) (l : location) :
  0 <= m -> 0 <= round_nearest_even m l.
Proof. destruct l as [|[| |]]; cbn; try destruct (Z.even m); lia. Qed.

Lemma binary_round_aux_signed (prec emax : Z) (s : bool) (m e : Z) (l : location) :
  0 <= m -> signed s (binary_round_aux prec emax s m e l).
Proof.
  intros H. unfold binary_round_aux.
  pose proof (shr_fexp_nonneg prec emax m e l H) as H1.
  destruct (shr_fexp prec emax m e l) as [mrs' e']. cbn [fst] in H1.
  pose proof (shr_fexp_nonneg prec emax _ e' loc_Exact
                (round_nearest_even_nonneg _ (loc_of_shr_record mrs') H1)) as H2.
  destruct (shr_fexp prec emax _ e' loc_Exact) as [mrs'' e'']. cbn [fst] in H2.
  destruct (shr_m mrs'') as [|p|p]; [reflexivity | | lia].
  destruct (e'' <=? emax - prec); reflexivity.
Qed.

Lemma binary_round_signed (prec emax : Z) (s : bool) (m : positive) (e : Z) :
  signed s (binary_round prec emax s m e).
Proof.
  unfold binary_round. destruct (shl_align _ _ _) as [mz ez].
  now apply binary_round_aux_signed.
Qed.

Lemma signed_nonneg (x : double) : signed false x -> (double_of_Z 0 <= x)%D.
Proof. destruct x as [s | s | | s m e]; cbn; intros H; now subst. Qed.

Lemma nonneg_cases (x : double) :
  (double_of_Z 0 <= x)%D -> (exists s, x = S754_zero s) \/ signed false x.
Proof.
  destruct x as [s | s | | s m e]; cbn; try destruct s; try discriminate; eauto.
Qed.

(** The conversion of an [unsigned] is not negative. *)
Lemma double_of_Z_nonneg (z : Z) : 0 <= z -> (double_of_Z 0 <= double_of_Z z)%D.
Proof.
  intros H. apply signed_nonneg. unfold double_of_Z, binary_normalize.
  destruct z as [|p|p]; [reflexivity | apply binary_round_signed | lia].
Qed.

Lemma double_of_Z_signed (z : Z) : 0 <= z -> signed false (double_of_Z z).
Proof.
  intros H. unfold double_of_Z, binary_normalize.
  destruct z as [|p|p]; [reflexivity | apply binary_round_signed | lia].
Qed.

(** Division by a positive number keeps the sign. *)
Lemma double_div_signed (x : double) (m : positive) (e : Z) :
  signed false x -> signed false (double_div x (S754_finite false m e)).
Proof.
  destruct x as [s | s | | s mx ex]; cbn [signed]; intros H; try contradiction; subst s;
    try reflexivity.
  unfold double_div, SFdiv. 
  destruct (SFdiv_core_binary 53 1024 (Z.pos mx) ex (Z.pos m) e) as [[mz ez] lz] eqn:E.
  apply binary_round_aux_signed.
  unfold SFdiv_core_binary in E.
  set (m' := match _ - _ - _ with Z.pos _ => _ | 0 => Z.pos mx | Z.neg _ => 0 end) in E.
  assert (Hm' : 0 <= m').
  { subst m'. destruct (_ - _ - _); try lia. apply Z.shiftl_nonneg. lia. }
  pose proof (Z.div_eucl_eq m' (Z.pos m) ltac:(lia)) as Heq.
  pose proof (Z.mod_pos_bound m' (Z.pos m) ltac:(lia)) as Hmod.
  unfold Z.modulo in Hmod.
  destruct (Z.div_eucl m' (Z.pos m)) as [q r]. injection E as <- _ _. nia.
Qed.

(** The sum of two numbers that are not negative is not negative. *)
Lemma double_add_nonneg (x y : double) :
  (double_of_Z 0 <= x)%D -> (double_of_Z 0 <= y)%D -> (double_of_Z 0 <= double_add x y)%D.
Proof.
  intros Hx Hy.
  destruct x as [sx | sx | | sx mx ex], y as [sy | sy | | sy my ey];
    try destruct sx; try destruct sy; try discriminate; try reflexivity.
  apply signed_nonneg. unfold double_add, SFadd.
  cbn [cond_Zopp]. rewrite <- Pos2Z.inj_add. apply binary_round_signed.
Qed.

(** ** SearchCoordinator *)

Lemma prune_check_true (min cur : double) :
  prune_check min cur = true <-> (double_of_Z 0 < min)%D /\ (min <= cur)%D.
Proof. unfold prune_check. now rewrite andb_true_iff. Qed.

Lemma prune_check_false (min cur : double) :
  prune_check min cur = false <-> ~ ((double_of_Z 0 < min)%D /\ (min <= cur)%D).
Proof. now rewrite <- prune_check_true, not_true_iff_false. Qed.

(** With no run time yet, no bound prunes. *)
Lemma prune_check_zero (min : double) : prune_check min (double_of_Z 0) = false.
Proof.
  apply prune_check_false. intros [Hpos Hle].
  apply double_lt_not_le in Hpos. congruence.
Qed.

Lemma improves_true (min cur : double) :
  improves min cur = true <-> (min < double_of_Z 0)%D \/ (cur < min)%D.
Proof. unfold improves. now rewrite orb_true_iff. Qed.

Lemma bound_set_refl (b : double) : bound_set b -> (b <= b)%D.
Proof. intros H. exact (proj2 (double_le_refl _ _ H)). Qed.

(** A bound is set or still negative, never both. *)
Lemma bound_set_not_neg (b : double) : bound_set b -> (b < double_of_Z 0)%D -> False.
Proof. intros Hset Hneg. apply double_le_not_lt in Hset. congruence. Qed.

Lemma wrap32_range (z : Z) : 0 <= wrap32 z < 2 ^ 32.
Proof. unfold wrap32. apply Z.mod_pos_bound. lia. Qed.

Lemma elapsed_time_sec_nonneg (count : Z) : (double_of_Z 0 <= elapsed_time_sec count)%D.
Proof.
  apply signed_nonneg. unfold elapsed_time_sec. cbn zeta.
  change (double_of_Z 1000) with (S754_finite false 8796093022208000 (-43)).
  apply double_div_signed, double_of_Z_signed, wrap32_range.
Qed.

(** *** The value of a double made from an integer, and of its quotient by 1000 *)

Lemma digits2_pos_size (p : positive) : digits2_pos p = Pos.size p.
Proof. induction p as [p IH | p IH |]; cbn; now rewrite ?IH. Qed.

(** A number of [n] binary digits. *)
Lemma digits2_pos_bounds (p : positive) (n : Z) :
  2 ^ (n - 1) <= Z.pos p < 2 ^ n -> Z.pos (digits2_pos p) = n.
Proof.
  intros [Hlo Hhi]. rewrite digits2_pos_size.
  pose proof (Pos.size_gt p) as Hgt. pose proof (Pos.size_le p) as Hle.
  apply Pos2Z.pos_lt_pos in Hgt. apply Pos2Z.pos_le_pos in Hle.
  rewrite Pos2Z.inj_pow in Hgt, Hle. change (Z.pos p~0) with (2 * Z.pos p) in Hle.
  set (s := Z.pos (Pos.size p)) in *.
  assert (Hs : 0 < s) by (subst s; lia).
  assert (Hn : 0 < n).
  { destruct (Z.lt_trichotomy 0 n) as [Hn | [<- | Hn]]; [assumption | cbn in Hhi; lia |].
    rewrite Z.pow_neg_r in Hhi by lia. lia. }
  destruct (Z.lt_trichotomy s n) as [Hlt | [Heq | Hgt']]; [|exact Heq|].
  - pose proof (Z.pow_le_mono_r 2 s (n - 1) ltac:(lia) ltac:(lia)). lia.
  - pose proof (Z.pow_le_mono_r 2 n (s - 1) ltac:(lia) ltac:(lia)) as H.
    replace s with (Z.succ (s - 1)) in Hle by lia.
    rewrite Z.pow_succ_r in Hle by lia. lia.
Qed.

Lemma iter_xO_pow (m p : positive) : Z.pos (Pos.iter xO m p) = Z.pos m * 2 ^ Z.pos p.
Proof.
  revert m. induction p as [|p IH] using Pos.peano_ind; intros m.
  - cbn. lia.
  - rewrite Pos.iter_succ, Pos2Z.inj_succ, Z.pow_succ_r by lia.
    change (Z.pos (Pos.iter xO m p)~0) with (2 * Z.pos (Pos.iter xO m p)).
    rewrite IH. lia.
Qed.

(** A mantissa of 53 digits needs no rounding. *)
Lemma binary_round_aux_exact (s : bool) (m : positive) (e : Z) :
  2 ^ 52 <= Z.pos m < 2 ^ 53 -> -1074 <= e <= 971 ->
  binary_round_aux 53 1024 s (Z.pos m) e loc_Exact = S754_finite s m e.
Proof.
  intros Hm He. unfold binary_round_aux.
  assert (Hshr : shr_fexp 53 1024 (Z.pos m) e loc_Exact
                 = (Build_shr_record (Z.pos m) false false, e)).
  { unfold shr_fexp, shr, fexp, emin. cbn [Zdigits2 shr_record_of_loc].
    rewrite (digits2_pos_bounds m 53) by exact Hm.
    replace (Z.max (53 + e - 53) (3 - 1024 - 53) - e) with 0 by lia. reflexivity. }
  rewrite Hshr. cbn [shr_m loc_of_shr_record round_nearest_even]. rewrite Hshr.
  cbn [shr_m]. destruct (Z.leb_spec e (1024 - 53)); [reflexivity | lia].
Qed.

(** The conversion of a positive integer of [d] digits, [d] below 53. *)
Lemma double_of_Z_digits (k d : Z) :
  0 < d < 53 -> 2 ^ (d - 1) <= k < 2 ^ d ->
  exists m : positive,
    double_of_Z k = S754_finite false m (d - 53)
    /\ Z.pos m = k * 2 ^ (53 - d).
Proof.
  intros Hd Hk.
  assert (Hpos : 0 < k) by (pose proof (Z.pow_pos_nonneg 2 (d - 1) ltac:(lia) ltac:(lia)); lia).
  destruct k as [|p|p]; try lia.
  unfold double_of_Z, binary_normalize, binary_round.
  rewrite (digits2_pos_bounds p d) by exact Hk.
  assert (Hfexp : fexp 53 1024 (d + 0) = d - 53) by (unfold fexp, emin; lia).
  rewrite Hfexp. unfold shl_align.
  destruct (d - 53 - 0) as [|q|q] eqn:Hq; try lia.
  assert (Hq' : Z.pos q = 53 - d) by lia.
  exists (Pos.iter xO p q). split; [|now rewrite iter_xO_pow, Hq'].
  cbn [fst snd]. apply binary_round_aux_exact; [|lia].
  rewrite iter_xO_pow, Hq'.
  assert (H52 : 2 ^ 52 = 2 ^ (d - 1) * 2 ^ (53 - d)).
  { rewrite <- Z.pow_add_r by lia. f_equal. lia. }
  assert (H53 : 2 ^ 53 = 2 ^ d * 2 ^ (53 - d)).
  { rewrite <- Z.pow_add_r by lia. f_equal. lia. }
  rewrite H52, H53.
  pose proof (Z.pow_pos_nonneg 2 (53 - d) ltac:(lia) ltac:(lia)) as Hpow.
  split; [apply Z.mul_le_mono_nonneg_r; lia | apply Z.mul_lt_mono_pos_r; lia].
Qed.

Lemma loc_of_shr_record_of_loc (m : Z) (l : location) :
  loc_of_shr_record (shr_record_of_loc m l) = l.
Proof. destruct l as [|[| |]]; reflexivity. Qed.

Lemma shr_m_of_loc (m : Z) (l : location) : shr_m (shr_record_of_loc m l) = m.
Proof. destruct l as [|[| |]]; reflexivity. Qed.

Lemma round_nearest_even_near (m : Z) (l : location) :
  m <= round_nearest_even m l <= m + 1.
Proof. destruct l as [|[| |]]; cbn; try destruct (Z.even m); lia. Qed.

Lemma shr_m_shr_1 (mrs : shr_record) :
  0 <= shr_m mrs -> shr_m (shr_1 mrs) = Z.div2 (shr_m mrs).
Proof.
  destruct mrs as [m r s]. cbn [shr_m]. intros H.
  destruct m as [|p|p]; [reflexivity | | lia]. destruct p; reflexivity.
Qed.

(** The shift that [shr_fexp] makes for a mantissa of [n] digits. *)
Lemma shr_fexp_digits (m : positive) (e : Z) (l : location) (n : Z) :
  2 ^ (n - 1) <= Z.pos m < 2 ^ n -> -1074 <= e ->
  shr_fexp 53 1024 (Z.pos m) e l
  = shr (shr_record_of_loc (Z.pos m) l) e (Z.max (n + e - 53) (-1074) - e).
Proof.
  intros Hm He. unfold shr_fexp, fexp, emin. cbn [Zdigits2].
  now rewrite (digits2_pos_bounds m n) by exact Hm.
Qed.

(** The last step of a rounding: a mantissa that has come to 2^53 is
    shifted once more. *)
Lemma binary_round_aux_last (r e : Z) :
  2 ^ 52 <= r <= 2 ^ 53 -> -1074 <= e <= 900 ->
  exists (m : positive) (e' : Z),
    (let '(mrs, e'') := shr_fexp 53 1024 r e loc_Exact in
     match shr_m mrs with
     | 0 => S754_zero false
     | Z.pos m => if e'' <=? 1024 - 53 then S754_finite false m e'' else S754_infinity false
     | Z.neg _ => S754_nan
     end) = S754_finite false m e'
    /\ 2 ^ 52 <= Z.pos m < 2 ^ 53
    /\ e <= e' <= e + 1
    /\ Z.pos m * 2 ^ (e' - e) = r.
Proof.
  intros Hr He.
  destruct (Z.eq_dec r (2 ^ 53)) as [-> | Hne].
  - exists (4503599627370496%positive), (e + 1).
    change (2 ^ 53) with (Z.pos 9007199254740992).
    rewrite (shr_fexp_digits _ e loc_Exact 54) by first [lia | split; [discriminate | reflexivity]].
    replace (Z.max (54 + e - 53) (-1074) - e) with 1 by lia.
    cbn [shr shr_record_of_loc SpecFloat.iter_pos shr_1 shr_m].
    destruct (Z.leb_spec (e + 1) (1024 - 53)); [|lia].
    split; [reflexivity|]. split; [split; reflexivity || lia|]. split; [lia|].
    replace (e + 1 - e) with 1 by lia. reflexivity.
  - destruct r as [|m|m]; try lia.
    exists m, e.
    rewrite (shr_fexp_digits _ e loc_Exact 53) by lia.
    replace (Z.max (53 + e - 53) (-1074) - e) with 0 by lia.
    cbn [shr shr_record_of_loc shr_m].
    destruct (Z.leb_spec e (1024 - 53)); [|lia].
    split; [reflexivity|]. split; [lia|]. split; [lia|].
    rewrite Z.sub_diag. lia.
Qed.

(** Rounding a mantissa of 53 or 54 digits: the result is a number of 53
    digits, at most two units of the last place of the mantissa above it. *)
Lemma binary_round_aux_bounds (q e : Z) (l : location) :
  2 ^ 52 <= q < 2 ^ 54 -> -1074 <= e <= 800 ->
  exists (m : positive) (e' : Z),
    binary_round_aux 53 1024 false q e l = S754_finite false m e'
    /\ 2 ^ 52 <= Z.pos m < 2 ^ 53
    /\ e <= e' <= e + 2
    /\ Z.pos m * 2 ^ (e' - e) <= q + 2.
Proof.
  intros Hq He. unfold binary_round_aux.
  destruct q as [|p|p]; try lia.
  destruct (Z.lt_ge_cases (Z.pos p) (2 ^ 53)) as [Hlt | Hge].
  - rewrite (shr_fexp_digits p e l 53) by lia.
    replace (Z.max (53 + e - 53) (-1074) - e) with 0 by lia.
    cbn [shr]. rewrite shr_m_of_loc, loc_of_shr_record_of_loc.
    pose proof (round_nearest_even_near (Z.pos p) l) as Hnear.
    destruct (binary_round_aux_last (round_nearest_even (Z.pos p) l) e ltac:(lia) ltac:(lia))
      as (m & e' & Hres & Hm & He' & Hval).
    exists m, e'. split; [exact Hres|]. split; [exact Hm|]. split; [lia|]. lia.
  - rewrite (shr_fexp_digits p e l 54) by lia.
    replace (Z.max (54 + e - 53) (-1074) - e) with 1 by lia.
    cbn [shr SpecFloat.iter_pos].
    set (mrs := shr_1 (shr_record_of_loc (Z.pos p) l)).
    assert (Hhalf : shr_m mrs = Z.div2 (Z.pos p)).
    { subst mrs. rewrite shr_m_shr_1, shr_m_of_loc by (rewrite shr_m_of_loc; lia).
      reflexivity. }
    rewrite Hhalf. pose proof (Z.div2_odd (Z.pos p)) as Hodd.
    assert (Hb : 0 <= Z.b2z (Z.odd (Z.pos p)) <= 1) by (destruct (Z.odd _); cbn; lia).
    pose proof (round_nearest_even_near (Z.div2 (Z.pos p)) (loc_of_shr_record mrs)) as Hnear.
    destruct (binary_round_aux_last
                (round_nearest_even (Z.div2 (Z.pos p)) (loc_of_shr_record mrs)) (e + 1)
                ltac:(lia) ltac:(lia)) as (m & e' & Hres & Hm & He' & Hval).
    exists m, e'. split; [exact Hres|]. split; [exact Hm|]. split; [lia|].
    replace (e' - e) with (Z.succ (e' - (e + 1))) by lia.
    rewrite Z.pow_succ_r by lia.
    replace (Z.pos m * (2 * 2 ^ (e' - (e + 1)))) with (2 * (Z.pos m * 2 ^ (e' - (e + 1)))) by lia.
    rewrite Hval. lia.
Qed.

(** Division by 1000 of a number with a mantissa of 53 digits. *)
Lemma SFdiv_core_binary_1000 (m1 : positive) (e1 : Z) :
  2 ^ 52 <= Z.pos m1 < 2 ^ 53 -> -1000 <= e1 ->
  exists l, SFdiv_core_binary 53 1024 (Z.pos m1) e1 (Z.pos 8796093022208000) (-43)
            = (Z.pos m1 * 2 ^ 53 / 8796093022208000, e1 - 10, l).
Proof.
  intros Hm He. unfold SFdiv_core_binary. cbn [Zdigits2].
  rewrite (digits2_pos_bounds m1 53) by exact Hm.
  change (Z.pos (digits2_pos 8796093022208000)) with 53.
  unfold fexp, emin.
  replace (Z.min (Z.max (53 + e1 - (53 + -43) - 53) (3 - 1024 - 53)) (e1 - -43))
    with (e1 - 10) by lia.
  replace (e1 - -43 - (e1 - 10)) with 53 by lia.
  rewrite Z.shiftl_mul_pow2 by lia.
  destruct (Z.div_eucl (Z.pos m1 * 2 ^ 53) 8796093022208000) as [q r] eqn:E.
  exists (new_location 8796093022208000 r).
  unfold Z.div. now rewrite E.
Qed.

(** Two doubles with mantissas of 53 digits compare as their values. *)
Lemma double_ltb_canonical (m1 m2 : positive) (e1 e2 e : Z) :
  2 ^ 52 <= Z.pos m1 -> Z.pos m2 < 2 ^ 53 -> e <= e1 -> e <= e2 ->
  Z.pos m1 * 2 ^ (e1 - e) < Z.pos m2 * 2 ^ (e2 - e) ->
  double_ltb (S754_finite false m1 e1) (S754_finite false m2 e2) = true.
Proof.
  intros H1 H2 He1 He2 Hlt. unfold double_ltb, SFltb. cbn [SFcompare].
  destruct (Z.compare_spec e1 e2) as [-> | Hl | Hg]; [| reflexivity |].
  - apply Z.mul_lt_mono_pos_r in Hlt; [|apply Z.pow_pos_nonneg; lia].
    unfold Z.lt in Hlt. cbn [Z.compare] in Hlt. unfold Pos.compare in Hlt.
    now rewrite Hlt.
  - exfalso.
    assert (Hp : 0 < 2 ^ (e2 - e)) by (apply Z.pow_pos_nonneg; lia).
    assert (Hs : 2 ^ (e1 - e) = 2 ^ (e1 - e2) * 2 ^ (e2 - e)).
    { rewrite <- Z.pow_add_r by lia. f_equal. lia. }
    assert (Hd : 2 <= 2 ^ (e1 - e2)).
    { change 2 with (2 ^ 1) at 1. apply Z.pow_le_mono_r; lia. }
    rewrite Hs in Hlt. nia.
Qed.

(** A count below 2^32 milliseconds, in seconds, is below 2^32 / 1000. *)
Lemma double_div_1000_below (k : Z) :
  0 <= k < 2 ^ 32 ->
  (double_div (double_of_Z k) (double_of_Z 1000)
   < double_div (double_of_Z (2 ^ 32)) (double_of_Z 1000))%D.
Proof.
  intros Hk.
  replace (double_div (double_of_Z (2 ^ 32)) (double_of_Z 1000))
    with (S754_finite false 4611686018427388 (-30)) by (vm_compute; reflexivity).
  destruct (Z.eq_dec k 0) as [-> | Hpos]; [reflexivity|].
  set (d := Z.log2 k + 1).
  destruct (Z.log2_spec k ltac:(lia)) as [Hlo Hhi].
  assert (Hlog : 0 <= Z.log2 k < 32).
  { split; [apply Z.log2_nonneg|]. apply Z.log2_lt_pow2; lia. }
  assert (Hd : 0 < d <= 32) by (subst d; lia).
  assert (Hkd : 2 ^ (d - 1) <= k < 2 ^ d).
  { subst d. replace (Z.log2 k + 1 - 1) with (Z.log2 k) by lia.
    replace (Z.log2 k + 1) with (Z.succ (Z.log2 k)) by lia. lia. }
  clearbody d. clear Hlo Hhi Hlog.
  destruct (double_of_Z_digits k d ltac:(lia) Hkd) as (m1 & Hval1 & Hm1).
  rewrite Hval1.
  replace (double_of_Z 1000) with (S754_finite false 8796093022208000 (-43))
    by (vm_compute; reflexivity).
  assert (Hpow : 2 ^ 52 = 2 ^ (d - 1) * 2 ^ (53 - d)).
  { rewrite <- Z.pow_add_r by lia. f_equal. lia. }
  assert (Hpow' : 2 ^ 53 = 2 ^ d * 2 ^ (53 - d)).
  { rewrite <- Z.pow_add_r by lia. f_equal. lia. }
  assert (Hpp : 0 < 2 ^ (53 - d)) by (apply Z.pow_pos_nonneg; lia).
  assert (Hm1r : 2 ^ 52 <= Z.pos m1 < 2 ^ 53).
  { rewrite Hm1, Hpow, Hpow'. split.
    - apply Z.mul_le_mono_nonneg_r; lia.
    - apply Z.mul_lt_mono_pos_r; lia. }
  unfold double_div, SFdiv.
  destruct (SFdiv_core_binary_1000 m1 (d - 53) Hm1r ltac:(lia)) as [l Hl].
  rewrite Hl. cbn [xorb].
  set (q := Z.pos m1 * 2 ^ 53 / 8796093022208000).
  assert (Hq : q = k * 2 ^ (63 - d) / 1000).
  { subst q. rewrite Hm1.
    replace (k * 2 ^ (53 - d) * 2 ^ 53) with (k * 2 ^ (63 - d) * 2 ^ 43).
    - change 8796093022208000 with (1000 * 2 ^ 43).
      apply Z.div_mul_cancel_r; lia.
    - rewrite <- !Z.mul_assoc, <- !Z.pow_add_r by lia. do 2 f_equal. lia. }
  assert (Hqr : 2 ^ 52 <= q < 2 ^ 54).
  { subst q. split.
    - apply Z.div_le_lower_bound; lia.
    - apply Z.div_lt_upper_bound; lia. }
  clearbody q.
  destruct (binary_round_aux_bounds q (d - 53 - 10) l Hqr ltac:(lia))
    as (m & e' & Hres & Hm & He' & Hval).
  rewrite Hres.
  apply (double_ltb_canonical m _ e' (-30) (d - 63)); try lia.
  replace (d - 53 - 10) with (d - 63) in Hval by lia.
  eapply Z.le_lt_trans; [exact Hval|].
  replace (-30 - (d - 63)) with (33 - d) by lia.
  assert (Hmul : 1000 * q <= k * 2 ^ (63 - d)).
  { rewrite Hq. apply Z.mul_div_le. lia. }
  destruct (Z.eq_dec d 32) as [-> | Hsmall].
  - change (2 ^ (63 - 32)) with 2147483648 in Hmul.
    change (2 ^ (33 - 32)) with 2. lia.
  - assert (H63 : 2 ^ 63 = 2 ^ d * 2 ^ (63 - d)).
    { rewrite <- Z.pow_add_r by lia. f_equal. lia. }
    assert (Hp63 : 0 < 2 ^ (63 - d)) by (apply Z.pow_pos_nonneg; lia).
    assert (Hk63 : k * 2 ^ (63 - d) < 2 ^ 63).
    { rewrite H63. apply Z.mul_lt_mono_pos_r; lia. }
    assert (H4 : 2 ^ 2 <= 2 ^ (33 - d)) by (apply Z.pow_le_mono_r; lia).
    change (2 ^ 2) with 4 in H4. change (2 ^ 63) with 9223372036854775808 in Hk63.
    nia.
Qed.

Lemma elapsed_time_sec_below (count : Z) :
  (elapsed_time_sec count < double_div (double_of_Z (2 ^ 32)) (double_of_Z 1000))%D.
Proof. apply double_div_1000_below, wrap32_range. Qed.

Lemma count_unsat_app (a b : list stage_run) :
  count_unsat (a ++ b) = count_unsat a + count_unsat b.
Proof. induction a as [|r a IH]; cbn [count_unsat app]; lia. Qed.

Lemma count_unsat_nonneg (a : list stage_run) : 0 <= count_unsat a.
Proof. induction a as [|r a IH]; cbn [count_unsat]; [lia|]. destruct (is_unsat _); lia. Qed.

Section CandidateFacts.

Context {S : Type}.
Variable run_stage : string -> Z -> S -> outcome (result * Z * S).
Variable min_at : Z -> double.
Variable rand_output : string.

Abbreviation step1 := (step run_stage min_at rand_output).
Abbreviation invariant1 := (invariant run_stage min_at rand_output).

Lemma tidy_start (s : S) : tidy 3 (Locals (double_of_Z 0) 0 [] s).
Proof. repeat split; cbn; try lia. constructor. Qed.

Lemma total_runtime_snoc (runs : list stage_run) (r : stage_run) :
  total_runtime (runs ++ [r]) = double_add (total_runtime runs) (sr_runtime r).
Proof. unfold total_runtime. now rewrite map_app, fold_left_app. Qed.

Lemma tidy_after (l : locals S) (n : Z) (res : result) (count : Z) (s : S) :
  tidy n l -> n <= 7 -> res <> INTERR ->
  unsat_inst l + (if is_unsat res then 1 else 0) <= 3 ->
  tidy (n + 1)
    (after_stage l n res count (unsat_inst l + (if is_unsat res then 1 else 0)) s).
Proof.
  intros (Hn & Hlen & Hstages & Hunsat & Hmax & Hres & Hcur & Hsum) Hlast Hverdict Hfew.
  unfold tidy, after_stage, stages_run in *. cbn [ran unsat_inst cur_total_runtime].
  rewrite total_runtime_snoc, <- Hsum.
  rewrite length_app, map_app, count_unsat_app. cbn [length map count_unsat sr_operat_num sr_res].
  replace (length (ran l) + 1)%nat with (Datatypes.S (length (ran l))) by lia.
  rewrite seqZ_S, Hstages, <- Hn.
  repeat split; try lia.
  - apply Forall_app. split; [assumption | now repeat constructor].
  - apply double_add_nonneg; [exact Hcur | apply elapsed_time_sec_nonneg].
Qed.

Lemma invariant_step (c : config S) : invariant1 c -> invariant1 (step1 c).
Proof.
  destruct c as [n l | e l]; [|trivial].
  intros Htidy. pose proof Htidy as (Hn & Hlen & _ & Hunsat & Hmax & _ & _).
  pose proof (count_unsat_nonneg (ran l)) as Hnonneg.
  cbn [step invariant].
  destruct (Z.leb_spec n 7) as [Hle | Hgt]; cbn [negb].
  2: { replace n with 8 in Htidy by lia. exact Htidy. }
  destruct (prune_check (min_at n) (cur_total_runtime l)) eqn:Hprune.
  { cbn [settled]. split; [exact Htidy | split; [exact Hle | exact Hprune]]. }
  destruct (run_stage rand_output n (outside l)) as [[[res count] s] | f] eqn:Hrun.
  2: { cbn [settled]. split; [exact Htidy | split; [exact Hle | exact Hrun]]. }
  destruct res; cbn [is_unsat].
  - (* UNSAT *)
    assert (Hwrap : wrap32 (unsat_inst l + 1) = unsat_inst l + 1).
    { unfold wrap32. apply Z.mod_small. lia. }
    rewrite Hwrap. unfold MAX_UNSAT_INST.
    destruct (Z.ltb_spec 3 (unsat_inst l + 1)) as [Hmany | Hfew].
    + cbn [settled]. exists l, count, s.
      replace (unsat_inst l + 1) with 4 by lia.
      split; [exact Htidy | split; [exact Hle | split; [exact Hrun | split; [lia | reflexivity]]]].
    + assert (Hnext : wrap32 (n + 1) = n + 1).
      { unfold wrap32. apply Z.mod_small. lia. }
      rewrite Hnext.
      apply (tidy_after l n UNSAT count s); [assumption | lia | discriminate | cbn; lia].
  - (* SAT *)
    unfold MAX_UNSAT_INST.
    destruct (Z.ltb_spec 3 (unsat_inst l)) as [Hmany | Hfew]; [lia|].
    assert (Hnext : wrap32 (n + 1) = n + 1).
    { unfold wrap32. apply Z.mod_small. lia. }
    rewrite Hnext.
    pose proof (tidy_after l n SAT count s Htidy ltac:(lia) ltac:(discriminate)) as H.
    cbn [is_unsat] in H. rewrite Z.add_0_r in H. apply H. lia.
  - (* INTERR *)
    cbn [settled]. exists l, count, s.
    split; [exact Htidy | split; [exact Hle | split; [exact Hrun | reflexivity]]].
Qed.

Lemma invariant_iter (k : nat) (s : S) :
  invariant1 (Nat.iter k step1 (start s)).
Proof.
  induction k as [|k IH]; [apply tidy_start|].
  rewrite Nat.iter_succ. now apply invariant_step.
Qed.

Lemma invariant_reaches (s : S) (c : config S) :
  reaches run_stage min_at rand_output s c -> invariant1 c.
Proof. intros [k <-]. apply invariant_iter. Qed.

Lemma step_stopped (e : ending) (l : locals S) : step1 (Stopped e l) = Stopped e l.
Proof. reflexivity. Qed.

Lemma iter_stopped (k : nat) (e : ending) (l : locals S) :
  Nat.iter k step1 (Stopped e l) = Stopped e l.
Proof. induction k as [|k IH]; [reflexivity|]. now rewrite Nat.iter_succ, IH. Qed.

(** While the loop goes on, every turn runs one more stage. *)
Lemma iter_at_stage (k : nat) (s : S) (n : Z) (l : locals S) :
  Nat.iter k step1 (start s) = AtStage n l -> length (ran l) = k.
Proof.
  revert n l. induction k as [|k IH]; intros n l H.
  - injection H as _ <-. reflexivity.
  - rewrite Nat.iter_succ in H.
    destruct (Nat.iter k step1 (start s)) as [n0 l0 | e0 l0] eqn:Hk; [|discriminate].
    specialize (IH n0 l0 eq_refl).
    cbn [step] in H.
    destruct (negb (n0 <=? 7)); [discriminate|].
    destruct (prune_check _ _); [discriminate|].
    destruct (run_stage _ _ _) as [[[res count] s'] | f]; [|discriminate].
    destruct res; cbn [is_unsat] in H;
      repeat match type of H with
        | (if ?b then _ else _) = _ => destruct b
        end;
      try discriminate;
      injection H as _ <-; cbn [ran]; rewrite length_app; cbn [length]; lia.
Qed.

(** The loop is left within six turns. *)
Lemma evaluate_stopped (s : S) :
  exists (e : ending) (l : locals S),
    evaluate run_stage min_at rand_output s = Stopped e l.
Proof.
  unfold evaluate.
  destruct (Nat.iter 6 step1 (start s)) as [n l | e l] eqn:H; [|eauto].
  pose proof (invariant_iter 6 s) as Hinv. rewrite H in Hinv.
  apply iter_at_stage in H. destruct Hinv as (_ & Hlen & _). lia.
Qed.

Lemma iter_add (a b : nat) (c : config S) :
  Nat.iter (a + b) step1 c = Nat.iter a step1 (Nat.iter b step1 c).
Proof.
  induction a as [|a IH]; [reflexivity|].
  cbn [Nat.add]. now rewrite !Nat.iter_succ, IH.
Qed.

(** A stop that is reached is the stop of the evaluation. *)
Lemma reaches_stopped (s : S) (e : ending) (l : locals S) :
  reaches run_stage min_at rand_output s (Stopped e l) ->
  evaluate run_stage min_at rand_output s = Stopped e l.
Proof.
  intros [k Hk]. destruct (evaluate_stopped s) as (e' & l' & He). rewrite He.
  unfold evaluate in He.
  destruct (Nat.le_ge_cases k 6) as [Hle | Hge].
  - replace 6%nat with ((6 - k) + k)%nat in He by lia.
    rewrite iter_add, Hk, iter_stopped in He. congruence.
  - replace k with ((k - 6) + 6)%nat in Hk by lia.
    rewrite iter_add, He, iter_stopped in Hk. congruence.
Qed.

Lemma reaches_step (s : S) (c : config S) :
  reaches run_stage min_at rand_output s c ->
  reaches run_stage min_at rand_output s (step1 c).
Proof. intros [k <-]. now exists (Datatypes.S k). Qed.

Lemma evaluate_settled (s : S) (e : ending) (l : locals S) :
  evaluate run_stage min_at rand_output s = Stopped e l ->
  settled run_stage min_at rand_output e l.
Proof. intros H. pose proof (invariant_iter 6 s) as Hinv. unfold evaluate in H. now rewrite H in Hinv. Qed.

End CandidateFacts.

Lemma stages_split (m : nat) :
  (m <= 5)%nat -> stages = seqZ 3 (Z.of_nat m) ++ seqZ (3 + Z.of_nat m) (5 - Z.of_nat m).
Proof.
  intros Hm. rewrite <- seqZ_app by lia.
  replace (Z.of_nat m + (5 - Z.of_nat m)) with 5 by lia. reflexivity.
Qed.

Lemma count_unsat_prefix (earlier later : list stage_run) (r : stage_run) :
  count_unsat (earlier ++ [r]) <= count_unsat (earlier ++ r :: later).
Proof.
  rewrite !count_unsat_app. cbn [count_unsat].
  pose proof (count_unsat_nonneg later). lia.
Qed.

(** In a list that ends with [r0], an element followed by something lies
    in the part before [r0]. *)
Lemma split_before_last {A : Type} (runs earlier later : list A) (r0 r : A) :
  runs ++ [r0] = earlier ++ r :: later ->
  (later = [] /\ earlier = runs /\ r = r0)
  \/ (exists later', later = later' ++ [r0] /\ runs = earlier ++ r :: later').
Proof.
  intros H. destruct later as [|x later _] using rev_ind.
  - left. apply app_inj_tail in H as [-> ->]. auto.
  - right. exists later.
    change (earlier ++ r :: later ++ [x]) with (earlier ++ (r :: later) ++ [x]) in H.
    rewrite app_assoc in H. apply app_inj_tail in H as [-> ->]. auto.
Qed.

Section CandidateProperties.

Context {S : Type}.
Variable run_stage : string -> Z -> S -> outcome (result * Z * S).
Variable min_at : Z -> double.
Variable rand_output : string.

Abbreviation step2 := (step run_stage min_at rand_output).
Abbreviation evaluate2 := (evaluate run_stage min_at rand_output).
Abbreviation reaches2 := (reaches run_stage min_at rand_output).

(** C2, amended.  If, at the entry of a stage n in [3,7], the bound read
    there is strictly positive and the cumulative run time is at least that
    bound, the candidate is abandoned as pruned at that entry: stage n and
    the later ones do not run, and the stages that ran are 3 to n - 1, a
    strict prefix of [3,4,5,6,7].  The cumulative run time is the one the
    program holds: the run times of the stages run, added in doubles. *)
Theorem prune_check_stops_candidate (s : S) :
  prunes_when (fun b => (double_of_Z 0 < b)%D) run_stage min_at rand_output s.
Proof.
  intros n l Hreach [_ Hn] Hpos Hbound.
  pose proof (invariant_reaches _ _ _ _ _ Hreach) as Htidy.
  destruct Htidy as (Hstage & Hfive & Hstages & _ & _ & _ & _ & Hsum).
  split; [|split; [|split; [|exact Hsum]]].
  - apply reaches_stopped.
    replace (Stopped (Abandoned Pruned n) l) with (step2 (AtStage n l));
      [now apply reaches_step|].
    cbn [step]. destruct (Z.leb_spec n 7) as [_ | Hgt]; [cbn [negb] | lia].
    now rewrite (proj2 (prune_check_true _ _) (conj Hpos Hbound)).
  - rewrite Hstages. f_equal. lia.
  - exists (seqZ n (8 - n)). split.
    + rewrite seqZ_cons by lia. discriminate.
    + rewrite Hstages, (stages_split (length (ran l)) Hfive). do 2 f_equal; lia.
Qed.

(** C3.  An evaluation ends as abandoned for too many Unsatisfiable
    verdicts exactly when the count of such verdicts among its stage runs is
    4; [unsat_inst] is that count; the abandonment is at the stage whose
    verdict was the fourth, the count being 3 before it; and a stage run
    that brings the count to 4 is the last one. *)
Theorem too_many_unsat_at_fourth (s : S) :
  exists (e : ending) (l : locals S),
    evaluate2 s = Stopped e l
    /\ unsat_inst l = count_unsat (ran l)
    /\ ((exists n, e = Abandoned TooManyUnsat n) <-> count_unsat (ran l) = 4)
    /\ (forall n, e = Abandoned TooManyUnsat n ->
        exists (earlier : list stage_run) (r : stage_run),
          ran l = earlier ++ [r] /\ sr_operat_num r = n /\ sr_res r = UNSAT
          /\ count_unsat earlier = 3)
    /\ (forall (earlier : list stage_run) (r : stage_run) (later : list stage_run),
          ran l = earlier ++ r :: later ->
          count_unsat (earlier ++ [r]) = 4 ->
          later = [] /\ e = Abandoned TooManyUnsat (sr_operat_num r)).
Proof.
  destruct (evaluate_stopped run_stage min_at rand_output s) as (e & l & He).
  exists e, l. split; [exact He|].
  apply evaluate_settled in He.
  assert (Hcases :
    (exists (n : Z) (l0 : locals S) (count : Z) (s' : S),
        e = Abandoned TooManyUnsat n
        /\ unsat_inst l0 = count_unsat (ran l0) /\ unsat_inst l0 = 3
        /\ l = after_stage l0 n UNSAT count 4 s')
    \/ ((forall n, e <> Abandoned TooManyUnsat n)
        /\ unsat_inst l = count_unsat (ran l) /\ count_unsat (ran l) <= 3)).
  { destruct e as [| [| |] n | f n]; cbn [settled] in He.
    - right. destruct He as (_ & _ & _ & Hunsat & Hmax & _).
      split; [discriminate | split; [exact Hunsat | lia]].
    - right. destruct He as ((_ & _ & _ & Hunsat & Hmax & _) & _).
      split; [discriminate | split; [exact Hunsat | lia]].
    - right. destruct He as (l0 & count & s' & (_ & _ & _ & Hunsat & Hmax & _) & _ & _ & ->).
      unfold after_stage. cbn [ran unsat_inst]. rewrite count_unsat_app. cbn.
      split; [discriminate | split; lia].
    - left. destruct He as (l0 & count & s' & (_ & _ & _ & Hunsat & _) & _ & _ & Hthree & ->).
      exists n, l0, count, s'. auto.
    - right. destruct He as ((_ & _ & _ & Hunsat & Hmax & _) & _).
      split; [discriminate | split; [exact Hunsat | lia]]. }
  destruct Hcases as [(n & l0 & count & s' & -> & Hunsat & Hthree & ->)
                     | (Hnot & Hunsat & Hfew)].
  - (* the fourth Unsatisfiable verdict, at stage [n] *)
    unfold after_stage. cbn [ran unsat_inst].
    assert (Hcount : count_unsat (ran l0 ++ [StageRun n UNSAT (elapsed_time_sec count)]) = 4).
    { rewrite count_unsat_app. cbn. lia. }
    rewrite Hcount.
    split; [reflexivity|]. split; [split; [reflexivity | eauto]|]. split.
    + intros n' Hn'. injection Hn' as <-.
      exists (ran l0), (StageRun n UNSAT (elapsed_time_sec count)).
      repeat split. lia.
    + intros earlier r later Hran Hfour.
      apply split_before_last in Hran as [(-> & -> & ->) | (later' & -> & Hran)];
        [auto|].
      pose proof (count_unsat_prefix earlier later' r) as Hle.
      rewrite <- Hran in Hle. lia.
  - (* at most three Unsatisfiable verdicts *)
    split; [exact Hunsat|]. split; [|split].
    + split; [intros [n Hn]; destruct (Hnot n Hn) | lia].
    + intros n Hn. destruct (Hnot n Hn).
    + intros earlier r later Hran Hfour.
      pose proof (count_unsat_prefix earlier later r) as Hle.
      rewrite <- Hran in Hle. lia.
Qed.

Lemma step_extends (c : config S) :
  exists more : list stage_run, ran_of (step2 c) = ran_of c ++ more.
Proof.
  destruct c as [n l | e l]; [|exists []; cbn; now rewrite app_nil_r].
  cbn [step].
  destruct (negb (n <=? 7)); [exists []; cbn; now rewrite app_nil_r|].
  destruct (prune_check _ _); [exists []; cbn; now rewrite app_nil_r|].
  destruct (run_stage _ _ _) as [[[res count] s'] | f];
    [|exists []; cbn; now rewrite app_nil_r].
  exists [StageRun n res (elapsed_time_sec count)].
  destruct res; cbn [is_unsat];
    repeat match goal with
      | |- context [if ?b then _ else _] => destruct b
      end; reflexivity.
Qed.

Lemma iter_extends (k : nat) (c : config S) :
  exists more : list stage_run, ran_of (Nat.iter k step2 c) = ran_of c ++ more.
Proof.
  induction k as [|k [more IH]]; [exists []; cbn; now rewrite app_nil_r|].
  rewrite Nat.iter_succ. destruct (step_extends (Nat.iter k step2 c)) as [more' H].
  exists (more ++ more'). now rewrite H, IH, app_assoc.
Qed.

(** On entry to stage 3 no time has been counted. *)
Lemma at_stage_three (s : S) (l : locals S) :
  reaches2 s (AtStage 3 l) -> cur_total_runtime l = double_of_Z 0.
Proof.
  intros Hreach. apply invariant_reaches in Hreach.
  destruct Hreach as (Hlen & _ & _ & _ & _ & _ & _ & ->).
  destruct (ran l); [reflexivity | cbn in Hlen; lia].
Qed.

(** Stage 3 is not pruned: the first thing an evaluation does is the stage
    run of stage 3, whose verdict and run time it records, unless that run
    ends the process. *)
Lemma first_stage_runs (s : S) :
  exists (e : ending) (l : locals S),
    evaluate2 s = Stopped e l
    /\ e <> Abandoned Pruned 3
    /\ match run_stage rand_output 3 s with
       | Ret (res, count, _) =>
           exists later : list stage_run,
             ran l = StageRun 3 res (elapsed_time_sec count) :: later
       | Fail f => e = Crashed f 3 /\ l = Locals (double_of_Z 0) 0 [] s
       end.
Proof.
  pose proof (prune_check_zero (min_at 3)) as Hcheck.
  destruct (evaluate_stopped run_stage min_at rand_output s) as (e & l & He).
  exists e, l. split; [exact He|].
  pose proof (evaluate_settled _ _ _ _ _ _ He) as Hsettled.
  unfold evaluate in He.
  change 6%nat with (Datatypes.S 5) in He. rewrite Nat.iter_succ_r in He.
  unfold start in He at 1. cbn [step] in He. cbn [cur_total_runtime outside] in He.
  change (negb (3 <=? 7)) with false in He. cbn iota in He. rewrite Hcheck in He.
  destruct (run_stage rand_output 3 s) as [[[res count] s'] | f] eqn:Hrun.
  + match type of He with
    | Nat.iter 5 _ ?c = _ =>
        destruct (iter_extends 5 c) as [more Hmore];
        assert (Hfirst : exists more0, ran_of c = StageRun 3 res (elapsed_time_sec count) :: more0)
    end.
    { destruct res; cbn [is_unsat];
        repeat match goal with
          | |- context [if ?b then _ else _] => destruct b
          end; exists []; reflexivity. }
    destruct Hfirst as [more0 Hfirst].
    rewrite He, Hfirst in Hmore. cbn [ran_of] in Hmore.
    split; [|eexists; exact Hmore].
    intros ->. cbn [settled] in Hsettled.
    destruct Hsettled as ((Hlen & _) & _). rewrite Hmore in Hlen. cbn in Hlen. lia.
  + rewrite iter_stopped in He. injection He as <- <-. split; [discriminate | auto].
Qed.

(** A bound that is exactly 0 prunes at no stage. *)
Lemma zero_bound_never_prunes (s : S) (n : Z) (e : ending) (l : locals S) :
  (min_at n == double_of_Z 0)%D -> evaluate2 s = Stopped e l -> e <> Abandoned Pruned n.
Proof.
  intros Hzero He ->.
  apply evaluate_settled in He. cbn [settled] in He.
  destruct He as (_ & _ & Hprune). apply prune_check_true in Hprune as [Hpos _].
  apply double_eq_not_lt in Hzero as [_ Hzero]. congruence.
Qed.

End CandidateProperties.


Section WorkerProperties.

Context {S rng_t : Type}.
Variable run_stage : string -> Z -> S -> outcome (result * Z * S).
Variable dist : rng_t -> Z * rng_t.

Abbreviation turn := (candidate_turn run_stage dist).
Abbreviation loop := (worker_loop run_stage dist).

(** One turn, read off [candidate_turn]. *)
Lemma turn_inv (w w' : worker S rng_t) (r : report S) :
  turn w = Ret (w', r) ->
  evaluate run_stage (fun _ => min_total_solving_runtime w) (candidate r) (surroundings w)
  = Stopped (how r) (final r)
  /\ bound_before r = min_total_solving_runtime w
  /\ bound_after r = min_total_solving_runtime w'
  /\ ((bound_after r = bound_before r /\ discoveries w' = discoveries w
       /\ (how r = Completed ->
           improves (bound_before r) (cur_total_runtime (final r)) = false))
      \/ (how r = Completed
          /\ improves (bound_before r) (cur_total_runtime (final r)) = true
          /\ bound_after r = cur_total_runtime (final r)
          /\ discoveries w' = (candidate r, bound_after r) :: discoveries w)).
Proof.
  unfold candidate_turn.
  destruct (gen_rand_output dist (rng w)) as [[cand rng1] | f]; [|discriminate].
  cbn [mbind outcome_bind].
  destruct (evaluate _ _ _ _) as [n l | e l] eqn:He; [discriminate|].
  destruct e as [| why n | f n]; [| |discriminate].
  - destruct (improves _ _) eqn:Himp; intros H; injection H as <- <-;
      cbn [how final candidate bound_before bound_after min_total_solving_runtime discoveries];
      rewrite ?Himp; auto 10.
  - intros H; injection H as <- <-.
    cbn [how final candidate bound_before bound_after min_total_solving_runtime discoveries].
    repeat split; try assumption. left. repeat split. discriminate.
Qed.



Lemma loop_succ (k : nat) (w : worker S rng_t) :
  loop (Datatypes.S k) w
  = match turn w with
    | Ret (w', r) => r :: loop k w'
    | Fail _ => []
    end.
Proof. reflexivity. Qed.

Lemma loop_head (k : nat) (w : worker S rng_t) (r : report S) :
  loop k w !! 0%nat = Some r -> exists w', turn w = Ret (w', r).
Proof.
  destruct k as [|k]; [discriminate|]. rewrite loop_succ.
  destruct (turn w) as [[w' r0] | f]; [|discriminate].
  intros H. injection H as <-. eauto.
Qed.

Lemma loop_tail (k : nat) (w : worker S rng_t) (i : nat) (r : report S) :
  loop k w !! Datatypes.S i = Some r ->
  exists (k' : nat) (w' : worker S rng_t) (r0 : report S),
    turn w = Ret (w', r0) /\ loop k w = r0 :: loop k' w' /\ loop k' w' !! i = Some r.
Proof.
  destruct k as [|k]; [discriminate|]. rewrite loop_succ.
  destruct (turn w) as [[w' r0] | f]; [|discriminate].
  intros H. exists k, w', r0. auto.
Qed.











End WorkerProperties.

(** ** The properties at work *)

Lemma prune_check_stops_candidate_witness :
  evaluate (constant_oracle SAT 7) (fun _ => elapsed_time_sec 21) sample_candidate tt
  = Stopped (Abandoned Pruned 6) three_sat_stages
  /\ stages_run three_sat_stages = [3; 4; 5]
  /\ strict_prefix (stages_run three_sat_stages) stages
  /\ cur_total_runtime three_sat_stages = total_runtime (ran three_sat_stages).
Proof.
  apply (prune_check_stops_candidate (constant_oracle SAT 7) (fun _ => elapsed_time_sec 21)
           sample_candidate tt 6 three_sat_stages).
  - exists 3%nat. vm_compute. reflexivity.
  - lia.
  - vm_compute. reflexivity.
  - vm_compute. reflexivity.
Defined.

(** C2 as stated prunes whenever the bound is set.  A worker whose first
    candidate completes in 0 ms has the bound set to 0; its next candidate
    meets that bound at the entry of stage 3 and still runs all five
    stages. *)
Lemma zero_bound_does_not_prune :
  exists r1 r2 : report unit,
    worker_loop (constant_oracle SAT 0) parity_dist 2 (start_worker 0 tt) = [r1; r2]
    /\ bound_set (bound_before r2)
    /\ how r2 = Completed
    /\ stages_run (final r2) = stages
    /\ ~ prunes_when bound_set (constant_oracle SAT 0) (fun _ => bound_before r2)
           (candidate r2) tt.
Proof.
  destruct (worker_loop (constant_oracle SAT 0) parity_dist 2 (start_worker 0 tt))
    as [|r1 [|r2 [|r3 rest]]] eqn:E; vm_compute in E; try discriminate.
  injection E as <- <-. do 2 eexists. split; [reflexivity|].
  split; [vm_compute; reflexivity|]. split; [reflexivity|]. split; [reflexivity|].
  intros H. destruct (H 3 (Locals (double_of_Z 0) 0 [] tt)) as (He & _).
  - exists 0%nat. reflexivity.
  - lia.
  - vm_compute. reflexivity.
  - vm_compute. reflexivity.
  - vm_compute in He. discriminate.
Qed.

Lemma too_many_unsat_at_fourth_witness :
  exists l : locals unit,
    evaluate (constant_oracle UNSAT 7) (fun _ => double_of_Z (-1)) sample_candidate tt
    = Stopped (Abandoned TooManyUnsat 6) l
    /\ stages_run l = [3; 4; 5; 6]
    /\ count_unsat (ran l) = 4.
Proof.
  destruct (too_many_unsat_at_fourth (constant_oracle UNSAT 7) (fun _ => double_of_Z (-1))
              sample_candidate tt) as (e & l & He & _ & Hiff & _).
  vm_compute in He. injection He as <- <-.
  eexists. split; [vm_compute; reflexivity|]. split; [reflexivity|].
  apply Hiff. eauto.
Defined.



(** The pieces together: one worker on files, with a stand-in solver that
    answers in 2.5 ms, measured as 2 ms.  Satisfiable everywhere: the
    first candidate sets the bound to the sum of five times 2 ms, and the
    second completes without lowering it. *)
Example worker_on_files_sat :
  map (fun r => (how r, stages_run (final r), bound_before r, bound_after r))
    (worker_loop (stage_on_world (toy_solver sat_log 2500000) 7) parity_dist 2
       (start_worker 0 (World all_templates 0)))
  = [(Completed, stages, double_of_Z (-1), elapsed_time_sec 10);
     (Completed, stages, elapsed_time_sec 10, elapsed_time_sec 10)].
Proof. vm_compute. reflexivity. Qed.

(** Unsatisfiable everywhere: abandoned at stage 6, the fourth such verdict. *)
Example worker_on_files_unsat :
  map (fun r => (how r, stages_run (final r), unsat_inst (final r), bound_after r))
    (worker_loop (stage_on_world (toy_solver unsat_log 2500000) 7) parity_dist 1
       (start_worker 0 (World all_templates 0)))
  = [(Abandoned TooManyUnsat 6, [3; 4; 5; 6], 4, double_of_Z (-1))].
Proof. vm_compute. reflexivity. Qed.

(** Without templates the first stage ends the process. *)
Example worker_without_templates :
  candidate_turn (stage_on_world (toy_solver sat_log 2500000) 7) parity_dist
    (start_worker 0 (World ∅ 0))
  = Fail Aborted.
Proof. vm_compute. reflexivity. Qed.

(** Sums of run times are rounded.  After stages of 9 ms and 18 ms the
    cumulative run time is 0.026999999999999996, below the 0.027 of one
    stage of 27 ms: a bound of 27 ms does not prune the next stage, and a
    candidate with these times is a discovery after one that took 27 ms.
    100 ms and 200 ms add up to more than 300 ms. *)
Example rounded_sum_below_bound :
  (double_add (elapsed_time_sec 9) (elapsed_time_sec 18) < elapsed_time_sec 27)%D
  /\ prune_check (elapsed_time_sec 27) (double_add (elapsed_time_sec 9) (elapsed_time_sec 18))
     = false
  /\ (elapsed_time_sec 300 < double_add (elapsed_time_sec 100) (elapsed_time_sec 200))%D
  /\ map (fun r => (how r, stages_run (final r), bound_before r, bound_after r))
       (worker_loop scripted_oracle parity_dist 2
          (start_worker 0 [27; 0; 0; 0; 0; 9; 18; 0; 0; 0]))
     = [(Completed, stages, double_of_Z (-1), elapsed_time_sec 27);
        (Completed, stages, elapsed_time_sec 27,
         double_add (elapsed_time_sec 9) (elapsed_time_sec 18))].
Proof. vm_compute. auto. Qed.

(** * More properties of the program *)

(** ** Numerals *)

Lemma uint_val_string (d : Decimal.uint) (rest : string) (acc : Z) :
  isdigit (first_char rest) = false ->
  read_digits_from (NilEmpty.string_of_uint d +:+ rest) acc = uint_val d acc.
Proof.
  intros Hrest. revert acc.
  induction d as [|d IH|d IH|d IH|d IH|d IH|d IH|d IH|d IH|d IH|d IH]; intros acc;
    cbn [NilEmpty.string_of_uint uint_val]; rewrite ?string_app_cons;
    try (cbn [read_digits_from]; change (isdigit _) with true; cbn iota; apply IH).
  rewrite string_app_nil_l. destruct rest as [|c rest]; [reflexivity|].
  cbn [first_char] in Hrest. cbn [read_digits_from]. now rewrite Hrest.
Qed.

Lemma uint_val_acc (d : Decimal.uint) (acc : positive) :
  Z.pos (Pos.of_uint_acc d acc) = uint_val d (Z.pos acc).
Proof.
  revert acc.
  induction d as [|d IH|d IH|d IH|d IH|d IH|d IH|d IH|d IH|d IH|d IH]; intros acc;
    cbn [Pos.of_uint_acc uint_val]; [reflexivity | rewrite IH; f_equal; lia ..].
Qed.

Lemma uint_val_of_uint (d : Decimal.uint) : Z.of_N (Pos.of_uint d) = uint_val d 0.
Proof.
  induction d as [|d IH|d IH|d IH|d IH|d IH|d IH|d IH|d IH|d IH|d IH];
    cbn [Pos.of_uint uint_val]; [reflexivity | exact IH | cbn [Z.of_N]; apply uint_val_acc ..].
Qed.

Lemma to_string_nil_empty (n : Z) :
  to_string n = NilEmpty.string_of_uint (N.to_uint (Z.to_N n)).
Proof.
  unfold to_string, NilZero.string_of_uint.
  destruct (N.to_uint (Z.to_N n)) eqn:E; try reflexivity.
  destruct (Z.to_N n); [discriminate|].
  exfalso. exact (DecimalPos.Unsigned.to_uint_nonnil _ E).
Qed.

(** Reading back a printed number: the digits of [to_string n], followed
    by something that is no digit, are worth [n]. *)
Lemma read_digits_to_string (n : Z) (rest : string) :
  0 <= n -> isdigit (first_char rest) = false ->
  read_digits_from (to_string n +:+ rest) 0 = n.
Proof.
  intros Hn Hrest. rewrite to_string_nil_empty, uint_val_string by assumption.
  rewrite <- uint_val_of_uint.
  change (Pos.of_uint (N.to_uint (Z.to_N n))) with (N.of_uint (N.to_uint (Z.to_N n))).
  rewrite DecimalN.Unsigned.of_to. lia.
Qed.

Lemma all_digits_uint (d : Decimal.uint) : all_digits (NilEmpty.string_of_uint d) = true.
Proof.
  induction d as [|d IH|d IH|d IH|d IH|d IH|d IH|d IH|d IH|d IH|d IH];
    [reflexivity | exact IH ..].
Qed.

Lemma to_string_digits (n : Z) :
  all_digits (to_string n) = true /\ isdigit (first_char (to_string n)) = true.
Proof.
  split; [rewrite to_string_nil_empty; apply all_digits_uint|].
  unfold to_string, NilZero.string_of_uint.
  destruct (N.to_uint (Z.to_N n)); reflexivity.
Qed.

(** Digits followed by something that is no digit: the split is unique. *)
Lemma digits_split (d d' r r' : string) :
  all_digits d = true -> all_digits d' = true ->
  isdigit (first_char r) = false -> isdigit (first_char r') = false ->
  d +:+ r = d' +:+ r' -> d = d' /\ r = r'.
Proof.
  revert d'. induction d as [|c d IH]; intros d' Hd Hd' Hr Hr' E.
  - destruct d' as [|c' d']; [auto|].
    rewrite string_app_nil_l, string_app_cons in E. subst r.
    cbn [first_char] in Hr. cbn in Hd'. apply andb_prop in Hd' as [Hc' _]. congruence.
  - destruct d' as [|c' d'].
    + rewrite string_app_nil_l, string_app_cons in E. subst r'.
      cbn [first_char] in Hr'. cbn in Hd. apply andb_prop in Hd as [Hc _]. congruence.
    + rewrite !string_app_cons in E. injection E as -> E.
      cbn in Hd, Hd'. apply andb_prop in Hd as [_ Hd]. apply andb_prop in Hd' as [_ Hd'].
      destruct (IH d' Hd Hd' Hr Hr' E) as [-> ->]. auto.
Qed.

Lemma to_string_inj (n m : Z) : 0 <= n -> 0 <= m -> to_string n = to_string m -> n = m.
Proof.
  intros Hn Hm E.
  rewrite <- (read_digits_to_string n "" Hn eq_refl), <- (read_digits_to_string m "" Hm eq_refl).
  now rewrite E.
Qed.

Lemma string_app_inv_head (a b c : string) : a +:+ b = a +:+ c -> b = c.
Proof.
  induction a as [|x a IH]; [now rewrite !string_app_nil_l|].
  rewrite !string_app_cons. intros E. injection E as E. auto.
Qed.

(** Numbers printed in front of two texts that start with no digit. *)
Lemma to_string_split (n m : Z) (r r' : string) :
  isdigit (first_char r) = false -> isdigit (first_char r') = false ->
  to_string n +:+ r = to_string m +:+ r' -> to_string n = to_string m /\ r = r'.
Proof.
  intros Hr Hr'. apply digits_split; try assumption; apply to_string_digits.
Qed.

(** ** File names *)

Lemma rand_cnf_name_inj (operat_num operat_num' seed seed' : Z) :
  0 <= operat_num -> 0 <= operat_num' -> 0 <= seed -> 0 <= seed' ->
  rand_cnf_name operat_num seed = rand_cnf_name operat_num' seed' ->
  operat_num = operat_num' /\ seed = seed'.
Proof.
  intros Ho Ho' Hs Hs' E. unfold rand_cnf_name in E.
  apply string_app_inv_head in E.
  apply to_string_split in E as [Eo E]; [|reflexivity ..].
  apply string_app_inv_head in E. apply (string_app_inv_head "_hashlen512_seed") in E.
  apply to_string_split in E as [Es _]; [|reflexivity ..].
  split; apply to_string_inj; assumption.
Qed.

Lemma log_name_inj (seed seed' : Z) :
  0 <= seed -> 0 <= seed' -> log_name seed = log_name seed' -> seed = seed'.
Proof.
  intros Hs Hs' E. unfold log_name in E.
  apply string_app_inv_head in E. now apply to_string_inj.
Qed.

Lemma rand_cnf_name_not_template (operat_num seed operat_num' : Z) :
  rand_cnf_name operat_num seed <> template_name operat_num'.
Proof.
  unfold rand_cnf_name, template_name. intros E.
  apply string_app_inv_head in E.
  apply to_string_split in E as [_ E]; [|reflexivity ..].
  apply string_app_inv_head in E. discriminate.
Qed.

Lemma log_name_not_cnf (seed operat_num seed' : Z) :
  log_name seed <> template_name operat_num
  /\ log_name seed <> rand_cnf_name operat_num seed'.
Proof. split; intros E; discriminate. Qed.

Lemma output_fname_inj (i i' : Z) :
  0 <= i -> 0 <= i' -> output_fname i = output_fname i' -> i = i'.
Proof.
  intros Hi Hi' E. unfold output_fname in E.
  apply string_app_inv_head in E. now apply to_string_inj.
Qed.

Lemma output_fname_not_input (i operat_num seed : Z) :
  output_fname i <> template_name operat_num
  /\ output_fname i <> rand_cnf_name operat_num seed
  /\ output_fname i <> log_name seed.
Proof. repeat split; intros E; discriminate. Qed.

(** ** Templates *)

Lemma last_cons_default {A : Type} (x : A) (l : list A) :
  last (x :: l) = Some (default x (last l)).
Proof.
  revert x. induction l as [|y l IH]; intros x; [reflexivity|].
  change (last (x :: y :: l)) with (last (y :: l)). rewrite IH. reflexivity.
Qed.

Lemma read_template_filter (lines : list string) (var_num : Z) (base_clauses : list string) :
  read_template lines var_num base_clauses
  = (match last (List.filter is_p_line lines) with
     | Some str => parse_p_line str
     | None => var_num
     end,
     base_clauses ++ List.filter is_clause_line lines).
Proof.
  revert var_num base_clauses.
  induction lines as [|str lines IH]; intros var_num base_clauses.
  - cbn. now rewrite app_nil_r.
  - cbn [read_template List.filter].
    destruct (Ascii.eqb (first_char str) "c") eqn:Ec.
    { assert (Hp : is_p_line str = false) by (unfold is_p_line; now rewrite Ec).
      assert (Hc : is_clause_line str = false) by (unfold is_clause_line; now rewrite Ec).
      rewrite Hp, Hc. apply IH. }
    destruct (Ascii.eqb (first_char str) "p") eqn:Ep.
    { assert (Hp : is_p_line str = true) by (unfold is_p_line; now rewrite Ec, Ep).
      assert (Hc : is_clause_line str = false) by (unfold is_clause_line; now rewrite Ec, Ep).
      rewrite Hp, Hc, IH, last_cons_default.
      destruct (last (List.filter is_p_line lines)); reflexivity. }
    assert (Hp : is_p_line str = false) by (unfold is_p_line; now rewrite Ec, Ep).
    assert (Hc : is_clause_line str = true) by (unfold is_clause_line; now rewrite Ec, Ep).
    rewrite Hp, Hc, IH, <- app_assoc. reflexivity.
Qed.

Lemma isdigit_first (s : string) :
  isdigit (first_char s) = true -> exists c s', s = String c s' /\ isdigit c = true.
Proof. destruct s as [|c s']; [discriminate | eauto]. Qed.

Lemma take_word_digits (d rest : string) :
  all_digits d = true -> isspace (first_char rest) = true \/ rest = "" ->
  take_word (d +:+ rest) = (d, rest).
Proof.
  intros Hd Hrest. induction d as [|c d IH].
  - rewrite string_app_nil_l. destruct Hrest as [Hsp | ->]; [|reflexivity].
    destruct rest as [|x rest]; [reflexivity|]. cbn [first_char] in Hsp.
    cbn [take_word]. now rewrite Hsp.
  - cbn in Hd. apply andb_prop in Hd as [Hc Hd].
    rewrite string_app_cons. cbn [take_word].
    destruct (isdigit_plain c Hc) as (-> & _). now rewrite (IH Hd).
Qed.

(** A printed number read back as an [unsigned]: itself, up to the
    largest [unsigned]. *)
Lemma extract_unsigned_numeral (v : Z) :
  0 <= v -> extract_unsigned (to_string v) = Z.min v UINT_MAX.
Proof.
  intros Hv. destruct (to_string_digits v) as [_ Hfirst].
  pose proof (read_digits_to_string v "" Hv eq_refl) as Hread.
  rewrite string_app_nil_r in Hread.
  unfold extract_unsigned, read_digits.
  destruct (isdigit_first _ Hfirst) as (c & s' & E & Hc). rewrite E in *.
  destruct (isdigit_plain c Hc) as (Hspace & Hminus & Hplus).
  cbn [skip_ws]. rewrite Hspace. cbn [read_sign]. rewrite Hminus, Hplus.
  cbn [first_char]. rewrite Hc, Hread.
  destruct (Z.ltb_spec UINT_MAX v); lia.
Qed.

(** The third word of a header line is the one read as the variable count. *)
Lemma parse_p_line_third_word (word count : string) :
  all_digits word = true -> isdigit (first_char word) = true ->
  parse_p_line ("p cnf " +:+ word +:+ " " +:+ count) = extract_unsigned word.
Proof.
  intros Hall Hfirst.
  destruct (isdigit_first _ Hfirst) as (c & s' & E & Hc).
  destruct (isdigit_plain c Hc) as (Hspace & _).
  assert (Hword : take_word (word +:+ " " +:+ count) = (word, " " +:+ count)).
  { apply take_word_digits; [exact Hall | left; reflexivity]. }
  assert (Hskip : skip_ws (word +:+ " " +:+ count) = word +:+ " " +:+ count).
  { rewrite E, string_app_cons. cbn [skip_ws]. now rewrite Hspace. }
  set (X := word +:+ " " +:+ count) in *.
  assert (H1 : extract_word ("p cnf " +:+ X) "" = (" cnf " +:+ X, "p")) by reflexivity.
  assert (H2 : extract_word (" cnf " +:+ X) "p" = (" " +:+ X, "cnf")) by reflexivity.
  assert (H3 : extract_word (" " +:+ X) "cnf" = (" " +:+ count, word)).
  { unfold extract_word. change (skip_ws (" " +:+ X)) with (skip_ws X). rewrite Hskip.
    assert (Hne : exists x y, X = String x y).
    { subst X. rewrite E, string_app_cons. eauto. }
    destruct Hne as (x & y & Hxy). rewrite Hxy. cbn iota. rewrite <- Hxy, Hword. reflexivity. }
  unfold parse_p_line. now rewrite H1, H2, H3.
Qed.

(** The header that [gen_rand_cnf] writes, read by its own reader. *)
Lemma parse_p_line_header (v : Z) (count : string) :
  0 <= v -> parse_p_line ("p cnf " +:+ to_string v +:+ " " +:+ count) = Z.min v UINT_MAX.
Proof.
  intros Hv. destruct (to_string_digits v) as [Hall Hfirst].
  rewrite parse_p_line_third_word by assumption. now apply extract_unsigned_numeral.
Qed.

Lemma digit_clause_line (c : ascii) (s : string) :
  isdigit c = true -> is_clause_line (String c s) = true.
Proof.
  unfold is_clause_line. cbn [first_char].
  destruct c as [[] [] [] [] [] [] [] []]; cbv; intros H; try discriminate; reflexivity.
Qed.

Lemma unit_clauses_clause_lines (var_num size i : Z) (rest : string) :
  Forall (fun str => is_clause_line str = true) (unit_clauses var_num size i rest).
Proof.
  revert i. induction rest as [|c rest IH]; intros i; cbn [unit_clauses]; constructor; [|apply IH].
  destruct (to_string_digits (wrap64 (var_num - size + 1 + i))) as [_ Hfirst].
  destruct (isdigit_first _ Hfirst) as (x & s' & E & Hx). rewrite E.
  destruct (Ascii.eqb c "0"); [reflexivity|].
  rewrite string_app_nil_l, string_app_cons. now apply digit_clause_line.
Qed.

Lemma clause_lines_filter (lines : list string) :
  Forall (fun str => is_clause_line str = true) lines ->
  List.filter is_clause_line lines = lines /\ List.filter is_p_line lines = [].
Proof.
  induction 1 as [|str lines Hstr _ [IHc IHp]]; [auto|].
  cbn [List.filter]. rewrite Hstr, IHc, IHp.
  assert (Hp : is_p_line str = false).
  { unfold is_clause_line, is_p_line in *.
    destruct (Ascii.eqb (first_char str) "c"), (Ascii.eqb (first_char str) "p");
      try reflexivity; discriminate. }
  now rewrite Hp.
Qed.

Lemma template_clauses_clause_lines (fs : files) (operat_num : Z) :
  Forall (fun str => is_clause_line str = true) (template_clauses fs operat_num).
Proof.
  unfold template_clauses, template. rewrite read_template_filter. cbn [snd app].
  apply List.Forall_forall. intros str Hin. apply filter_In in Hin. tauto.
Qed.

(** A call of [gen_rand_cnf] that returns: both assertions held, and the
    instance went into the file named after the stage and the seed. *)
Lemma gen_rand_cnf_inv
  (fs : files) (rand_output : string) (operat_num seed : Z) (name : string) (fs' : files) :
  gen_rand_cnf rand_output operat_num seed fs = Ret (name, fs') ->
  0 < declared_variables fs operat_num
  /\ template_clauses fs operat_num <> []
  /\ name = rand_cnf_name operat_num seed
  /\ fs' = <[rand_cnf_name operat_num seed :=
              ("p cnf " +:+ to_string (declared_variables fs operat_num) +:+ " "
                 +:+ to_string (Z.of_nat (length (template_clauses fs operat_num))
                                + Z.of_nat (String.length rand_output)))
                :: template_clauses fs operat_num
                ++ unit_clauses (declared_variables fs operat_num)
                     (Z.of_nat (String.length rand_output)) 0 rand_output]> fs.
Proof.
  intros Hgen.
  assert (HV : 0 < declared_variables fs operat_num).
  { destruct (Z.ltb_spec 0 (declared_variables fs operat_num)) as [H | H]; [exact H|].
    pose proof (declared_variables_range fs operat_num) as Hrange.
    rewrite gen_rand_cnf_aborts_without_variables in Hgen by lia. discriminate. }
  assert (HC : template_clauses fs operat_num <> []).
  { intros E. rewrite gen_rand_cnf_aborts_without_clauses in Hgen by exact E. discriminate. }
  rewrite gen_rand_cnf_returns in Hgen by assumption.
  injection Hgen as <- <-. auto.
Qed.

(** A template is read the same before and after a call of [gen_rand_cnf]. *)
Lemma gen_rand_cnf_keeps_templates
  (fs : files) (rand_output : string) (operat_num seed : Z) (name : string) (fs' : files) :
  gen_rand_cnf rand_output operat_num seed fs = Ret (name, fs') ->
  forall n : Z, fs' !! template_name n = fs !! template_name n.
Proof.
  intros Hgen n. apply gen_rand_cnf_inv in Hgen as (_ & _ & _ & ->).
  apply lookup_insert_ne. apply rand_cnf_name_not_template.
Qed.

(** X4.  The template reader keeps as clauses exactly the lines that start
    with neither c nor p, in the order of the file, the empty lines among
    them; the variable count is the one of the last line that starts with
    p, and 0 when there is none. *)
Theorem read_template_lines (lines : list string) :
  read_template lines 0 []
  = (match last (List.filter is_p_line lines) with
     | Some str => parse_p_line str
     | None => 0
     end,
     List.filter is_clause_line lines).
Proof. apply read_template_filter. Qed.

(** X6.  The instance that [gen_rand_cnf] has written is read back by its
    own template reader: the variable count read is the template's, every
    line after the header is read as a clause, and their number is the
    clause count printed in the header, the template's count plus the
    length of the candidate. *)
Theorem gen_rand_cnf_reread
  (fs : files) (rand_output : string) (operat_num seed : Z) (name : string) (fs' : files) :
  gen_rand_cnf rand_output operat_num seed fs = Ret (name, fs') ->
  exists (header : string) (body : list string),
    fs' !! name = Some (header :: body)
    /\ read_template (header :: body) 0 [] = (declared_variables fs operat_num, body)
    /\ header = "p cnf " +:+ to_string (declared_variables fs operat_num) +:+ " "
                  +:+ to_string (Z.of_nat (length body))
    /\ length body
       = (length (template_clauses fs operat_num) + String.length rand_output)%nat.
Proof.
  intros Hgen. apply gen_rand_cnf_inv in Hgen as (HV & _ & -> & ->).
  pose proof (declared_variables_range fs operat_num) as Hrange.
  set (V := declared_variables fs operat_num) in *.
  set (clauses := template_clauses fs operat_num) in *.
  set (units := unit_clauses V (Z.of_nat (String.length rand_output)) 0 rand_output).
  assert (Hlen : length (clauses ++ units)
                 = (length clauses + String.length rand_output)%nat).
  { subst units. now rewrite length_app, unit_clauses_length. }
  assert (Hbody : Forall (fun str => is_clause_line str = true) (clauses ++ units)).
  { apply Forall_app. split;
      [apply template_clauses_clause_lines | apply unit_clauses_clause_lines]. }
  destruct (clause_lines_filter _ Hbody) as [Hkeep Hnop].
  eexists _, (clauses ++ units).
  split; [apply lookup_insert_eq|]. split; [|split; [|exact Hlen]].
  - rewrite read_template_filter. cbn [List.filter].
    change (is_p_line ("p cnf " +:+ _)) with true.
    change (is_clause_line ("p cnf " +:+ _)) with false. cbn iota.
    rewrite Hkeep, Hnop. cbn [last app]. f_equal.
    rewrite parse_p_line_header by lia. unfold UINT_MAX. lia.
  - rewrite Hlen, Nat2Z.inj_add. reflexivity.
Qed.

(** X7.  A call of [gen_rand_cnf] that returns has changed one file, the
    instance named after the stage and the seed: every other file is as it
    was, the five templates and the solver logs among them, so the
    templates are read the same afterwards. *)
Theorem gen_rand_cnf_frame
  (fs : files) (rand_output : string) (operat_num seed : Z) (name : string) (fs' : files) :
  gen_rand_cnf rand_output operat_num seed fs = Ret (name, fs') ->
  name = rand_cnf_name operat_num seed
  /\ (forall f : string, f <> name -> fs' !! f = fs !! f)
  /\ (forall n : Z, fs' !! template_name n = fs !! template_name n)
  /\ (forall n : Z, template fs' n = template fs n)
  /\ (forall i : Z, fs' !! log_name i = fs !! log_name i).
Proof.
  intros Hgen. pose proof (gen_rand_cnf_keeps_templates _ _ _ _ _ _ Hgen) as Hkeep.
  apply gen_rand_cnf_inv in Hgen as (_ & _ & -> & ->).
  split; [reflexivity|]. split; [|split; [exact Hkeep | split]].
  - intros f Hf. now apply lookup_insert_ne.
  - intros n. unfold template. now rewrite Hkeep.
  - intros i. apply lookup_insert_ne. intros E. symmetry in E.
    now apply (proj2 (log_name_not_cnf i operat_num seed)) in E.
Qed.

(** X10.  Different stages or different seeds give different instance
    files, and different seeds give different solver logs and different
    output files; no instance, log or output file has the name of a
    template or of a file of another kind.  So workers with different
    seeds write disjoint sets of files, and none writes a template. *)
Theorem worker_files_apart (operat_num operat_num' seed seed' : Z) :
  0 <= operat_num -> 0 <= operat_num' -> 0 <= seed -> 0 <= seed' ->
  (rand_cnf_name operat_num seed = rand_cnf_name operat_num' seed' ->
   operat_num = operat_num' /\ seed = seed')
  /\ (log_name seed = log_name seed' -> seed = seed')
  /\ (output_fname seed = output_fname seed' -> seed = seed')
  /\ rand_cnf_name operat_num seed <> template_name operat_num'
  /\ log_name seed <> template_name operat_num'
  /\ log_name seed <> rand_cnf_name operat_num' seed'
  /\ output_fname seed <> template_name operat_num'
  /\ output_fname seed <> rand_cnf_name operat_num' seed'
  /\ output_fname seed <> log_name seed'.
Proof.
  intros Ho Ho' Hs Hs'.
  split; [now apply rand_cnf_name_inj|]. split; [now apply log_name_inj|].
  split; [now apply output_fname_inj|].
  split; [apply rand_cnf_name_not_template|].
  split; [apply log_name_not_cnf; exact 0|]. split; [apply log_name_not_cnf|].
  apply output_fname_not_input.
Qed.

Lemma worker_files_apart_witness :
  (rand_cnf_name 3 0 = rand_cnf_name 7 11 -> 3 = 7 /\ 0 = 11)
  /\ (log_name 0 = log_name 11 -> 0 = 11)
  /\ (output_fname 0 = output_fname 11 -> 0 = 11)
  /\ rand_cnf_name 3 0 <> template_name 7
  /\ log_name 0 <> template_name 7
  /\ log_name 0 <> rand_cnf_name 7 11
  /\ output_fname 0 <> template_name 7
  /\ output_fname 0 <> rand_cnf_name 7 11
  /\ output_fname 0 <> log_name 11.
Proof. apply (worker_files_apart 3 7 0 11); lia. Defined.

Lemma sample_instance_written (cand : string) :
  exists fs' : files,
    gen_rand_cnf cand 3 7 (sample_files 600 50) = Ret (rand_cnf_name 3 7, fs').
Proof.
  eexists. apply gen_rand_cnf_returns; [vm_compute; reflexivity | vm_compute; discriminate].
Qed.

Lemma gen_rand_cnf_reread_witness :
  exists (fs' : files) (header : string) (body : list string),
    gen_rand_cnf sample_candidate 3 7 (sample_files 600 50) = Ret (rand_cnf_name 3 7, fs')
    /\ fs' !! rand_cnf_name 3 7 = Some (header :: body)
    /\ read_template (header :: body) 0 [] = (600, body)
    /\ header = "p cnf 600 562"
    /\ length body = 562%nat.
Proof.
  destruct (sample_instance_written sample_candidate) as [fs' E].
  destruct (gen_rand_cnf_reread _ _ _ _ _ _ E) as (header & body & Hfile & Hread & Hhead & Hlen).
  exists fs', header, body. split; [exact E|].
  assert (HV : declared_variables (sample_files 600 50) 3 = 600) by (vm_compute; reflexivity).
  assert (HC : length (template_clauses (sample_files 600 50) 3) = 50%nat)
    by (vm_compute; reflexivity).
  rewrite HV in Hread, Hhead. rewrite HC in Hlen.
  change (String.length sample_candidate) with 512%nat in Hlen.
  split; [exact Hfile|]. split; [exact Hread|]. split; [|exact Hlen].
  rewrite Hhead, Hlen. reflexivity.
Defined.

Lemma gen_rand_cnf_frame_witness :
  exists fs' : files,
    gen_rand_cnf sample_candidate 3 7 (sample_files 600 50) = Ret (rand_cnf_name 3 7, fs')
    /\ fs' !! template_name 3 = Some (sample_template 600 50)
    /\ fs' !! log_name 7 = None.
Proof.
  destruct (sample_instance_written sample_candidate) as [fs' E].
  destruct (gen_rand_cnf_frame _ _ _ _ _ _ E) as (_ & _ & Htemplates & _ & Hlogs).
  exists fs'. split; [exact E|].
  rewrite Htemplates, Hlogs. split; reflexivity.
Defined.

(** ** Solver calls *)

Lemma time_limit_cases (operat_num : Z) :
  3 <= operat_num <= 7 ->
  (operat_num = 3 /\ time_limit operat_num = 3)
  \/ (operat_num = 4 /\ time_limit operat_num = 4)
  \/ (operat_num = 5 /\ time_limit operat_num = 5)
  \/ (operat_num = 6 /\ time_limit operat_num = 20)
  \/ (operat_num = 7 /\ time_limit operat_num = 30).
Proof.
  intros H.
  assert (Hcases : operat_num = 3 \/ operat_num = 4 \/ operat_num = 5
                   \/ operat_num = 6 \/ operat_num = 7) by lia.
  destruct Hcases as [-> | [-> | [-> | [-> | ->]]]]; auto 10.
Qed.

(** [solve_cnf] for a stage in range: the command is run and the log read. *)
Lemma solve_cnf_in_range
  (exec : string -> world -> world) (cnf_name : string) (operat_num seed : Z) (w : world) :
  3 <= operat_num <= 7 ->
  solve_cnf exec cnf_name operat_num seed w
  = (let w' := exec (solver_command operat_num cnf_name seed) w in
     match w_files w' !! log_name seed with
     | Some lines => Ret (scan_result lines, w')
     | None => Fail (Exited EXIT_FAILURE (not_opened (log_name seed)))
     end).
Proof.
  intros H. unfold solve_cnf.
  assert (Hrange : ((3 <=? operat_num) && (operat_num <=? 7)) = true).
  { apply andb_true_intro. split; apply Z.leb_le; lia. }
  rewrite Hrange. cbn [assert mbind outcome_bind].
  change (nth (Z.to_nat (operat_num - 3)) MAX_LIMITS_SEC 0) with (time_limit operat_num).
  assert (Hlim : (0 <? time_limit operat_num) = true).
  { apply Z.ltb_lt. destruct (time_limit_cases operat_num H)
      as [[_ ->] | [[_ ->] | [[_ ->] | [[_ ->] | [_ ->]]]]]; lia. }
  rewrite Hlim. cbn [assert mbind outcome_bind]. cbn zeta.
  unfold read_solver_result, solver_command, log_name.
  destruct (w_files _ !! _); reflexivity.
Qed.

Lemma solve_cnf_out_of_range
  (exec : string -> world -> world) (cnf_name : string) (operat_num seed : Z) (w : world) :
  operat_num < 3 \/ 7 < operat_num ->
  solve_cnf exec cnf_name operat_num seed w = Fail Aborted.
Proof.
  intros H. unfold solve_cnf.
  assert (Hrange : ((3 <=? operat_num) && (operat_num <=? 7)) = false).
  { apply andb_false_iff. destruct H; [left; apply Z.leb_gt | right; apply Z.leb_gt]; lia. }
  now rewrite Hrange.
Qed.

(** X11.  [solve_cnf] fails an assertion exactly for a stage outside
    [3,7]; for a stage in range the assertion on the time limit holds (the
    limits are 3, 4, 5, 20 and 30 seconds), the solver is run once on the
    instance with its output redirected to the log of the seed, and the
    verdict is read from that log as the command has left it; with no log
    the process exits with the failure status. *)
Theorem solve_cnf_cases
  (exec : string -> world -> world) (cnf_name : string) (operat_num seed : Z) (w : world) :
  (solve_cnf exec cnf_name operat_num seed w = Fail Aborted
   <-> operat_num < 3 \/ 7 < operat_num)
  /\ (3 <= operat_num <= 7 ->
      time_limit operat_num ∈ [3; 4; 5; 20; 30]
      /\ let w' := exec (solver_command operat_num cnf_name seed) w in
         match w_files w' !! log_name seed with
         | Some lines =>
             solve_cnf exec cnf_name operat_num seed w = Ret (scan_result lines, w')
         | None =>
             solve_cnf exec cnf_name operat_num seed w
             = Fail (Exited EXIT_FAILURE (not_opened (log_name seed)))
         end).
Proof.
  split; [split|].
  - intros Hfail.
    destruct (Z.lt_ge_cases operat_num 3) as [|H3]; [auto|].
    destruct (Z.lt_ge_cases 7 operat_num) as [|H7]; [auto|].
    rewrite solve_cnf_in_range in Hfail by lia. cbn zeta in Hfail.
    destruct (w_files _ !! _); discriminate.
  - apply solve_cnf_out_of_range.
  - intros H. split.
    + destruct (time_limit_cases operat_num H)
        as [[_ ->] | [[_ ->] | [[_ ->] | [[_ ->] | [_ ->]]]]]; repeat constructor.
    + rewrite solve_cnf_in_range by exact H. cbn zeta.
      destruct (w_files _ !! _); reflexivity.
Qed.

(** X12.  The run time of a stage is never negative and stays below
    2^32 ms (as doubles: below the quotient of 2^32 by 1000); it is the
    quotient by 1000 of a millisecond count in [0, 2^32): the count is
    kept in an [unsigned], so a count in [0, 2^32) is measured as it is,
    a negative one (the system clock was set back during the call) as
    2^32 ms more, and counts 2^32 ms apart are measured the same. *)
Theorem elapsed_time_sec_wraps (count : Z) :
  (double_of_Z 0 <= elapsed_time_sec count)%D
  /\ (elapsed_time_sec count < double_div (double_of_Z (2 ^ 32)) (double_of_Z 1000))%D
  /\ (exists time_millisec : Z,
        0 <= time_millisec < 2 ^ 32
        /\ (time_millisec - count) mod 2 ^ 32 = 0
        /\ elapsed_time_sec count
           = double_div (double_of_Z time_millisec) (double_of_Z 1000))
  /\ elapsed_time_sec (count + 2 ^ 32) = elapsed_time_sec count
  /\ (0 <= count < 2 ^ 32 ->
      elapsed_time_sec count = double_div (double_of_Z count) (double_of_Z 1000))
  /\ (- 2 ^ 32 <= count < 0 ->
      elapsed_time_sec count
      = double_div (double_of_Z (count + 2 ^ 32)) (double_of_Z 1000)).
Proof.
  pose proof (wrap32_range count) as Hmod.
  split; [apply elapsed_time_sec_nonneg|]. split; [apply elapsed_time_sec_below|].
  split; [|split; [|split]].
  - exists (wrap32 count). split; [exact Hmod|]. split; [|reflexivity].
    unfold wrap32. rewrite Zminus_mod_idemp_l, Z.sub_diag. reflexivity.
  - unfold elapsed_time_sec, wrap32. cbn zeta. do 2 f_equal.
    rewrite <- (Z.mul_1_l (2 ^ 32)) at 1. apply Z.mod_add. lia.
  - intros H. unfold elapsed_time_sec, wrap32. cbn zeta. now rewrite Z.mod_small.
  - intros H. unfold elapsed_time_sec, wrap32. cbn zeta. do 2 f_equal.
    rewrite <- (Z.mod_add count 1 (2 ^ 32)) by lia.
    rewrite Z.mul_1_l. apply Z.mod_small. lia.
Qed.

(** ** Runs without failure *)

Section SafeRuns.

Context {S rng_t : Type}.
Variable run_stage : string -> Z -> S -> outcome (result * Z * S).
Variable dist : rng_t -> Z * rng_t.
Variable P : S -> Prop.

(** Every stage in [3,7] returns from a state where [P] holds, into one. *)
Hypothesis stage_returns :
  forall (cand : string) (n : Z) (s : S),
    3 <= n <= 7 -> P s ->
    exists (res : result) (count : Z) (s' : S),
      run_stage cand n s = Ret (res, count, s') /\ P s'.

Hypothesis dist_bit : forall g : rng_t, (dist g).1 = 0 \/ (dist g).1 = 1.

Lemma step_safe (min_at : Z -> double) (cand : string) (c : config S) :
  invariant run_stage min_at cand c -> safe P c -> safe P (step run_stage min_at cand c).
Proof.
  destruct c as [n l | e l]; [|trivial].
  intros (Hn & _) HP. cbn [safe] in HP. cbn [step].
  destruct (negb (n <=? 7)) eqn:Hle; [exact HP|].
  apply negb_false_iff, Z.leb_le in Hle.
  destruct (prune_check _ _); [exact HP|].
  destruct (stage_returns cand n (outside l) ltac:(lia) HP) as (res & count & s' & -> & HP').
  destruct res; cbn [is_unsat];
    repeat match goal with
      | |- context [if ?b then _ else _] => destruct b
      end; exact HP'.
Qed.

Lemma evaluate_safe (min_at : Z -> double) (cand : string) (s : S) :
  P s ->
  exists (e : ending) (l : locals S),
    evaluate run_stage min_at cand s = Stopped e l
    /\ (forall f n, e <> Crashed f n) /\ P (outside l).
Proof.
  intros HP.
  assert (Hsafe : forall k, safe P (Nat.iter k (step run_stage min_at cand) (start s))).
  { induction k as [|k IH]; [exact HP|].
    rewrite Nat.iter_succ. apply step_safe; [apply invariant_iter | exact IH]. }
  destruct (evaluate_stopped run_stage min_at cand s) as (e & l & He).
  exists e, l. split; [exact He|].
  specialize (Hsafe 6%nat). unfold evaluate in He. rewrite He in Hsafe.
  destruct e as [| why n | f n]; cbn [safe] in Hsafe;
    [split; [discriminate | exact Hsafe] .. | contradiction].
Qed.

Lemma turn_safe (w : worker S rng_t) :
  P (surroundings w) ->
  exists (w' : worker S rng_t) (r : report S),
    candidate_turn run_stage dist w = Ret (w', r) /\ P (surroundings w').
Proof.
  intros HP. unfold candidate_turn, gen_rand_output.
  rewrite (rand_seq8_returns dist dist_bit (rng w)). cbn [mbind outcome_bind].
  destruct (evaluate_safe (fun _ => min_total_solving_runtime w)
              (concat_blocks (drawn_blocks dist 32 (rng w)).1) (surroundings w) HP)
    as (e & l & -> & Hnc & HP').
  destruct e as [| why n | f n]; [| |now destruct (Hnc f n)].
  - destruct (improves _ _); eauto.
  - eauto.
Qed.

Lemma loop_safe (k : nat) (w : worker S rng_t) :
  P (surroundings w) -> length (worker_loop run_stage dist k w) = k.
Proof.
  revert w. induction k as [|k IH]; intros w HP; [reflexivity|].
  rewrite loop_succ. destruct (turn_safe w HP) as (w' & r & -> & HP').
  cbn [length]. now rewrite IH.
Qed.

Lemma after_safe (k : nat) (w : worker S rng_t) :
  P (surroundings w) ->
  exists w' : worker S rng_t,
    worker_after run_stage dist k w = Ret w' /\ P (surroundings w').
Proof.
  revert w. induction k as [|k IH]; intros w HP; [eauto|].
  cbn [worker_after]. destruct (turn_safe w HP) as (w1 & r & -> & HP1).
  cbn [mbind outcome_bind]. now apply IH.
Qed.

End SafeRuns.

Lemma templates_ready_ext (fs fs' : files) :
  (forall n : Z, fs' !! template_name n = fs !! template_name n) ->
  templates_ready fs -> templates_ready fs'.
Proof.
  intros Hsame Hready n Hn. destruct (Hready n Hn) as [HV HC].
  unfold declared_variables, template_clauses, template in *. rewrite Hsame. auto.
Qed.

(** A stage on files: the instance is written, the solver run, the log
    read, and the templates are as before. *)
Lemma stage_on_world_ready
  (exec : string -> world -> world) (seed : Z) (cand : string) (n : Z) (w : world) :
  solver_behaves exec seed -> 3 <= n <= 7 -> templates_ready (w_files w) ->
  exists (res : result) (count : Z) (w' : world),
    stage_on_world exec seed cand n w = Ret (res, count, w')
    /\ (forall m : Z, w_files w' !! template_name m = w_files w !! template_name m).
Proof.
  intros Hexec Hn Hready. destruct (Hready n Hn) as [HV HC].
  unfold stage_on_world. rewrite gen_rand_cnf_returns by assumption.
  cbn [mbind outcome_bind]. rewrite solve_cnf_in_range by exact Hn. cbn zeta.
  match goal with
  | |- context [exec ?cmd ?w0] =>
      destruct (Hexec n w0 Hn) as [[lines Hlog] Hkeep]
  end.
  cbn zeta in Hlog, Hkeep. rewrite Hlog. cbn [mbind outcome_bind].
  do 3 eexists. split; [reflexivity|].
  intros m. rewrite Hkeep. cbn [w_files].
  apply lookup_insert_ne, rand_cnf_name_not_template.
Qed.

Lemma toy_solver_behaves (log : list string) (ns : Z) :
  solver_behaves (toy_solver log ns) 7.
Proof.
  intros n w Hn. cbn zeta. unfold toy_solver. cbn [w_files].
  assert (Htarget : redirect_target (solver_command n (rand_cnf_name n 7) 7) = log_name 7).
  { assert (Hcases : n = 3 \/ n = 4 \/ n = 5 \/ n = 6 \/ n = 7) by lia.
    destruct Hcases as [-> | [-> | [-> | [-> | ->]]]]; vm_compute; reflexivity. }
  rewrite Htarget. split.
  - rewrite lookup_insert_eq. eauto.
  - intros m. apply lookup_insert_ne. apply log_name_not_cnf. exact 0.
Qed.

Lemma all_templates_ready : templates_ready all_templates.
Proof.
  intros n Hn.
  assert (Hcases : n = 3 \/ n = 4 \/ n = 5 \/ n = 6 \/ n = 7) by lia.
  destruct Hcases as [-> | [-> | [-> | [-> | ->]]]];
    (split; [vm_compute; reflexivity | vm_compute; discriminate]).
Qed.

(** X21.  With templates for the five stages that pass the assertions of
    [gen_rand_cnf], and a shell and solver that leave a log for each of the
    worker's command lines without touching the templates, no turn of the
    worker ends the process: each of the first [k] turns takes place, for
    every [k], and after them the templates are as they were at the
    start. *)
Theorem worker_keeps_going {rng_t : Type}
  (exec : string -> world -> world) (seed : Z) (dist : rng_t -> Z * rng_t)
  (seeded : rng_t) (w0 : world) (k : nat) :
  solver_behaves exec seed ->
  templates_ready (w_files w0) ->
  (forall g : rng_t, (dist g).1 = 0 \/ (dist g).1 = 1) ->
  length (worker_loop (stage_on_world exec seed) dist k (start_worker seeded w0)) = k
  /\ exists w' : worker world rng_t,
       worker_after (stage_on_world exec seed) dist k (start_worker seeded w0) = Ret w'
       /\ (forall n : Z,
             w_files (surroundings w') !! template_name n = w_files w0 !! template_name n).
Proof.
  intros Hexec Hready Hbit.
  set (P := fun w : world =>
              forall n : Z, w_files w !! template_name n = w_files w0 !! template_name n).
  assert (Hstage : forall (cand : string) (n : Z) (w : world),
             3 <= n <= 7 -> P w ->
             exists (res : result) (count : Z) (w' : world),
               stage_on_world exec seed cand n w = Ret (res, count, w') /\ P w').
  { intros cand n w Hn Hw.
    destruct (stage_on_world_ready exec seed cand n w Hexec Hn
                (templates_ready_ext _ _ Hw Hready)) as (res & count & w' & Hrun & Hkeep).
    exists res, count, w'. split; [exact Hrun|].
    intros m. now rewrite Hkeep. }
  assert (Hstart : P (surroundings (start_worker seeded w0))) by (intros n; reflexivity).
  split.
  - exact (loop_safe (stage_on_world exec seed) dist P Hstage Hbit k _ Hstart).
  - exact (after_safe (stage_on_world exec seed) dist P Hstage Hbit k _ Hstart).
Qed.

Lemma worker_keeps_going_witness :
  length (worker_loop (stage_on_world (toy_solver sat_log 2500000) 7) parity_dist 3
            (start_worker 0 (World all_templates 0))) = 3%nat
  /\ exists w' : worker world Z,
       worker_after (stage_on_world (toy_solver sat_log 2500000) 7) parity_dist 3
         (start_worker 0 (World all_templates 0)) = Ret w'
       /\ (forall n : Z,
             w_files (surroundings w') !! template_name n
             = w_files (World all_templates 0) !! template_name n).
Proof.
  apply worker_keeps_going.
  - apply toy_solver_behaves.
  - apply all_templates_ready.
  - apply parity_dist_bit.
Defined.

(** X22.  When the template of stage 3 is missing, declares no variable
    or holds no clause, the first candidate of a worker ends the process
    by a failed assertion, whatever the solver is: no turn is completed. *)
Theorem worker_needs_template {rng_t : Type}
  (exec : string -> world -> world) (seed : Z) (dist : rng_t -> Z * rng_t)
  (seeded : rng_t) (w0 : world) (k : nat) :
  (forall g : rng_t, (dist g).1 = 0 \/ (dist g).1 = 1) ->
  declared_variables (w_files w0) 3 = 0 \/ template_clauses (w_files w0) 3 = [] ->
  candidate_turn (stage_on_world exec seed) dist (start_worker seeded w0) = Fail Aborted
  /\ worker_loop (stage_on_world exec seed) dist k (start_worker seeded w0) = [].
Proof.
  intros Hbit Hbad.
  assert (Hturn : candidate_turn (stage_on_world exec seed) dist (start_worker seeded w0)
                  = Fail Aborted).
  { unfold candidate_turn, gen_rand_output.
    rewrite (rand_seq8_returns dist Hbit). cbn [mbind outcome_bind].
    unfold evaluate. change 6%nat with (Datatypes.S 5). rewrite Nat.iter_succ_r.
    unfold start at 1. cbn [step]. cbn [cur_total_runtime outside].
    change (negb (3 <=? 7)) with false. cbn iota.
    rewrite prune_check_zero.
    assert (Hstage : forall cand, stage_on_world exec seed cand 3 w0 = Fail Aborted).
    { intros cand. unfold stage_on_world.
      destruct Hbad as [HV | HC];
        [rewrite gen_rand_cnf_aborts_without_variables by exact HV
        | rewrite gen_rand_cnf_aborts_without_clauses by exact HC]; reflexivity. }
    cbn [start_worker surroundings]. rewrite Hstage, iter_stopped. reflexivity. }
  split; [exact Hturn|].
  destruct k as [|k]; [reflexivity|]. rewrite loop_succ, Hturn. reflexivity.
Qed.

Lemma worker_needs_template_witness :
  candidate_turn (stage_on_world (toy_solver sat_log 2500000) 7) parity_dist
    (start_worker 0 (World ∅ 0)) = Fail Aborted
  /\ worker_loop (stage_on_world (toy_solver sat_log 2500000) 7) parity_dist 5
       (start_worker 0 (World ∅ 0)) = [].
Proof.
  apply worker_needs_template.
  - apply parity_dist_bit.
  - left. reflexivity.
Defined.

(** ** Stage 3 on files *)

(** A stage in range on files, once its instance is written: the solver's
    command line is run on the files that hold the instance, and the
    verdict is read from the log the command has left. *)
Lemma stage_on_world_solves
  (exec : string -> world -> world) (seed : Z) (cand : string) (n : Z) (w : world)
  (fs : files) :
  3 <= n <= 7 ->
  gen_rand_cnf cand n seed (w_files w) = Ret (rand_cnf_name n seed, fs) ->
  stage_on_world exec seed cand n w
  = (let solved :=
       exec (solver_command n (rand_cnf_name n seed) seed) (World fs (w_now w)) in
     match w_files solved !! log_name seed with
     | Some lines =>
         Ret (scan_result lines, Z.quot (w_now solved - w_now w) 1000000, solved)
     | None => Fail (Exited EXIT_FAILURE (not_opened (log_name seed)))
     end).
Proof.
  intros Hn Hgen. unfold stage_on_world. rewrite Hgen. cbn [mbind outcome_bind].
  rewrite solve_cnf_in_range by exact Hn. cbn zeta. cbn [w_now].
  destruct (w_files _ !! _); reflexivity.
Qed.

(** C10, amended.  The test of line 245 cannot hold at stage 3: the
    cumulative run time is 0 on entry to stage 3 and the test needs a
    bound that is strictly positive and at most the cumulative run time,
    so no evaluation ends as pruned at stage 3.  When the stage-3 template
    passes the assertions of [gen_rand_cnf], the stage-3 instance of the
    candidate is written and the solver is run on it, and stage 3 is the
    first stage run of the evaluation (or the process exits there for
    want of a log); when the template does not pass them, the process is
    aborted at stage 3 with nothing run.  A bound of exactly 0 prunes at
    no stage. *)
Theorem stage_three_always_runs
  (exec : string -> world -> world) (seed : Z) (min_at : Z -> double)
  (rand_output : string) (w : world) :
  (forall l : locals world,
      reaches (stage_on_world exec seed) min_at rand_output w (AtStage 3 l) ->
      cur_total_runtime l = double_of_Z 0)
  /\ prune_check (min_at 3) (double_of_Z 0) = false
  /\ (exists (e : ending) (l : locals world),
        evaluate (stage_on_world exec seed) min_at rand_output w = Stopped e l
        /\ e <> Abandoned Pruned 3)
  /\ (0 < declared_variables (w_files w) 3 ->
      template_clauses (w_files w) 3 <> [] ->
      solved_at_three exec seed min_at rand_output w)
  /\ (declared_variables (w_files w) 3 = 0 \/ template_clauses (w_files w) 3 = [] ->
      evaluate (stage_on_world exec seed) min_at rand_output w
      = Stopped (Crashed Aborted 3) (Locals (double_of_Z 0) 0 [] w))
  /\ (forall (n : Z) (e : ending) (l : locals world),
        (min_at n == double_of_Z 0)%D ->
        evaluate (stage_on_world exec seed) min_at rand_output w = Stopped e l ->
        e <> Abandoned Pruned n).
Proof.
  destruct (first_stage_runs (stage_on_world exec seed) min_at rand_output w)
    as (e & l & He & Hnot & Hfirst).
  split; [apply at_stage_three|]. split; [apply prune_check_zero|].
  split; [eauto|]. split; [|split].
  - intros HV HC.
    pose proof (gen_rand_cnf_returns (w_files w) rand_output 3 seed HV HC) as Hgen.
    rewrite (stage_on_world_solves exec seed rand_output 3 w _ ltac:(lia) Hgen) in Hfirst.
    cbn zeta in Hfirst.
    eexists _, e, l. split; [exact Hgen|]. split; [exact He|]. cbn zeta.
    destruct (w_files _ !! log_name seed) as [lines|]; [exact Hfirst | apply Hfirst].
  - intros Hbad.
    assert (Hstage : stage_on_world exec seed rand_output 3 w = Fail Aborted).
    { unfold stage_on_world.
      destruct Hbad as [HV | HC];
        [rewrite gen_rand_cnf_aborts_without_variables by exact HV
        | rewrite gen_rand_cnf_aborts_without_clauses by exact HC]; reflexivity. }
    rewrite Hstage in Hfirst. destruct Hfirst as [-> ->]. exact He.
  - intros n e' l'. apply zero_bound_never_prunes.
Qed.

Lemma stage_three_always_runs_witness :
  solved_at_three (toy_solver sat_log 2500000) 7 (fun _ => elapsed_time_sec 1)
    sample_candidate (World all_templates 0).
Proof.
  apply (stage_three_always_runs (toy_solver sat_log 2500000) 7 (fun _ => elapsed_time_sec 1)
           sample_candidate (World all_templates 0)).
  - vm_compute. reflexivity.
  - vm_compute. discriminate.
Defined.

(** C10 as stated has the stage-3 instance of every generated candidate
    written and solved.  Without a stage-3 template the first candidate of
    a worker is generated, and the failed assertion of [gen_rand_cnf] ends
    the process: no instance is written and no solver is run. *)
Lemma stage_three_without_template :
  exists (cand : string) (rng : Z),
    gen_rand_output parity_dist 0 = Ret (cand, rng)
    /\ gen_rand_cnf cand 3 7 ∅ = Fail Aborted
    /\ ~ solved_at_three (toy_solver sat_log 2500000) 7 (fun _ => double_of_Z (-1))
           cand (World ∅ 0).
Proof.
  destruct (gen_rand_output parity_dist 0) as [[cand rng] | f] eqn:E;
    vm_compute in E; [|discriminate].
  injection E as <- <-. do 2 eexists. split; [reflexivity|].
  assert (Hgen : forall cand, gen_rand_cnf cand 3 7 ∅ = Fail Aborted).
  { intros cand. apply gen_rand_cnf_aborts_without_variables. reflexivity. }
  split; [apply Hgen|].
  intros (instance & e & l & Hret & _). cbn [w_files] in Hret.
  rewrite Hgen in Hret. discriminate.
Qed.





(** ** Bookkeeping of an evaluation *)

Lemma tidy_accounted {S : Type} (n : Z) (l : locals S) : tidy n l -> accounted l.
Proof.
  intros (_ & Hlen & Hstages & Hunsat & Hmax & _ & Hcur & Hsum).
  pose proof (count_unsat_nonneg (ran l)).
  unfold accounted. repeat split; try assumption; lia.
Qed.

Lemma after_stage_accounted {S : Type}
  (l0 : locals S) (n : Z) (res : result) (count unsat : Z) (s : S) :
  tidy n l0 -> n <= 7 ->
  unsat = unsat_inst l0 + (if is_unsat res then 1 else 0) ->
  accounted (after_stage l0 n res count unsat s).
Proof.
  intros (Hn & Hlen & Hstages & Hunsat & Hmax & _ & Hcur & Hsum) Hle ->.
  pose proof (count_unsat_nonneg (ran l0)).
  pose proof (elapsed_time_sec_nonneg count).
  unfold accounted, after_stage, stages_run in *. cbn [ran unsat_inst cur_total_runtime].
  rewrite total_runtime_snoc, <- Hsum.
  rewrite length_app, map_app, count_unsat_app.
  cbn [length map count_unsat sr_operat_num sr_res sr_runtime].
  replace (length (ran l0) + 1)%nat with (Datatypes.S (length (ran l0))) by lia.
  rewrite seqZ_S, Hstages, <- Hn.
  repeat split; try lia;
    try (apply double_add_nonneg; [exact Hcur | apply elapsed_time_sec_nonneg]);
    destruct (is_unsat res); lia.
Qed.

Lemma invariant_accounted {S : Type}
  (run_stage : string -> Z -> S -> outcome (result * Z * S))
  (min_at : Z -> double) (rand_output : string) (c : config S) :
  invariant run_stage min_at rand_output c -> accounted (locals_of c).
Proof.
  destruct c as [n l | e l]; cbn [invariant locals_of]; [apply tidy_accounted|].
  destruct e as [| [| |] n | f n]; cbn [settled].
  - apply tidy_accounted.
  - intros (H & _). exact (tidy_accounted _ _ H).
  - intros (l0 & count & s & Htidy & Hle & _ & ->).
    apply (after_stage_accounted l0 n INTERR count _ s Htidy Hle). cbn. lia.
  - intros (l0 & count & s & Htidy & Hle & _ & H3 & ->).
    apply (after_stage_accounted l0 n UNSAT count _ s Htidy Hle). cbn. lia.
  - intros (H & _). exact (tidy_accounted _ _ H).
Qed.

Lemma count_sat_unsat (runs : list stage_run) :
  Forall (fun r => sr_res r <> INTERR) runs ->
  count_sat runs + count_unsat runs = Z.of_nat (length runs).
Proof.
  induction 1 as [|r runs Hr _ IH]; [reflexivity|].
  cbn [count_sat count_unsat length]. destruct (sr_res r); cbn [is_unsat]; try lia.
  contradiction.
Qed.

Section Bookkeeping.

Context {S : Type}.
Variable run_stage : string -> Z -> S -> outcome (result * Z * S).
Variable min_at : Z -> double.
Variable rand_output : string.

(** X15.  At every point of an evaluation its variables agree with the
    stages run so far: these are the stages 3, 4, ... in order, at most
    five; [unsat_inst] is the number of Unsatisfiable verdicts among them
    and never exceeds 4; [cur_total_runtime] is the sum of their run
    times, added one after the other onto 0 with each sum rounded as
    line 256 rounds it, and is not negative. *)
Theorem evaluation_accounts (s : S) (c : config S) :
  reaches run_stage min_at rand_output s c -> accounted (locals_of c).
Proof.
  intros Hreach. apply (invariant_accounted run_stage min_at rand_output).
  exact (invariant_reaches _ _ _ _ _ Hreach).
Qed.

(** X16.  A candidate that completes has run the five stages 3 to 7, none
    of them with an inconclusive verdict, at most three of them
    Unsatisfiable and so at least two Satisfiable. *)
Theorem completed_verdicts (s : S) (l : locals S) :
  evaluate run_stage min_at rand_output s = Stopped Completed l ->
  stages_run l = stages
  /\ Forall (fun r => sr_res r = SAT \/ sr_res r = UNSAT) (ran l)
  /\ count_unsat (ran l) <= 3
  /\ count_sat (ran l) = 5 - count_unsat (ran l)
  /\ 2 <= count_sat (ran l).
Proof.
  intros He. apply evaluate_settled in He. cbn [settled] in He.
  destruct He as (Hn & Hlen & Hstages & Hunsat & Hmax & Hres & _).
  assert (Hfive : length (ran l) = 5%nat) by lia.
  pose proof (count_sat_unsat _ Hres) as Hsum. rewrite Hfive in Hsum.
  rewrite Hstages, Hfive, <- Hunsat.
  split; [reflexivity|]. split; [|lia].
  eapply Forall_impl; [exact Hres|]. intros r Hr. cbn in Hr.
  destruct (sr_res r); auto. contradiction.
Qed.

End Bookkeeping.

Lemma evaluation_accounts_witness :
  accounted (locals_of (evaluate (constant_oracle UNSAT 7) (fun _ => double_of_Z (-1))
                          sample_candidate tt)).
Proof.
  apply (evaluation_accounts (constant_oracle UNSAT 7) (fun _ => double_of_Z (-1)) sample_candidate tt).
  exists 6%nat. reflexivity.
Defined.

Lemma completed_verdicts_witness :
  stages_run (locals_of (evaluate (constant_oracle SAT 7) (fun _ => double_of_Z (-1))
                           sample_candidate tt)) = stages
  /\ 2 <= count_sat (ran (locals_of (evaluate (constant_oracle SAT 7) (fun _ => double_of_Z (-1))
                                       sample_candidate tt))).
Proof.
  destruct (completed_verdicts (constant_oracle SAT 7) (fun _ => double_of_Z (-1)) sample_candidate tt
              (locals_of (evaluate (constant_oracle SAT 7) (fun _ => double_of_Z (-1))
                            sample_candidate tt)))
    as (Hstages & _ & _ & _ & Hsat).
  - vm_compute. reflexivity.
  - split; [exact Hstages | exact Hsat].
Defined.

(** ** The worker over its turns *)

Section WorkerTurns.

Context {S rng_t : Type}.
Variable run_stage : string -> Z -> S -> outcome (result * Z * S).
Variable dist : rng_t -> Z * rng_t.

Abbreviation turn' := (candidate_turn run_stage dist).
Abbreviation loop' := (worker_loop run_stage dist).
Abbreviation after' := (worker_after run_stage dist).

Lemma after_succ (k : nat) (w : worker S rng_t) :
  after' (Datatypes.S k) w
  = match turn' w with
    | Ret (w', _) => after' k w'
    | Fail f => Fail f
    end.
Proof. cbn [worker_after mbind outcome_bind]. destruct (turn' w) as [[w' r] | f]; reflexivity. Qed.

(** What one turn does to the generator and the counter. *)
Lemma turn_draws (w w' : worker S rng_t) (r : report S) :
  turn' w = Ret (w', r) ->
  gen_rand_output dist (rng w) = Ret (candidate r, rng w')
  /\ checked_outputs w' = wrap32 (checked_outputs w + 1).
Proof.
  unfold candidate_turn.
  destruct (gen_rand_output dist (rng w)) as [[cand rng1] | f]; [|discriminate].
  cbn [mbind outcome_bind].
  destruct (evaluate _ _ _ _) as [n l | [| why n | f n] l]; try discriminate.
  - destruct (improves _ _); intros H; injection H as <- <-; auto.
  - intros H; injection H as <- <-; auto.
Qed.

(** A completed candidate took a time that is not negative. *)
Lemma turn_completed_time (w w' : worker S rng_t) (r : report S) :
  turn' w = Ret (w', r) -> how r = Completed ->
  (double_of_Z 0 <= cur_total_runtime (final r))%D.
Proof.
  intros Hturn Hc. destruct (turn_inv _ _ _ _ _ Hturn) as (He & _).
  apply evaluate_settled in He. rewrite Hc in He. cbn [settled] in He.
  destruct He as (_ & _ & _ & _ & _ & _ & Hpos & _). exact Hpos.
Qed.

Lemma turn_discoveries (w w' : worker S rng_t) (r : report S) :
  turn' w = Ret (w', r) ->
  improving (discoveries w) ->
  min_total_solving_runtime w = bound_of (discoveries w) ->
  improving (discoveries w')
  /\ min_total_solving_runtime w' = bound_of (discoveries w').
Proof.
  intros Hturn Himp Hbound.
  destruct (turn_inv _ _ _ _ _ Hturn) as (_ & Hbefore & Hafter & Hcases).
  destruct Hcases as [(Hsame & -> & _) | (Hc & Hbetter & Hnew & ->)].
  - split; [exact Himp | congruence].
  - pose proof (turn_completed_time _ _ _ Hturn Hc) as Hpos.
    rewrite <- Hnew in Hpos. rewrite <- Hafter. cbn [bound_of snd].
    split; [|reflexivity].
    cbn [improving snd]. split; [exact Hpos|]. split; [|exact Himp].
    apply improves_true in Hbetter. rewrite Hbefore, Hbound, <- Hnew in Hbetter.
    destruct (discoveries w) as [|d older]; [exact I|].
    cbn [bound_of] in Hbetter. cbn [improving] in Himp. destruct Himp as (Hd & _).
    destruct Hbetter as [Hneg | Hless]; [destruct (bound_set_not_neg _ Hd Hneg) | exact Hless].
Qed.

(** X18.  After any number of turns of a worker that is alone, its
    discoveries are in strictly improving order (the cumulative run time
    of each, as the program has added it up, is strictly less than that of
    the one before, and none is negative), its bound is the time of the
    latest discovery, or -1 when there is none, and [checked_outputs] is
    the number of turns modulo 2^32. *)
Theorem discoveries_improve (k : nat) (seeded : rng_t) (s : S) (w : worker S rng_t) :
  worker_after run_stage dist k (start_worker seeded s) = Ret w ->
  improving (discoveries w)
  /\ min_total_solving_runtime w = bound_of (discoveries w)
  /\ checked_outputs w = wrap32 (Z.of_nat k).
Proof.
  assert (Hgen : forall k c0 w0 w,
             after' k w0 = Ret w ->
             improving (discoveries w0) ->
             min_total_solving_runtime w0 = bound_of (discoveries w0) ->
             checked_outputs w0 = wrap32 c0 ->
             improving (discoveries w)
             /\ min_total_solving_runtime w = bound_of (discoveries w)
             /\ checked_outputs w = wrap32 (c0 + Z.of_nat k)).
  { clear k w. induction k as [|k IH]; intros c0 w0 w Hafter Himp Hbound Hcount.
    - injection Hafter as <-. now rewrite Z.add_0_r.
    - rewrite after_succ in Hafter.
      destruct (turn' w0) as [[w1 r] | f] eqn:Hturn; [|discriminate].
      destruct (turn_discoveries _ _ _ Hturn Himp Hbound) as [Himp1 Hbound1].
      destruct (turn_draws _ _ _ Hturn) as [_ Hcount1].
      replace (c0 + Z.of_nat (Datatypes.S k)) with ((c0 + 1) + Z.of_nat k) by lia.
      apply (IH (c0 + 1) w1 w Hafter Himp1 Hbound1).
      rewrite Hcount1, Hcount. unfold wrap32. apply Zplus_mod_idemp_l. }
  intros Hafter. apply (Hgen k 0 (start_worker seeded s) w Hafter); reflexivity || exact I.
Qed.

Lemma turn_zero_bound (w w' : worker S rng_t) (r : report S) :
  turn' w = Ret (w', r) ->
  (min_total_solving_runtime w == double_of_Z 0)%D ->
  min_total_solving_runtime w' = min_total_solving_runtime w
  /\ discoveries w' = discoveries w
  /\ bound_before r = min_total_solving_runtime w
  /\ bound_after r = min_total_solving_runtime w
  /\ (forall n, how r <> Abandoned Pruned n).
Proof.
  intros Hturn Hzero.
  destruct (turn_inv _ _ _ _ _ Hturn) as (He & Hbefore & Hafter & Hcases).
  assert (Hnoprune : forall n, how r <> Abandoned Pruned n).
  { intros n Hhow. apply evaluate_settled in He. rewrite Hhow in He. cbn [settled] in He.
    destruct He as (_ & _ & Hprune). apply prune_check_true in Hprune as [Hpos _].
    apply double_eq_not_lt in Hzero as [_ Hzero]. congruence. }
  destruct Hcases as [(Hsame & Hdisc & _) | (Hc & Hbetter & Hnew & _)].
  - repeat split; try assumption; congruence.
  - exfalso. pose proof (turn_completed_time _ _ _ Hturn Hc) as Hpos.
    apply improves_true in Hbetter. rewrite Hbefore in Hbetter.
    pose proof (double_eq_le _ _ Hzero) as Hle.
    apply double_eq_not_lt in Hzero as [Hzero _].
    destruct Hbetter as [Hneg | Hless]; [congruence|].
    apply (bound_set_not_neg _ Hpos).
    exact (double_lt_le_trans _ _ _ Hless Hle).
Qed.

(** X19.  Once the bound of a worker that is alone is exactly 0, it stays
    0: no later candidate is pruned, none is reported as a discovery, and
    the bound is never lowered. *)
Theorem zero_bound_freezes (k : nat) (w : worker S rng_t) :
  (min_total_solving_runtime w == double_of_Z 0)%D ->
  (forall r : report S,
      r ∈ worker_loop run_stage dist k w ->
      bound_before r = min_total_solving_runtime w
      /\ bound_after r = min_total_solving_runtime w
      /\ (forall n, how r <> Abandoned Pruned n))
  /\ (forall w' : worker S rng_t,
        worker_after run_stage dist k w = Ret w' ->
        min_total_solving_runtime w' = min_total_solving_runtime w
        /\ discoveries w' = discoveries w).
Proof.
  revert w. induction k as [|k IH]; intros w Hzero.
  - split; [intros r Hin; inversion Hin|].
    intros w' H. injection H as <-. auto.
  - rewrite loop_succ, after_succ.
    destruct (turn' w) as [[w1 r1] | f] eqn:Hturn.
    2: { split; [intros r Hin; inversion Hin | discriminate]. }
    destruct (turn_zero_bound _ _ _ Hturn Hzero) as (Hmin & Hdisc & Hb & Ha & Hnp).
    assert (Hzero1 : (min_total_solving_runtime w1 == double_of_Z 0)%D) by now rewrite Hmin.
    destruct (IH w1 Hzero1) as [Hreports Hafter]. rewrite Hmin, Hdisc in *. split.
    + intros r Hin. apply elem_of_cons in Hin as [-> | Hin]; [auto | now apply Hreports].
    + exact Hafter.
Qed.

End WorkerTurns.

(** X20.  The candidates a worker examines depend on the state of its
    generator alone: two workers that start with their generators in the
    same state examine the same candidates in the same order, whatever the
    verdicts, the run times, the files and the bounds are. *)
Theorem candidates_by_seed {S1 S2 rng_t : Type}
  (run_stage1 : string -> Z -> S1 -> outcome (result * Z * S1))
  (run_stage2 : string -> Z -> S2 -> outcome (result * Z * S2))
  (dist : rng_t -> Z * rng_t)
  (k1 k2 : nat) (w1 : worker S1 rng_t) (w2 : worker S2 rng_t)
  (i : nat) (r1 : report S1) (r2 : report S2) :
  rng w1 = rng w2 ->
  worker_loop run_stage1 dist k1 w1 !! i = Some r1 ->
  worker_loop run_stage2 dist k2 w2 !! i = Some r2 ->
  candidate r1 = candidate r2.
Proof.
  revert k1 k2 w1 w2. induction i as [|i IH]; intros k1 k2 w1 w2 Hrng Hr1 Hr2.
  - apply loop_head in Hr1 as [w1' Hturn1]. apply loop_head in Hr2 as [w2' Hturn2].
    apply turn_draws in Hturn1 as [Hgen1 _]. apply turn_draws in Hturn2 as [Hgen2 _].
    rewrite Hrng in Hgen1. congruence.
  - apply loop_tail in Hr1 as (k1' & w1' & r01 & Hturn1 & _ & Hr1).
    apply loop_tail in Hr2 as (k2' & w2' & r02 & Hturn2 & _ & Hr2).
    apply turn_draws in Hturn1 as [Hgen1 _]. apply turn_draws in Hturn2 as [Hgen2 _].
    rewrite Hrng in Hgen1.
    apply (IH k1' k2' w1' w2'); [congruence | assumption | assumption].
Qed.

Lemma discoveries_improve_witness :
  exists w : worker unit Z,
    worker_after (constant_oracle SAT 7) parity_dist 2 (start_worker 0 tt) = Ret w
    /\ improving (discoveries w)
    /\ min_total_solving_runtime w = bound_of (discoveries w)
    /\ checked_outputs w = wrap32 2.
Proof.
  destruct (worker_after (constant_oracle SAT 7) parity_dist 2 (start_worker 0 tt))
    as [w | f] eqn:E; [|vm_compute in E; discriminate].
  exists w. split; [reflexivity|].
  exact (discoveries_improve (constant_oracle SAT 7) parity_dist 2 0 tt w E).
Defined.

Lemma zero_bound_freezes_witness :
  (forall r : report unit,
      r ∈ worker_loop (constant_oracle SAT 0) parity_dist 2
            (Worker (double_of_Z 0) 1 1 tt [(sample_candidate, double_of_Z 0)]) ->
      bound_before r = double_of_Z 0 /\ bound_after r = double_of_Z 0
      /\ (forall n, how r <> Abandoned Pruned n))
  /\ (forall w' : worker unit Z,
        worker_after (constant_oracle SAT 0) parity_dist 2
          (Worker (double_of_Z 0) 1 1 tt [(sample_candidate, double_of_Z 0)]) = Ret w' ->
        min_total_solving_runtime w' = double_of_Z 0
        /\ discoveries w' = [(sample_candidate, double_of_Z 0)]).
Proof.
  apply (zero_bound_freezes (constant_oracle SAT 0) parity_dist 2
           (Worker (double_of_Z 0) 1 1 tt [(sample_candidate, double_of_Z 0)])).
  reflexivity.
Defined.

Lemma candidates_by_seed_witness :
  exists (r1 r2 : report unit),
    worker_loop (constant_oracle SAT 7) parity_dist 2 (start_worker 0 tt) !! 1%nat = Some r1
    /\ worker_loop (constant_oracle UNSAT 3) parity_dist 2 (start_worker 0 tt) !! 1%nat
       = Some r2
    /\ how r1 <> how r2
    /\ candidate r1 = candidate r2.
Proof.
  destruct (worker_loop (constant_oracle SAT 7) parity_dist 2 (start_worker 0 tt) !! 1%nat)
    as [r1|] eqn:E1; [|vm_compute in E1; discriminate].
  destruct (worker_loop (constant_oracle UNSAT 3) parity_dist 2 (start_worker 0 tt) !! 1%nat)
    as [r2|] eqn:E2; [|vm_compute in E2; discriminate].
  exists r1, r2. split; [reflexivity|]. split; [reflexivity|]. split.
  - vm_compute in E1, E2. injection E1 as <-. injection E2 as <-. discriminate.
  - exact (candidates_by_seed (constant_oracle SAT 7) (constant_oracle UNSAT 3) parity_dist
             2 2 (start_worker 0 tt) (start_worker 0 tt) 1 r1 r2 eq_refl E1 E2).
Defined.

(** ** Draws and candidates *)

Section Draws.

Context {rng_t : Type} (dist : rng_t -> Z * rng_t).

Lemma draws_are_bits_add (n m : nat) (rng : rng_t) :
  draws_are_bits dist (n + m) rng
  = draws_are_bits dist n rng && draws_are_bits dist m (drawn_bits dist n rng).2.
Proof.
  revert rng. induction n as [|n IH]; intros rng; [reflexivity|].
  cbn [Nat.add draws_are_bits drawn_bits]. destruct (dist rng) as [rand rng1].
  rewrite IH. destruct (drawn_bits dist n rng1) as [h rng2]. cbn [snd].
  now rewrite andb_assoc.
Qed.

Lemma draw_bits_cases (n : nat) (rng : rng_t) (sstream8 inverse : string) :
  draw_bits dist n rng sstream8 inverse
  = if draws_are_bits dist n rng
    then Ret (sstream8 +:+ (drawn_bits dist n rng).1,
              inverse +:+ complement (drawn_bits dist n rng).1,
              (drawn_bits dist n rng).2)
    else Fail Aborted.
Proof.
  revert rng sstream8 inverse.
  induction n as [|n IH]; intros rng sstream8 inverse.
  - cbn [draw_bits draws_are_bits drawn_bits fst snd complement].
    now rewrite !string_app_nil_r.
  - cbn [draw_bits draws_are_bits drawn_bits]. destruct (dist rng) as [rand rng1].
    destruct ((rand =? 1) || (rand =? 0)) eqn:Hbit; cbn [assert mbind outcome_bind andb];
      [|reflexivity].
    assert (Hprint : int_to_string rand
                     = String (if rand =? 1 then "1"%char else "0"%char) "").
    { apply orb_prop in Hbit as [H | H]; apply Z.eqb_eq in H; subst rand; reflexivity. }
    rewrite IH, Hprint. destruct (draws_are_bits dist n rng1); [|reflexivity].
    destruct (drawn_bits dist n rng1) as [h rng2]. cbn [fst snd complement].
    rewrite !string_app_assoc. destruct (rand =? 1); reflexivity.
Qed.

(** The loop with [k] blocks written and enough fuel for the other [32 - k]. *)
Lemma rand_seq8_loop_cases (fuel k : nat) (rng : rng_t) (sstream8 : string) :
  String.length sstream8 = (16 * k)%nat -> (k < 32)%nat -> (32 - k <= fuel)%nat ->
  rand_seq8_loop dist fuel rng sstream8
  = if draws_are_bits dist (8 * (32 - k)) rng
    then Ret (sstream8 +:+ concat_blocks (drawn_blocks dist (32 - k) rng).1,
              (drawn_blocks dist (32 - k) rng).2)
    else Fail Aborted.
Proof.
  revert k rng sstream8.
  induction fuel as [|fuel IH]; intros k rng sstream8 Hlen Hk Hfuel; [lia|].
  cbn [rand_seq8_loop]. rewrite draw_bits_cases.
  replace (8 * (32 - k))%nat with (8 + 8 * (32 - (k + 1)))%nat by lia.
  rewrite draws_are_bits_add. change SUBSEQ_LEN_1 with 8%nat.
  destruct (draws_are_bits dist 8 rng); cbn [mbind outcome_bind andb]; [|reflexivity].
  rewrite string_app_nil_l, string_app_assoc.
  replace (32 - k)%nat with (Datatypes.S (32 - (k + 1))) by lia.
  cbn [drawn_blocks]. destruct (drawn_bits_length dist 8 rng) as [Hh Hbits].
  destruct (drawn_bits dist 8 rng) as [h rng1]. cbn [fst snd] in *.
  assert (Hlen' : String.length (sstream8 +:+ h +:+ complement h) = (16 * (k + 1))%nat).
  { rewrite !string_length_app, complement_length, Hh, Hlen. lia. }
  destruct (Nat.ltb_spec (String.length (sstream8 +:+ h +:+ complement h)) SEQ_LEN)
    as [Hlt | Hge]; unfold SEQ_LEN in *.
  - rewrite (IH (k + 1)%nat rng1) by (assumption || lia).
    destruct (draws_are_bits dist (8 * (32 - (k + 1))) rng1); [|reflexivity].
    destruct (drawn_blocks dist (32 - (k + 1)) rng1) as [blocks rng2].
    cbn [fst snd concat_blocks]. now rewrite !string_app_assoc.
  - replace (32 - (k + 1))%nat with 0%nat by lia.
    cbn [drawn_blocks draws_are_bits Nat.mul fst snd concat_blocks].
    now rewrite string_app_nil_r.
Qed.

Lemma rand_seq8_cases (rng : rng_t) :
  rand_seq8 dist rng
  = if draws_are_bits dist 256 rng
    then Ret (concat_blocks (drawn_blocks dist 32 rng).1, (drawn_blocks dist 32 rng).2)
    else Fail Aborted.
Proof.
  unfold rand_seq8.
  rewrite (rand_seq8_loop_cases SEQ_LEN 0 rng "") by (reflexivity || (unfold SEQ_LEN; lia)).
  change (8 * (32 - 0))%nat with 256%nat. change (32 - 0)%nat with 32%nat.
  destruct (draws_are_bits dist 256 rng); cbn [mbind outcome_bind]; [|reflexivity].
  rewrite string_app_nil_l.
  assert (Hsize : String.length (concat_blocks (drawn_blocks dist 32 rng).1) = (16 * 32)%nat).
  { apply made_of_blocks_length. exists (drawn_blocks dist 32 rng).1.
    destruct (drawn_blocks_regular dist 32 rng). auto. }
  rewrite Hsize. reflexivity.
Qed.

End Draws.

Lemma count_char_app (c : ascii) (a b : string) :
  count_char c (a +:+ b) = (count_char c a + count_char c b)%nat.
Proof.
  induction a as [|x a IH]; [reflexivity|].
  rewrite string_app_cons. cbn [count_char]. rewrite IH. lia.
Qed.

Lemma count_char_bits (h : string) :
  all_bits h ->
  (count_char "1" h + count_char "0" h = String.length h
   /\ count_char "1" (complement h) = count_char "0" h
   /\ count_char "0" (complement h) = count_char "1" h)%nat.
Proof.
  induction h as [|c h IH]; [auto|].
  intros [Hc Hh]. destruct (IH Hh) as (H1 & H2 & H3).
  cbn [count_char complement String.length]. rewrite H2, H3.
  destruct Hc as [-> | ->]; cbn; lia.
Qed.

Lemma count_char_blocks (blocks : list string) :
  Forall regular_block blocks ->
  (count_char "1" (concat_blocks blocks) = 8 * length blocks
   /\ count_char "0" (concat_blocks blocks) = 8 * length blocks)%nat.
Proof.
  induction 1 as [|b blocks (h & Hlen & Hbits & ->) _ [IH1 IH0]]; [auto|].
  destruct (count_char_bits h Hbits) as (Hsum & Hc1 & Hc0).
  cbn [concat_blocks length].
  rewrite !count_char_app, Hc1, Hc0, IH1, IH0. lia.
Qed.

Lemma drawn_bits_add {rng_t : Type} (dist : rng_t -> Z * rng_t) (n m : nat) (rng : rng_t) :
  (drawn_bits dist (n + m) rng).2 = (drawn_bits dist m (drawn_bits dist n rng).2).2.
Proof.
  revert rng. induction n as [|n IH]; intros rng; [reflexivity|].
  cbn [Nat.add drawn_bits]. destruct (dist rng) as [rand rng1].
  specialize (IH rng1).
  destruct (drawn_bits dist (n + m) rng1) as [h rng2].
  destruct (drawn_bits dist n rng1) as [h' rng3]. exact IH.
Qed.

(** Blocks take eight draws each. *)
Lemma drawn_blocks_rng {rng_t : Type} (dist : rng_t -> Z * rng_t) (m : nat) (rng : rng_t) :
  (drawn_blocks dist m rng).2 = (drawn_bits dist (8 * m) rng).2.
Proof.
  revert rng. induction m as [|m IH]; intros rng; [reflexivity|].
  replace (8 * Datatypes.S m)%nat with (8 + 8 * m)%nat by lia.
  rewrite drawn_bits_add, <- IH. cbn [drawn_blocks].
  destruct (drawn_bits dist 8 rng) as [h rng1]. cbn [snd].
  destruct (drawn_blocks dist m rng1) as [blocks rng2]. reflexivity.
Qed.

(** X2.  [rand_seq8] takes 256 draws.  When each of them is 0 or 1 it
    returns the 32 blocks drawn, with the generator as the 256 draws have
    left it; otherwise the assertion of line 87 fails.  Its loop ends in
    both cases. *)
Theorem rand_seq8_draws {rng_t : Type} (dist : rng_t -> Z * rng_t) (rng : rng_t) :
  rand_seq8 dist rng
  = if draws_are_bits dist 256 rng
    then Ret (concat_blocks (drawn_blocks dist 32 rng).1, (drawn_bits dist 256 rng).2)
    else Fail Aborted.
Proof. rewrite rand_seq8_cases. now rewrite (drawn_blocks_rng dist 32 rng). Qed.

(** X3.  A candidate that [rand_seq8] returns is balanced: of its 512
    characters 256 are 1 and 256 are 0, whatever the generator is. *)
Theorem rand_seq8_balanced {rng_t : Type} (dist : rng_t -> Z * rng_t)
  (rng : rng_t) (s : string) (rng' : rng_t) :
  rand_seq8 dist rng = Ret (s, rng') ->
  String.length s = 512%nat
  /\ count_char "1" s = 256%nat
  /\ count_char "0" s = 256%nat.
Proof.
  rewrite rand_seq8_cases. destruct (draws_are_bits dist 256 rng); [|discriminate].
  intros H. injection H as <- _.
  destruct (drawn_blocks_regular dist 32 rng) as [Hlen Hall].
  destruct (count_char_blocks _ Hall) as [H1 H0]. rewrite Hlen in H1, H0.
  split; [|auto].
  apply (made_of_blocks_length 32). exists (drawn_blocks dist 32 rng).1. auto.
Qed.

Lemma rand_seq8_balanced_witness :
  exists (s : string) (rng' : Z),
    rand_seq8 parity_dist 5 = Ret (s, rng')
    /\ String.length s = 512%nat
    /\ count_char "1" s = 256%nat
    /\ count_char "0" s = 256%nat.
Proof.
  destruct (rand_seq8 parity_dist 5) as [[s rng'] | f] eqn:E;
    [|vm_compute in E; discriminate].
  exists s, rng'. split; [reflexivity|].
  exact (rand_seq8_balanced parity_dist 5 s rng' E).
Defined.

(** ** The shell *)

Lemma c_str_app (a b : string) : nul_free (a +:+ b) -> nul_free a /\ nul_free b.
Proof.
  unfold nul_free. induction a as [|c a IH]; [rewrite string_app_nil_l; auto|].
  rewrite string_app_cons. cbn [c_str].
  destruct (Ascii.eqb c zero); [discriminate|].
  intros H. injection H as H. destruct (IH H) as [-> Hb]. auto.
Qed.

Lemma c_str_length (s : string) : (String.length (c_str s) <= String.length s)%nat.
Proof.
  induction s as [|c s IH]; [reflexivity|]. cbn [c_str].
  destruct (Ascii.eqb c zero); cbn [String.length]; lia.
Qed.

(** What [fgets] stores and what it leaves are the pipe; it stores nothing
    only at the end of the pipe, which it then reports. *)
Lemma fgets_splits (n : nat) (pipe : string) :
  pipe = (fgets n pipe).1.1 +:+ (fgets n pipe).1.2
  /\ ((fgets n pipe).2 = true -> (fgets n pipe).1.2 = "")
  /\ ((0 < n)%nat -> (fgets n pipe).1.1 = "" -> pipe = "" /\ (fgets n pipe).2 = true).
Proof.
  revert pipe. induction n as [|n IH]; intros pipe.
  - cbn. repeat split; try discriminate; lia.
  - destruct pipe as [|c pipe]; [cbn; repeat split; auto; discriminate|].
    cbn [fgets]. destruct (Ascii.eqb c (ascii_of_nat 10)).
    + cbn. repeat split; discriminate.
    + destruct (IH pipe) as (Hsplit & Hend & _).
      destruct (fgets n pipe) as [[buffer rest] eof]. cbn [fst snd] in *.
      rewrite string_app_cons, <- Hsplit.
      repeat split; try assumption; discriminate.
Qed.

Lemma exec_loop_returns (fuel : nat) (pipe result : string) :
  (String.length pipe < fuel)%nat ->
  exists r : string,
    exec_loop fuel pipe false result = Ret r
    /\ (String.length r <= String.length result + String.length pipe)%nat
    /\ (nul_free pipe -> r = result +:+ pipe).
Proof.
  revert pipe result. induction fuel as [|fuel IH]; intros pipe result Hfuel; [lia|].
  cbn [exec_loop]. destruct (fgets_splits 127 pipe) as (Hsplit & Hend & Hnull).
  destruct (fgets 127 pipe) as [[buffer rest] eof]. cbn [fst snd] in *.
  assert (Hlen : String.length pipe = (String.length buffer + String.length rest)%nat).
  { rewrite Hsplit at 1. apply string_length_app. }
  pose proof (c_str_length buffer) as Hc.
  destruct buffer as [|c buffer].
  - destruct (Hnull ltac:(lia) eq_refl) as [-> ->]. rewrite (Hend eq_refl).
    destruct fuel; cbn [exec_loop]; exists result;
      (split; [reflexivity|]); (split; [lia|]); intros _; now rewrite string_app_nil_r.
  - destruct eof.
    + rewrite (Hend eq_refl) in *. rewrite string_app_nil_r in Hsplit.
      destruct fuel; cbn [exec_loop]; eexists; (split; [reflexivity|]);
        (split; [rewrite string_length_app; lia|]);
        intros Hfree; rewrite Hsplit; rewrite Hsplit in Hfree; now rewrite Hfree.
    + cbn [String.length] in Hlen.
      change (String.length (String c buffer)) with (Datatypes.S (String.length buffer)) in Hc.
      assert (Hshort : (String.length rest < fuel)%nat) by lia.
      destruct (IH rest (result +:+ c_str (String c buffer)) Hshort) as (r & -> & Hr & Hfree).
      exists r. split; [reflexivity|]. split.
      * rewrite string_length_app in Hr. lia.
      * intros Hpipe. rewrite Hsplit in Hpipe. apply c_str_app in Hpipe as [Hb Hrest].
        rewrite (Hfree Hrest), Hb, Hsplit. apply string_app_assoc.
Qed.

(** X1.  [exec] returns ERROR when the pipe cannot be opened.  Otherwise
    its loop ends, and what it returns is never longer than what the
    command wrote; it is all that the command wrote when that holds no NUL
    character, however the text is cut in lines and in pieces of 127
    characters. *)
Theorem exec_reads_all (popen : string -> option string) (cmd_str : string) :
  (popen (c_str cmd_str) = None -> exec popen cmd_str = Ret "ERROR")
  /\ (forall pipe : string,
        popen (c_str cmd_str) = Some pipe ->
        (exists r : string,
            exec popen cmd_str = Ret r
            /\ (String.length r <= String.length pipe)%nat)
        /\ (nul_free pipe -> exec popen cmd_str = Ret pipe)).
Proof.
  unfold exec. split; [intros ->; reflexivity|].
  intros pipe ->.
  destruct (exec_loop_returns (Datatypes.S (String.length pipe)) pipe "" ltac:(lia))
    as (r & Hr & Hlen & Hfree).
  split; [exists r; split; [exact Hr | exact Hlen]|].
  intros H. rewrite Hr, (Hfree H). reflexivity.
Qed.

(** ** Output files *)

Lemma appended_cons (f str : string) (strs : list string) (out : gmap string string) :
  appended f (str :: strs) out = appended f strs (write_to_output f str false out).
Proof. reflexivity. Qed.

Lemma appended_other (f g : string) (strs : list string) (out : gmap string string) :
  g <> f -> appended f strs out !! g = out !! g.
Proof.
  intros Hg. revert out. induction strs as [|str strs IH]; intros out; [reflexivity|].
  rewrite appended_cons, IH. unfold write_to_output. now apply lookup_insert_ne.
Qed.

Lemma appended_content (f text : string) (strs : list string) (out : gmap string string) :
  out !! f = Some text ->
  appended f strs out !! f = Some (text +:+ foldr String.append "" strs).
Proof.
  revert text out. induction strs as [|str strs IH]; intros text out Hf.
  - cbn. now rewrite string_app_nil_r.
  - rewrite appended_cons. cbn [foldr]. rewrite (IH (text +:+ str)).
    + now rewrite string_app_assoc.
    + unfold write_to_output. rewrite Hf. apply lookup_insert_eq.
Qed.

(** X13.  After a first write ([is_first] true) and any number of later
    writes to one output file, the file holds the texts written, in order
    and nothing else: what it held before the first write is gone.  The
    other files are as they were.  A later write to a file that is missing
    creates it. *)
Theorem write_to_output_appends
  (f first : string) (strs : list string) (out : gmap string string) :
  appended f strs (write_to_output f first true out) !! f
  = Some (first +:+ foldr String.append "" strs)
  /\ (forall g : string,
        g <> f -> appended f strs (write_to_output f first true out) !! g = out !! g)
  /\ (forall str : string,
        out !! f = None -> write_to_output f str false out !! f = Some str).
Proof.
  split; [|split].
  - apply appended_content. apply lookup_insert_eq.
  - intros g Hg. rewrite appended_other by exact Hg. now apply lookup_insert_ne.
  - intros str Hf. unfold write_to_output. rewrite Hf. apply lookup_insert_eq.
Qed.

(** ** The command line, again *)

Lemma skip_ws_spaces (ws s : string) :
  forallb isspace (list_ascii_of_string ws) = true -> skip_ws (ws +:+ s) = skip_ws s.
Proof.
  induction ws as [|c ws IH]; [reflexivity|].
  cbn [list_ascii_of_string forallb]. intros H. apply andb_prop in H as [Hc Hws].
  rewrite string_app_cons. cbn [skip_ws]. rewrite Hc. auto.
Qed.

Lemma read_digits_from_app (d rest : string) (acc : Z) :
  all_digits d = true -> isdigit (first_char rest) = false ->
  read_digits_from (d +:+ rest) acc = read_digits_from d acc.
Proof.
  revert acc. induction d as [|c d IH]; intros acc Hd Hrest.
  - rewrite string_app_nil_l. destruct rest as [|x rest]; [reflexivity|].
    cbn [first_char] in Hrest. cbn [read_digits_from]. now rewrite Hrest.
  - cbn in Hd. apply andb_prop in Hd as [Hc Hd].
    rewrite string_app_cons. cbn [read_digits_from]. rewrite Hc. auto.
Qed.

(** [stoi] reads a number out of what surrounds it; it throws when the
    number is above the largest [int]. *)
Lemma stoi_lenient (ws sign d rest : string) :
  forallb isspace (list_ascii_of_string ws) = true ->
  sign = "" \/ sign = "+" ->
  positive_numeral d = true ->
  isdigit (first_char rest) = false ->
  stoi (ws +:+ sign +:+ d +:+ rest)
  = (if read_digits_from d 0 <=? INT_MAX then Some (read_digits_from d 0) else None)
  /\ ws +:+ sign +:+ d +:+ rest <> "-h"
  /\ ws +:+ sign +:+ d +:+ rest <> "-v".
Proof.
  intros Hws Hsign Hnum Hrest.
  pose proof Hnum as Hnum'. unfold positive_numeral in Hnum'.
  apply andb_prop in Hnum' as [Hnum' Hpos]. apply andb_prop in Hnum' as [_ Hdigits].
  apply Z.ltb_lt in Hpos.
  destruct d as [|c d]; [cbn in Hpos; lia|].
  pose proof Hdigits as Hall. cbn [list_ascii_of_string forallb] in Hdigits.
  apply andb_prop in Hdigits as [Hc _].
  destruct (isdigit_plain c Hc) as (Hspace & Hminus & Hplus).
  assert (Hread : read_digits (String c d +:+ rest) = Some (read_digits_from (String c d) 0)).
  { unfold read_digits. rewrite string_app_cons. cbn [first_char]. rewrite Hc.
    rewrite <- string_app_cons. now rewrite read_digits_from_app. }
  assert (Hsigned : read_sign (skip_ws (sign +:+ String c d +:+ rest))
                    = (false, String c d +:+ rest)).
  { destruct Hsign as [-> | ->].
    - rewrite string_app_nil_l, string_app_cons. cbn [skip_ws]. rewrite Hspace.
      cbn [read_sign]. now rewrite Hminus, Hplus.
    - reflexivity. }
  split; [|split].
  - unfold stoi. rewrite skip_ws_spaces by exact Hws. rewrite Hsigned, Hread.
    unfold INT_MIN, INT_MAX in *.
    destruct (Z.leb_spec (- 2 ^ 31) (read_digits_from (String c d) 0)); [|lia].
    destruct (read_digits_from (String c d) 0 <=? 2 ^ 31 - 1); reflexivity.
  - destruct ws as [|x ws]; [destruct Hsign as [-> | ->]|].
    + rewrite !string_app_nil_l, string_app_cons. intros E. injection E as -> _. discriminate.
    + rewrite string_app_nil_l. discriminate.
    + cbn in Hws. apply andb_prop in Hws as [Hx _].
      rewrite string_app_cons. intros E. injection E as -> _. discriminate.
  - destruct ws as [|x ws]; [destruct Hsign as [-> | ->]|].
    + rewrite !string_app_nil_l, string_app_cons. intros E. injection E as -> _. discriminate.
    + rewrite string_app_nil_l. discriminate.
    + cbn in Hws. apply andb_prop in Hws as [Hx _].
      rewrite string_app_cons. intros E. injection E as -> _. discriminate.
Qed.

(** X14.  [main] takes the worker count out of its first argument as
    [stoi] does: white space and a plus sign before the digits and whatever
    follows them are ignored, and so are the arguments after the first; a
    number above the largest [int] ends the process abnormally.  And -h or
    -v followed by more arguments is not recognised as an option: the
    process is terminated abnormally. *)
Theorem main_args_lenient (prog ws sign d rest : string) (others : list string) :
  forallb isspace (list_ascii_of_string ws) = true ->
  sign = "" \/ sign = "+" ->
  positive_numeral d = true ->
  isdigit (first_char rest) = false ->
  main_args (prog :: (ws +:+ sign +:+ d +:+ rest) :: others)
  = (if read_digits_from d 0 <=? INT_MAX then Proceeds (read_digits_from d 0) else Terminated)
  /\ (others <> [] ->
      main_args (prog :: "-h" :: others) = Terminated
      /\ main_args (prog :: "-v" :: others) = Terminated).
Proof.
  intros Hws Hsign Hnum Hrest.
  destruct (stoi_lenient ws sign d rest Hws Hsign Hnum Hrest) as (Hstoi & Hh & Hv).
  split.
  - rewrite main_args_past_options by auto. rewrite Hstoi.
    assert (Hpos : 0 < read_digits_from d 0).
    { unfold positive_numeral in Hnum. apply andb_prop in Hnum as [_ Hpos].
      now apply Z.ltb_lt. }
    destruct (Z.leb_spec (read_digits_from d 0) INT_MAX) as [Hmax | Hmax]; [|reflexivity].
    unfold INT_MAX in Hmax.
    assert (Hwrap : wrap32 (read_digits_from d 0) = read_digits_from d 0).
    { unfold wrap32. apply Z.mod_small. lia. }
    rewrite Hwrap. destruct (Z.ltb_spec 0 (read_digits_from d 0)); [reflexivity | lia].
  - intros Hothers. split; rewrite main_args_past_options by auto; reflexivity.
Qed.

Lemma main_args_lenient_witness :
  main_args ["find_weak_outputs_skein"; " +12 cores"; "8"] = Proceeds 12
  /\ (["8"] <> [] ->
      main_args ["find_weak_outputs_skein"; "-h"; "8"] = Terminated
      /\ main_args ["find_weak_outputs_skein"; "-v"; "8"] = Terminated).
Proof.
  apply (main_args_lenient "find_weak_outputs_skein" " " "+" "12" " cores" ["8"]);
    [reflexivity | right; reflexivity | reflexivity | reflexivity].
Defined.

(** ** Templates and instances, again *)

(** X5.  A template made of a header "p cnf V C" and of clause lines is
    read as declaring V variables, or 2^32 - 1 when V is larger, with
    exactly these clauses: the clause count C of the header is not read,
    whatever stands in its place. *)
Theorem read_template_header (V : Z) (count : string) (clauses : list string) :
  0 <= V ->
  Forall (fun str => is_clause_line str = true) clauses ->
  read_template (("p cnf " +:+ to_string V +:+ " " +:+ count) :: clauses) 0 []
  = (Z.min V UINT_MAX, clauses).
Proof.
  intros HV Hclauses. destruct (clause_lines_filter _ Hclauses) as [Hkeep Hnop].
  rewrite read_template_filter. cbn [List.filter].
  change (is_p_line ("p cnf " +:+ _)) with true.
  change (is_clause_line ("p cnf " +:+ _)) with false. cbn iota.
  rewrite Hkeep, Hnop. cbn [last app]. f_equal. now apply parse_p_line_header.
Qed.

Lemma read_template_header_witness :
  read_template ["p cnf 5000000000 many"; "1 -2 0"; ""; "-1 0"] 0 []
  = (4294967295, ["1 -2 0"; ""; "-1 0"]).
Proof.
  apply (read_template_header 5000000000 "many" ["1 -2 0"; ""; "-1 0"]).
  - lia.
  - repeat constructor.
Defined.

(** X8.  The instance file of a stage and a seed keeps no trace of an
    earlier candidate: a call of [gen_rand_cnf] after another one for the
    same stage and seed does what it would have done without the first. *)
Theorem gen_rand_cnf_overwrites
  (fs : files) (first second : string) (operat_num seed : Z) (name : string) (fs1 : files) :
  gen_rand_cnf first operat_num seed fs = Ret (name, fs1) ->
  gen_rand_cnf second operat_num seed fs1 = gen_rand_cnf second operat_num seed fs.
Proof.
  intros Hgen.
  pose proof (gen_rand_cnf_keeps_templates _ _ _ _ _ _ Hgen operat_num) as Hkeep.
  apply gen_rand_cnf_inv in Hgen as (HV & HC & -> & ->).
  assert (Hsame : template (<[rand_cnf_name operat_num seed :=
                     ("p cnf " +:+ to_string (declared_variables fs operat_num) +:+ " "
                        +:+ to_string (Z.of_nat (length (template_clauses fs operat_num))
                                       + Z.of_nat (String.length first)))
                       :: template_clauses fs operat_num
                       ++ unit_clauses (declared_variables fs operat_num)
                            (Z.of_nat (String.length first)) 0 first]> fs) operat_num
                  = template fs operat_num).
  { unfold template. now rewrite Hkeep. }
  rewrite !gen_rand_cnf_returns;
    unfold declared_variables, template_clauses in *; rewrite ?Hsame; try assumption.
  now rewrite insert_insert_eq.
Qed.

Lemma gen_rand_cnf_overwrites_witness :
  exists fs1 : files,
    gen_rand_cnf (complement sample_candidate) 3 7 (sample_files 600 50)
    = Ret (rand_cnf_name 3 7, fs1)
    /\ gen_rand_cnf sample_candidate 3 7 fs1
       = gen_rand_cnf sample_candidate 3 7 (sample_files 600 50).
Proof.
  destruct (sample_instance_written (complement sample_candidate)) as [fs1 E].
  exists fs1. split; [exact E|].
  exact (gen_rand_cnf_overwrites _ _ sample_candidate _ _ _ _ E).
Defined.

(** X9.  The unit clause for character [i] of the candidate is on the
    variable [V - size + 1 + i] computed in [size_t], where [V] is the
    declared variable count and [size] the length of the candidate.  It is
    one of the declared variables 1 to [V] exactly when [size <= V + i]:
    with a candidate longer than [V] the first unit clauses are on
    variable 0 or on variables above 2^64 - 2^32. *)
Theorem gen_rand_cnf_variable_range
  (fs : files) (rand_output : string) (operat_num seed : Z) (name : string) (fs' : files)
  (i : nat) (bit : ascii) :
  gen_rand_cnf rand_output operat_num seed fs = Ret (name, fs') ->
  String.get i rand_output = Some bit ->
  Z.of_nat (String.length rand_output) < 2 ^ 32 ->
  let V := declared_variables fs operat_num in
  let v := V - Z.of_nat (String.length rand_output) + 1 + Z.of_nat i in
  exists (instance : list string) (variable : Z),
    fs' !! name = Some instance
    /\ instance !! (1 + length (template_clauses fs operat_num) + i)%nat
       = Some ((if Ascii.eqb bit "0" then "-" else "") +:+ to_string variable +:+ " 0")
    /\ variable = (if v <? 0 then v + 2 ^ 64 else v)
    /\ (1 <= variable <= V <-> Z.of_nat (String.length rand_output) <= V + Z.of_nat i).
Proof.
  intros Hgen Hget Hsize V v.
  apply gen_rand_cnf_inv in Hgen as (HV & _ & -> & ->).
  pose proof (declared_variables_range fs operat_num) as Hrange. fold V in Hrange, HV.
  pose proof (get_lt _ _ _ Hget) as Hi.
  eexists _, (wrap64 v). split; [apply lookup_insert_eq|]. split; [|split].
  - change (1 + length (template_clauses fs operat_num) + i)%nat
      with (Datatypes.S (length (template_clauses fs operat_num) + i)).
    rewrite lookup_cons_S, lookup_app_r by lia.
    replace (length (template_clauses fs operat_num) + i
             - length (template_clauses fs operat_num))%nat with i by lia.
    rewrite (unit_clauses_lookup _ _ _ _ _ _ Hget). subst v V. reflexivity.
  - unfold wrap64. destruct (Z.ltb_spec v 0) as [Hneg | Hpos].
    + rewrite <- (Z.mod_add v 1 (2 ^ 64)) by lia. rewrite Z.mul_1_l.
      apply Z.mod_small. subst v. lia.
    + apply Z.mod_small. subst v. lia.
  - unfold wrap64. destruct (Z.ltb_spec v 0) as [Hneg | Hpos].
    + rewrite <- (Z.mod_add v 1 (2 ^ 64)) by lia. rewrite Z.mul_1_l.
      rewrite Z.mod_small by (subst v; lia). subst v. lia.
    + rewrite Z.mod_small by (subst v; lia). subst v. lia.
Qed.

Lemma gen_rand_cnf_variable_range_witness :
  exists (fs' : files) (instance : list string),
    gen_rand_cnf sample_candidate 3 7 (sample_files 511 50) = Ret (rand_cnf_name 3 7, fs')
    /\ fs' !! rand_cnf_name 3 7 = Some instance
    /\ instance !! 51%nat = Some "0 0".
Proof.
  assert (E : exists fs' : files,
             gen_rand_cnf sample_candidate 3 7 (sample_files 511 50)
             = Ret (rand_cnf_name 3 7, fs')).
  { eexists. apply gen_rand_cnf_returns; [vm_compute; reflexivity | vm_compute; discriminate]. }
  destruct E as [fs' E].
  destruct (gen_rand_cnf_variable_range _ _ _ _ _ _ 0 "1"%char E eq_refl)
    as (instance & variable & Hfile & Hline & Hvar & _).
  - vm_compute. reflexivity.
  - exists fs', instance. split; [exact E|]. split; [exact Hfile|].
    assert (HC : length (template_clauses (sample_files 511 50) 3) = 50%nat)
      by (vm_compute; reflexivity).
    rewrite HC in Hline. change (1 + 50 + 0)%nat with 51%nat in Hline.
    rewrite Hline, Hvar. vm_compute. reflexivity.
Defined.

(** ** Stages and the bound *)

Section EnteredBelowBound.

Context {S : Type}.
Variable run_stage : string -> Z -> S -> outcome (result * Z * S).
Variable min_at : Z -> double.
Variable rand_output : string.

(** Every stage run so far got past the test of line 245. *)
Lemma step_entered (c : config S) :
  invariant run_stage min_at rand_output c ->
  (forall earlier x later,
      ran_of c = earlier ++ x :: later ->
      prune_check (min_at (sr_operat_num x)) (total_runtime earlier) = false
      /\ bound_set (total_runtime earlier)) ->
  forall earlier x later,
    ran_of (step run_stage min_at rand_output c) = earlier ++ x :: later ->
    prune_check (min_at (sr_operat_num x)) (total_runtime earlier) = false
    /\ bound_set (total_runtime earlier).
Proof.
  destruct c as [n l | e l]; [|auto].
  intros (_ & _ & _ & _ & _ & _ & Hpos & Hsum) Hran. cbn [ran_of] in Hran. cbn [step].
  destruct (negb (n <=? 7)); [exact Hran|].
  destruct (prune_check (min_at n) (cur_total_runtime l)) eqn:Hprune; [exact Hran|].
  destruct (run_stage rand_output n (outside l)) as [[[res count] s] | f]; [|exact Hran].
  assert (Hnew : forall earlier x later,
             ran l ++ [StageRun n res (elapsed_time_sec count)] = earlier ++ x :: later ->
             prune_check (min_at (sr_operat_num x)) (total_runtime earlier) = false
             /\ bound_set (total_runtime earlier)).
  { intros earlier x later Hsplit.
    apply split_before_last in Hsplit as [(_ & -> & ->) | (later' & _ & Hsplit)].
    - cbn [sr_operat_num]. now rewrite <- Hsum.
    - exact (Hran _ _ _ Hsplit). }
  destruct res; cbn [is_unsat];
    repeat match goal with
      | |- context [if ?b then _ else _] => destruct b
      end; exact Hnew.
Qed.

Lemma iter_entered (k : nat) (s : S) (earlier : list stage_run) (x : stage_run)
  (later : list stage_run) :
  ran_of (Nat.iter k (step run_stage min_at rand_output) (start s)) = earlier ++ x :: later ->
  prune_check (min_at (sr_operat_num x)) (total_runtime earlier) = false
  /\ bound_set (total_runtime earlier).
Proof.
  revert earlier x later. induction k as [|k IH]; intros earlier x later.
  - cbn. intros H. now destruct earlier.
  - rewrite Nat.iter_succ. apply step_entered; [apply invariant_iter | exact IH].
Qed.

(** X17.  Every stage that ran was entered with the cumulative run time,
    as the program had added it up, strictly below the bound read there,
    when that bound was positive: no stage runs that the test of line 245
    forbids. *)
Theorem stages_entered_below_bound
  (s : S) (e : ending) (l : locals S)
  (earlier : list stage_run) (x : stage_run) (later : list stage_run) :
  evaluate run_stage min_at rand_output s = Stopped e l ->
  ran l = earlier ++ x :: later ->
  (double_of_Z 0 < min_at (sr_operat_num x))%D ->
  (total_runtime earlier < min_at (sr_operat_num x))%D.
Proof.
  intros He Hran Hpos.
  pose proof (iter_entered 6 s earlier x later) as H.
  fold (evaluate run_stage min_at rand_output s) in H.
  rewrite He in H. destruct (H Hran) as [Hcheck Hcur].
  unfold prune_check in Hcheck. rewrite Hpos in Hcheck. cbn [andb] in Hcheck.
  apply double_not_le_lt; [| now apply bound_set_refl | exact Hcheck].
  exact (proj2 (double_le_refl _ _ (double_lt_le _ _ Hpos))).
Qed.

End EnteredBelowBound.

Lemma stages_entered_below_bound_witness :
  (total_runtime [StageRun 3 SAT (elapsed_time_sec 7); StageRun 4 SAT (elapsed_time_sec 7)]
   < elapsed_time_sec 17)%D.
Proof.
  apply (stages_entered_below_bound (constant_oracle SAT 7) (fun _ => elapsed_time_sec 17)
           sample_candidate tt (Abandoned Pruned 6) three_sat_stages
           [StageRun 3 SAT (elapsed_time_sec 7); StageRun 4 SAT (elapsed_time_sec 7)]
           (StageRun 5 SAT (elapsed_time_sec 7)) []).
  - vm_compute. reflexivity.
  - reflexivity.
  - reflexivity.
Defined.

(** ** How a worker can end *)

Lemma gen_rand_cnf_fails
  (fs : files) (rand_output : string) (operat_num seed : Z) (f : failure) :
  gen_rand_cnf rand_output operat_num seed fs = Fail f -> f = Aborted.
Proof.
  unfold gen_rand_cnf. destruct (read_template _ 0 []) as [V clauses].
  destruct (0 <? V); cbn [assert mbind outcome_bind]; [|congruence].
  destruct (0 <? length clauses)%nat; cbn [assert mbind outcome_bind]; [discriminate | congruence].
Qed.

Lemma solve_cnf_fails
  (exec : string -> world -> world) (cnf_name : string) (operat_num seed : Z) (w : world)
  (f : failure) :
  solve_cnf exec cnf_name operat_num seed w = Fail f ->
  f = Aborted \/ f = Exited EXIT_FAILURE (not_opened (log_name seed)).
Proof.
  destruct (Z.lt_ge_cases operat_num 3) as [|H3];
    [rewrite solve_cnf_out_of_range by auto; left; congruence|].
  destruct (Z.lt_ge_cases 7 operat_num) as [|H7];
    [rewrite solve_cnf_out_of_range by auto; left; congruence|].
  rewrite solve_cnf_in_range by lia. cbn zeta.
  destruct (w_files _ !! _); [discriminate|]. right. congruence.
Qed.

Lemma stage_on_world_fails
  (exec : string -> world -> world) (seed : Z) (cand : string) (n : Z) (w : world)
  (f : failure) :
  stage_on_world exec seed cand n w = Fail f ->
  f = Aborted \/ f = Exited EXIT_FAILURE (not_opened (log_name seed)).
Proof.
  unfold stage_on_world.
  destruct (gen_rand_cnf cand n seed (w_files w)) as [[cnf_name fs] | f0] eqn:Hgen;
    cbn [mbind outcome_bind].
  - destruct (solve_cnf exec cnf_name n seed _) as [[res w'] | f1] eqn:Hsolve;
      cbn [mbind outcome_bind]; [discriminate|].
    intros H. injection H as <-. exact (solve_cnf_fails _ _ _ _ _ _ Hsolve).
  - intros H. injection H as <-. left. exact (gen_rand_cnf_fails _ _ _ _ _ Hgen).
Qed.

(** X23.  A turn of a worker on files always ends.  When it ends the
    process, it is by a failed assertion (a draw that is no bit, a
    template without variables or clauses) or by the exit with the failure
    status of [read_solver_result], whose message names the log of the
    worker's seed: nothing else ends a worker. *)
Theorem turn_failures {rng_t : Type}
  (exec : string -> world -> world) (seed : Z) (dist : rng_t -> Z * rng_t)
  (w : worker world rng_t) :
  (exists (w' : worker world rng_t) (r : report world),
      candidate_turn (stage_on_world exec seed) dist w = Ret (w', r))
  \/ candidate_turn (stage_on_world exec seed) dist w = Fail Aborted
  \/ candidate_turn (stage_on_world exec seed) dist w
     = Fail (Exited EXIT_FAILURE (not_opened (log_name seed))).
Proof.
  unfold candidate_turn, gen_rand_output. rewrite rand_seq8_cases.
  destruct (draws_are_bits dist 256 (rng w)); cbn [mbind outcome_bind]; [|auto].
  destruct (evaluate_stopped (stage_on_world exec seed)
              (fun _ => min_total_solving_runtime w)
              (concat_blocks (drawn_blocks dist 32 (rng w)).1) (surroundings w))
    as (e & l & He).
  pose proof (evaluate_settled _ _ _ _ _ _ He) as Hsettled. rewrite He.
  destruct e as [| why n | f n].
  - left. destruct (improves _ _); eauto.
  - left. eauto.
  - cbn [settled] in Hsettled. destruct Hsettled as (_ & _ & Hrun).
    apply stage_on_world_fails in Hrun as [-> | ->]; auto.
Qed.

(** ** Two bounds *)

Section TwoBounds.

Context {S : Type}.
Variable run_stage : string -> Z -> S -> outcome (result * Z * S).
Variables min_at1 min_at2 : Z -> double.
Variable rand_output : string.

(** Where the second bound can prune, the first is positive and no larger. *)
Hypothesis tighter :
  forall n : Z,
    (double_of_Z 0 < min_at2 n)%D ->
    (double_of_Z 0 < min_at1 n)%D /\ (min_at1 n <= min_at2 n)%D.

Lemma step_pruned_before (c1 c2 : config S) :
  pruned_before c1 c2 ->
  pruned_before (step run_stage min_at1 rand_output c1) (step run_stage min_at2 rand_output c2).
Proof.
  intros [<- | (n & l & -> & Hpre)].
  - destruct c1 as [n l | e l]; [|left; reflexivity].
    destruct (prune_check (min_at1 n) (cur_total_runtime l)) eqn:H1.
    + destruct (negb (n <=? 7)) eqn:Hn.
      * left. cbn [step]. now rewrite Hn.
      * right. exists n, l. split; [cbn [step]; now rewrite Hn, H1|].
        destruct (step_extends run_stage min_at2 rand_output (AtStage n l)) as [more ->].
        now apply prefix_app_r.
    + assert (H2 : prune_check (min_at2 n) (cur_total_runtime l) = false).
      { destruct (prune_check (min_at2 n) (cur_total_runtime l)) eqn:H2; [|reflexivity].
        apply prune_check_true in H2 as [Hpos Hle].
        destruct (tighter n Hpos) as [Hpos1 Hle1].
        rewrite <- H1. symmetry. apply prune_check_true.
        split; [exact Hpos1 | exact (double_le_trans _ _ _ Hle1 Hle)]. }
      left. cbn [step]. now rewrite H1, H2.
  - right. exists n, l. split; [reflexivity|].
    destruct (step_extends run_stage min_at2 rand_output c2) as [more ->].
    now apply prefix_app_r.
Qed.

Lemma iter_pruned_before (k : nat) (s : S) :
  pruned_before (Nat.iter k (step run_stage min_at1 rand_output) (start s))
    (Nat.iter k (step run_stage min_at2 rand_output) (start s)).
Proof.
  induction k as [|k IH]; [left; reflexivity|].
  rewrite !Nat.iter_succ. now apply step_pruned_before.
Qed.

(** X24.  Of two bounds, one positive and no larger than the other
    wherever the other can prune: the evaluation of a candidate under the
    tighter bound runs a prefix of the stages it runs under the other one,
    with the same verdicts and run times; it ends in the same way with the
    same variables, or else it is pruned.  So a bound that is lowered, by
    whichever worker, never makes an evaluation run longer. *)
Theorem tighter_bound_prunes_earlier (s : S) (e1 e2 : ending) (l1 l2 : locals S) :
  evaluate run_stage min_at1 rand_output s = Stopped e1 l1 ->
  evaluate run_stage min_at2 rand_output s = Stopped e2 l2 ->
  ran l1 `prefix_of` ran l2
  /\ ((e1 = e2 /\ l1 = l2) \/ exists n : Z, e1 = Abandoned Pruned n).
Proof.
  intros H1 H2. pose proof (iter_pruned_before 6 s) as Hsim.
  fold (evaluate run_stage min_at1 rand_output s) in Hsim.
  fold (evaluate run_stage min_at2 rand_output s) in Hsim.
  rewrite H1, H2 in Hsim. destruct Hsim as [E | (n & l & E & Hpre)].
  - injection E as -> ->. split; [reflexivity | auto].
  - injection E as -> ->. split; [exact Hpre | eauto].
Qed.

End TwoBounds.

Lemma tighter_bound_prunes_earlier_witness :
  exists l2 : locals unit,
    evaluate (constant_oracle SAT 7) (fun _ => elapsed_time_sec 21) sample_candidate tt
    = Stopped (Abandoned Pruned 6) three_sat_stages
    /\ evaluate (constant_oracle SAT 7) (fun _ => double_of_Z (-1)) sample_candidate tt
       = Stopped Completed l2
    /\ ran three_sat_stages `prefix_of` ran l2.
Proof.
  eexists. split; [vm_compute; reflexivity|]. split; [vm_compute; reflexivity|].
  eapply proj1.
  apply (tighter_bound_prunes_earlier (constant_oracle SAT 7)
           (fun _ => elapsed_time_sec 21) (fun _ => double_of_Z (-1)) sample_candidate)
    with (s := tt) (e1 := Abandoned Pruned 6) (e2 := Completed).
  - intros n Hpos. exfalso. revert Hpos. vm_compute. discriminate.
  - vm_compute. reflexivity.
  - vm_compute. reflexivity.
Defined.

(** ** Where an evaluation ends *)

Lemma count_unsat_length (runs : list stage_run) :
  count_unsat runs <= Z.of_nat (length runs).
Proof.
  induction runs as [|r runs IH]; [reflexivity|].
  cbn [count_unsat length]. destruct (is_unsat (sr_res r)); lia.
Qed.

(** X25.  An evaluation that completes has made five solver calls.  One
    that is pruned at stage n has made n - 3, and n is at least 4; one
    that ends at stage n on an inconclusive verdict has made n - 2; one
    that ends at stage n on too many Unsatisfiable verdicts has made
    n - 2, and n is 6 or 7; one in which stage n ends the process has
    made n - 3 before.  So a candidate gets between one and five solver
    calls, unless its stage 3 ends the process. *)
Theorem ending_stages {S : Type}
  (run_stage : string -> Z -> S -> outcome (result * Z * S))
  (min_at : Z -> double) (rand_output : string) (s : S) (e : ending) (l : locals S) :
  evaluate run_stage min_at rand_output s = Stopped e l ->
  match e with
  | Completed => length (ran l) = 5%nat
  | Abandoned Pruned n => 4 <= n <= 7 /\ Z.of_nat (length (ran l)) = n - 3
  | Abandoned Inconclusive n => 3 <= n <= 7 /\ Z.of_nat (length (ran l)) = n - 2
  | Abandoned TooManyUnsat n => 6 <= n <= 7 /\ Z.of_nat (length (ran l)) = n - 2
  | Crashed _ n => 3 <= n <= 7 /\ Z.of_nat (length (ran l)) = n - 3
  end.
Proof.
  intros He. apply evaluate_settled in He.
  destruct e as [| [| |] n | f n]; cbn [settled] in He.
  - destruct He as (Hn & _). lia.
  - destruct He as ((Hn & _ & _ & _ & _ & _ & _ & Hsum) & Hle & Hprune).
    split; [|lia]. split; [|exact Hle].
    destruct (ran l) as [|r runs] eqn:Hran; [|cbn [length] in Hn; lia].
    rewrite Hsum in Hprune. cbn in Hprune.
    rewrite prune_check_zero in Hprune. discriminate.
  - destruct He as (l0 & count & s' & (Hn & _) & Hle & _ & ->).
    unfold after_stage. cbn [ran]. rewrite length_app. cbn [length]. lia.
  - destruct He as (l0 & count & s' & (Hn & _ & _ & Hunsat & _) & Hle & _ & H3 & ->).
    pose proof (count_unsat_length (ran l0)) as Hlen.
    unfold after_stage. cbn [ran]. rewrite length_app. cbn [length]. lia.
  - destruct He as ((Hn & _) & Hle & _). lia.
Qed.

Lemma ending_stages_witness :
  6 <= 6 <= 7
  /\ Z.of_nat (length (ran (locals_of (evaluate (constant_oracle UNSAT 7) (fun _ => double_of_Z (-1))
                                        sample_candidate tt)))) = 6 - 2.
Proof.
  apply (ending_stages (constant_oracle UNSAT 7) (fun _ => double_of_Z (-1)) sample_candidate tt
           (Abandoned TooManyUnsat 6)).
  vm_compute. reflexivity.
Defined.

(** ** Several workers *)

Lemma update_step_within (values : list double) (shared : double) (pc : update_pc) :
  shared ∈ values -> (forall v, v ∈ held pc -> v ∈ values) ->
  (update_step shared pc).1 ∈ values
  /\ (forall v, v ∈ held (update_step shared pc).2 -> v ∈ values).
Proof.
  intros Hshared Hpc.
  destruct pc as [cur | cur | cur | cur | printed]; cbn [update_step held] in *.
  - destruct (double_ltb shared (double_of_Z 0)); cbn [fst snd held]; auto.
  - destruct (double_ltb cur shared); cbn [fst snd held]; [auto|].
    split; [exact Hshared | intros v Hv; inversion Hv].
  - cbn [fst snd held]. split; [apply Hpc; left | exact Hpc].
  - cbn [fst snd held]. split; [exact Hshared|].
    intros v Hv. apply list_elem_of_singleton in Hv as ->. exact Hshared.
  - cbn [fst snd]. auto.
Qed.

Lemma interleave_within (values : list double) (schedule : list nat) (shared : double)
  (workers : list update_pc) :
  within values shared workers ->
  within values (interleave schedule shared workers).1 (interleave schedule shared workers).2.
Proof.
  revert shared workers.
  induction schedule as [|i schedule IH]; intros shared workers [Hshared Hworkers]; [split; assumption|].
  cbn [interleave]. destruct (workers !! i) as [pc|] eqn:Hpc; [|apply IH; split; assumption].
  destruct (update_step_within values shared pc Hshared) as [Hshared' Hpc'].
  { apply Hworkers. eapply list_elem_of_lookup_2. exact Hpc. }
  destruct (update_step shared pc) as [shared' pc']. cbn [fst snd] in *.
  apply IH. split; [exact Hshared'|].
  intros pc0 Hin. apply list_elem_of_lookup in Hin as [j Hj].
  destruct (decide (i = j)) as [<- | Hne].
  - rewrite list_lookup_insert_eq in Hj by (eapply lookup_lt_Some; exact Hpc).
    injection Hj as <-. exact Hpc'.
  - rewrite list_lookup_insert_ne in Hj by exact Hne.
    apply Hworkers. eapply list_elem_of_lookup_2. exact Hj.
Qed.

(** X26.  With two workers the shared bound can rise.  Let two candidates
    complete in times [c2 < c1], both below the bound [b] that is set.
    When both workers test the bound before either writes it, and the
    worker with the better time [c2] writes first, the other one then
    raises the bound from [c2] to [c1]: the bound ends above the best
    time found.  When each worker does its test and its write in one go,
    the bound ends at [c2]. *)
Theorem shared_bound_can_rise (b c1 c2 : double) :
  (double_of_Z 0 <= c2)%D -> (c2 < c1)%D -> (c1 < b)%D ->
  interleave [0; 0; 1; 1; 1; 1]%nat b [L282_first c1; L282_first c2]
  = (c2, [L283 c1; Past (Some c2)])
  /\ interleave [0; 0; 1; 1; 1; 1; 0; 0]%nat b [L282_first c1; L282_first c2]
     = (c1, [Past (Some c1); Past (Some c2)])
  /\ interleave [0; 0; 0; 0; 1; 1; 1; 1]%nat b [L282_first c1; L282_first c2]
     = (c2, [Past (Some c1); Past (Some c2)]).
Proof.
  intros H0 H21 H1b.
  pose proof (double_le_lt_trans _ _ _ H0 H21) as H01.
  assert (Hb : double_ltb b (double_of_Z 0) = false).
  { apply double_le_not_lt, double_lt_le. exact (double_lt_trans _ _ _ H01 H1b). }
  assert (Hc1 : double_ltb c1 (double_of_Z 0) = false).
  { apply double_le_not_lt, double_lt_le. exact H01. }
  assert (H1 : double_ltb c1 b = true) by exact H1b.
  assert (H2 : double_ltb c2 b = true) by exact (double_lt_trans _ _ _ H21 H1b).
  assert (H3 : double_ltb c2 c1 = true) by exact H21.
  repeat split;
    repeat (progress (cbn [interleave lookup list_lookup update_step insert list_insert];
                      rewrite ?Hb, ?Hc1, ?H1, ?H2, ?H3));
    reflexivity.
Qed.

Lemma shared_bound_can_rise_witness :
  interleave [0; 0; 1; 1; 1; 1]%nat (double_of_Z 10)
    [L282_first (double_of_Z 5); L282_first (double_of_Z 3)]
  = (double_of_Z 3, [L283 (double_of_Z 5); Past (Some (double_of_Z 3))])
  /\ interleave [0; 0; 1; 1; 1; 1; 0; 0]%nat (double_of_Z 10)
       [L282_first (double_of_Z 5); L282_first (double_of_Z 3)]
     = (double_of_Z 5, [Past (Some (double_of_Z 5)); Past (Some (double_of_Z 3))])
  /\ interleave [0; 0; 0; 0; 1; 1; 1; 1]%nat (double_of_Z 10)
       [L282_first (double_of_Z 5); L282_first (double_of_Z 3)]
     = (double_of_Z 3, [Past (Some (double_of_Z 5)); Past (Some (double_of_Z 3))]).
Proof.
  apply (shared_bound_can_rise (double_of_Z 10) (double_of_Z 5) (double_of_Z 3));
    vm_compute; reflexivity.
Defined.

(** X27.  Whatever the order of the accesses of any number of workers, the
    shared bound is at every moment the bound they started from or the
    time of one of their candidates, and so is every value a message of
    line 285 shows: a bound that is set stays set when no time is
    negative.  A worker that is alone makes its four accesses like one
    step: the bound becomes the candidate's time exactly when line 282
    holds of the bound it started from, and the message shows that time. *)
Theorem shared_bound_values (schedule : list nat) (b : double) (times : list double) :
  let final := interleave schedule b (map L282_first times) in
  final.1 ∈ b :: times
  /\ (forall printed : double, Past (Some printed) ∈ final.2 -> printed ∈ b :: times)
  /\ (bound_set b -> Forall bound_set times -> bound_set final.1)
  /\ (forall cur : double,
        interleave [0; 0; 0; 0]%nat b [L282_first cur]
        = if improves b cur then (cur, [Past (Some cur)]) else (b, [Past None])).
Proof.
  intros final.
  assert (Hwithin : within (b :: times) final.1 final.2).
  { apply interleave_within. split; [left|].
    intros pc Hpc v Hv. apply list_elem_of_fmap in Hpc as (c & -> & Hc).
    cbn [held] in Hv. apply list_elem_of_singleton in Hv as ->. now right. }
  destruct Hwithin as [Hshared Hworkers].
  split; [exact Hshared|]. split; [|split].
  - intros printed Hin. apply (Hworkers _ Hin). cbn [held]. left.
  - intros Hb Htimes. apply elem_of_cons in Hshared as [-> | Hin]; [exact Hb|].
    rewrite Forall_forall in Htimes. now apply Htimes.
  - intros cur. unfold improves.
    cbn [interleave lookup list_lookup update_step insert list_insert].
    destruct (double_ltb b (double_of_Z 0));
      cbn [orb interleave lookup list_lookup update_step insert list_insert];
      [reflexivity|].
    destruct (double_ltb cur b);
      cbn [interleave lookup list_lookup update_step insert list_insert]; reflexivity.
Qed.

(** ** The shell and the files together *)

(** X28.  [solve_cnf] does not look at what [exec] returns.  When the pipe
    cannot be opened, so that no command runs and the files stay as they
    are, [exec] returns ERROR and the verdict of the stage is read from
    the log as the call before has left it; the process exits with the
    failure status only when there is no such log. *)
Theorem solve_cnf_drops_error
  (popen : string -> world -> option string * world)
  (cnf_name : string) (operat_num seed : Z) (w w' : world) :
  3 <= operat_num <= 7 ->
  popen (c_str (solver_command operat_num cnf_name seed)) w = (None, w') ->
  w_files w' = w_files w ->
  exec (fun cmd => (popen cmd w).1) (solver_command operat_num cnf_name seed) = Ret "ERROR"
  /\ solve_cnf (exec_on popen) cnf_name operat_num seed w
     = match w_files w !! log_name seed with
       | Some lines => Ret (scan_result lines, w')
       | None => Fail (Exited EXIT_FAILURE (not_opened (log_name seed)))
       end.
Proof.
  intros Hn Hpipe Hfiles. split.
  - unfold exec. now rewrite Hpipe.
  - rewrite solve_cnf_in_range by exact Hn. cbn zeta.
    unfold exec_on. rewrite Hpipe. cbn [snd]. now rewrite Hfiles.
Qed.

Lemma solve_cnf_drops_error_witness :
  exec (fun cmd => (no_pipe cmd stale_world).1) (solver_command 4 (rand_cnf_name 4 7) 7)
  = Ret "ERROR"
  /\ solve_cnf (exec_on no_pipe) (rand_cnf_name 4 7) 4 7 stale_world
     = Ret (UNSAT, World (w_files stale_world) 1000000).
Proof.
  exact (solve_cnf_drops_error no_pipe (rand_cnf_name 4 7) 4 7 stale_world _
           ltac:(lia) eq_refl eq_refl).
Defined.
